(** * FoodiePie: real-time order events

    A shallow embedding of the order-event subsystem of the FoodiePie
    restaurant application:

    - [src/app/api/ws/route.js] (the SSE endpoint [GET] and the global
      connection map [globalThis.__sseConnections]),
    - [src/actions/broadcastActions.js] (the three broadcast actions),
    - [src/actions/orderActions.js] ([placeOrderAction],
      [updateOrderStatusAction] and their helpers),
    - [src/contexts/WebSocketContext.js] (the browser-side provider:
      [subscribe], [notifySubscribers], [connect], [disconnect]).

    JavaScript values are embedded as the inductive type [JS.value]; the
    connection map is a [gmap string Conn]; streams live in a heap, so that
    a controller is a reference as it is in JavaScript; the clock, the random
    generator and the ObjectId generator are oracles of the environment. *)

From Stdlib Require Import ZArith Ascii String List Lia Bool.
From stdpp Require Import base option list gmap strings fin_maps pretty.

Open Scope string_scope.
Set Warnings "-register-all".

(* ===================================================================== *)
(** ** JavaScript values, JSON and dates *)
(* ===================================================================== *)

Module JS.

(** The JavaScript values that occur in the modelled code.  Numbers are
    integers (timestamps, counts, prices in whole units); a [Date] is its
    time value in milliseconds; an [ObjectId] is its hexadecimal text; an
    object is the list of its own properties in insertion order.  A
    [BigInt] is the value of the model that [JSON.stringify] refuses: a
    server action can be called with one, alone or inside its data. *)
Inductive value : Type :=
  | VUndefined
  | VNull
  | VBool (b : bool)
  | VNum (n : Z)
  | VStr (s : string)
  | VDate (ms : Z)
  | VObjectId (hex : string)
  | VArr (elems : list value)
  | VObj (props : list (string * value))
  | VBigInt (n : Z).

(** Strict equality [===] on the primitive values the code compares
    (identifiers, phone numbers, connection types).  Objects, arrays and
    dates are compared by reference in JavaScript; two distinct references
    are never strictly equal, and the code never compares them. *)
Definition strict_eq (a b : value) : bool :=
  match a, b with
  | VUndefined, VUndefined => true
  | VNull, VNull => true
  | VBool x, VBool y => Bool.eqb x y
  | VNum x, VNum y => Z.eqb x y
  | VStr x, VStr y => String.eqb x y
  | VBigInt x, VBigInt y => Z.eqb x y
  | _, _ => false
  end.

(** [ToBoolean]: [undefined], [null], [false], [0], [0n] and the empty
    string are falsy; everything else is truthy. *)
Definition truthy (v : value) : bool :=
  match v with
  | VUndefined | VNull => false
  | VBool b => b
  | VNum n => negb (Z.eqb n 0)
  | VStr s => negb (String.eqb s "")
  | VBigInt n => negb (Z.eqb n 0)
  | _ => true
  end.

(** [v == null] *)
Definition nullish (v : value) : bool :=
  match v with
  | VUndefined | VNull => true
  | _ => false
  end.

(** [a || b] *)
Definition or_else (a b : value) : value := if truthy a then a else b.

(** Property lookup in a property list: the first binding of [k]. *)
Fixpoint lookup_prop (k : string) (props : list (string * value)) : value :=
  match props with
  | [] => VUndefined
  | (k', v) :: rest => if String.eqb k k' then v else lookup_prop k rest
  end.

(** [o.k] for a value that is neither [null] nor [undefined]; reading a
    property of [null] or [undefined] throws a [TypeError] ([None]). *)
Definition get (k : string) (o : value) : option value :=
  match o with
  | VUndefined | VNull => None
  | VObj props => Some (lookup_prop k props)
  | _ => Some VUndefined
  end.

(** Destructuring [const { k } = o] and reads from objects known to
    exist: a missing property reads as [undefined]. *)
Definition field (k : string) (o : value) : value :=
  match o with
  | VObj props => lookup_prop k props
  | _ => VUndefined
  end.

(** [o.k = v] on a property list: an existing property keeps its place,
    a new one is appended. *)
Fixpoint set_prop (k : string) (v : value) (props : list (string * value))
  : list (string * value) :=
  match props with
  | [] => [(k, v)]
  | (k', v') :: rest =>
      if String.eqb k k' then (k, v) :: rest else (k', v') :: set_prop k v rest
  end.

Definition set_field (k : string) (v : value) (o : value) : value :=
  match o with
  | VObj props => VObj (set_prop k v props)
  | other => other
  end.

(** *** Text helpers *)

Definition dquote : string := String "034"%char EmptyString.
Definition newline : string := String "010"%char EmptyString.

Definition hex_digit (n : nat) : ascii :=
  match n with
  | 0 => "0" | 1 => "1" | 2 => "2" | 3 => "3" | 4 => "4" | 5 => "5"
  | 6 => "6" | 7 => "7" | 8 => "8" | 9 => "9" | 10 => "a" | 11 => "b"
  | 12 => "c" | 13 => "d" | 14 => "e" | _ => "f"
  end%char.

(** [QuoteJSONString] on one character. *)
Definition escape_char (c : ascii) : string :=
  let n := nat_of_ascii c in
  if Nat.eqb n 34 then "\" ++ dquote
  else if Nat.eqb n 92 then "\\"
  else if Nat.eqb n 8 then "\b"
  else if Nat.eqb n 9 then "\t"
  else if Nat.eqb n 10 then "\n"
  else if Nat.eqb n 12 then "\f"
  else if Nat.eqb n 13 then "\r"
  else if Nat.ltb n 32 then
    "\u00" ++ String (hex_digit (n / 16)) (String (hex_digit (n mod 16)) "")
  else String c "".

Fixpoint escape (s : string) : string :=
  match s with
  | EmptyString => ""
  | String c rest => escape_char c ++ escape rest
  end.

Definition quote (s : string) : string := dquote ++ escape s ++ dquote.

Fixpoint join (sep : string) (parts : list string) : string :=
  match parts with
  | [] => ""
  | [p] => p
  | p :: rest => p ++ sep ++ join sep rest
  end.

(** Decimal text of [n], left-padded with zeros to [width] digits. *)
Fixpoint zeros (n : nat) : string :=
  match n with O => "" | S k => "0" ++ zeros k end.

Definition padStart0 (width : nat) (s : string) : string :=
  zeros (width - String.length s) ++ s.

(** [s.slice(-n)]: the last [n] characters (all of [s] when it is shorter). *)
Definition slice_last (n : nat) (s : string) : string :=
  String.substring (String.length s - n) n s.

(** *** Dates *)

(** Civil date of a day number counted from 1970-01-01 (proleptic
    Gregorian calendar), as [(year, month, day)]. *)
Definition civil_from_days (days : Z) : Z * Z * Z :=
  let z := (days + 719468)%Z in
  let era := (z / 146097)%Z in
  let doe := (z - era * 146097)%Z in
  let yoe := ((doe - doe / 1460 + doe / 36524 - doe / 146096) / 365)%Z in
  let doy := (doe - (365 * yoe + yoe / 4 - yoe / 100))%Z in
  let mp := ((5 * doy + 2) / 153)%Z in
  let d := (doy - (153 * mp + 2) / 5 + 1)%Z in
  let m := (if (mp <? 10)%Z then mp + 3 else mp - 9)%Z in
  let y := (yoe + era * 400 + (if (m <=? 2)%Z then 1 else 0))%Z in
  (y, m, d).

Definition digits (width : nat) (n : Z) : string :=
  padStart0 width (pretty (Z.abs n)).

(** [Date.prototype.toISOString] for a valid time value. *)
Definition toISOString (ms : Z) : string :=
  let days := (ms / 86400000)%Z in
  let rem := (ms mod 86400000)%Z in
  let '(y, m, d) := civil_from_days days in
  let year :=
    if ((0 <=? y) && (y <=? 9999))%Z then digits 4 y
    else (if (y <? 0)%Z then "-" else "+") ++ digits 6 y in
  year ++ "-" ++ digits 2 m ++ "-" ++ digits 2 d ++ "T"
    ++ digits 2 (rem / 3600000) ++ ":"
    ++ digits 2 (rem / 60000 mod 60) ++ ":"
    ++ digits 2 (rem / 1000 mod 60) ++ "."
    ++ digits 3 (rem mod 1000) ++ "Z".

(** *** JSON.stringify *)

(** Whether [JSON.stringify v] throws: it throws a [TypeError] when it
    comes to a BigInt, be it [v] itself, an element of an array or the
    value of a property, at any depth. *)
Fixpoint stringify_throws (v : value) : bool :=
  match v with
  | VBigInt _ => true
  | VArr elems => existsb stringify_throws elems
  | VObj props => existsb (fun kv => stringify_throws (snd kv)) props
  | _ => false
  end.

(** The text [JSON.stringify v] returns; [None] when it returns
    [undefined] or throws ([stringify_throws] tells the two apart).  A
    property whose value is [undefined] is left out of an object; an
    [undefined] array element is written [null]; dates and ObjectIds are
    written through their [toJSON] as strings; integers are written in
    plain decimal, as JavaScript writes them below [10^21]. *)
Fixpoint stringify (v : value) : option string :=
  match v with
  | VUndefined => None
  | VBigInt _ => None
  | VNull => Some "null"
  | VBool true => Some "true"
  | VBool false => Some "false"
  | VNum n => Some (pretty n)
  | VStr s => Some (quote s)
  | VDate ms => Some (quote (toISOString ms))
  | VObjectId hex => Some (quote hex)
  | VArr elems =>
      if existsb stringify_throws elems then None
      else
        Some ("[" ++ join ","
                (List.map (fun e => match stringify e with
                                    | Some s => s
                                    | None => "null"
                                    end) elems) ++ "]")
  | VObj props =>
      if existsb (fun kv => stringify_throws (snd kv)) props then None
      else
        Some ("{" ++ join ","
                (List.flat_map (fun kv => match stringify (snd kv) with
                                          | Some s => [quote (fst kv) ++ ":" ++ s]
                                          | None => []
                                          end) props) ++ "}")
  end.

(** Whether [pattern] occurs in [s]. *)
Fixpoint contains (pattern s : string) : bool :=
  String.prefix pattern s
  || match s with
     | EmptyString => false
     | String _ rest => contains pattern rest
     end.

(** A template literal writes an [undefined] interpolation as the text
    [undefined]. *)
Definition interpolate (o : option string) : string :=
  match o with Some s => s | None => "undefined" end.

End JS.

(* ===================================================================== *)
(** ** The server: connection map, streams, collections *)
(* ===================================================================== *)

Module Server.
Import JS.

(** A [ReadableStream] seen through its controller: [enqueue] succeeds
    while the stream is readable and throws once the peer is gone.
    [chunks] is everything that was enqueued, in order: what the peer
    receives. *)
Record Stream := mkStream {
  readable : bool;
  chunks : list string
}.

(** [connectionData] of [route.js].  [controller] is a reference into the
    heap of streams; the [encoder] field is a stateless [TextEncoder] and
    is left out.  The three query parameters are strings or [null]. *)
Record Conn := mkConn {
  controller : nat;
  restaurantId : value;
  customerPhone : value;
  type : value
}.

(** The audience of one call of a broadcast action. *)
Inductive Selector :=
  | ToRestaurant (restaurantId : value)
  | ToCustomer (restaurantId customerPhone : value)
  | ToAdmin (restaurantId : value).

(** One call of a broadcast action, as its caller made it. *)
Record Publish := mkPublish {
  pub_selector : Selector;
  pub_event : string;
  pub_data : value
}.

(** The environment's oracles: the [n]-th reading of [Date.now()], the
    [n]-th draw of [Math.floor(Math.random() * 100)] (taken modulo 100),
    the [n]-th generated [ObjectId], and Mongoose's verdict on a document
    handed to [Order.create] (casting and validation against
    [OrderSchema]). *)
Record Env := mkEnv {
  Date_now : nat -> Z;
  Math_random : nat -> nat;
  new_ObjectId : nat -> string;
  Order_validate : value -> bool
}.

(** The state of the serving process.
    - [sseConnections] is [globalThis.__sseConnections]: [None] while the
      route module has not been evaluated, a [Map] from connection id to
      [connectionData] afterwards;
    - [streams] is the heap of streams created by [GET];
    - [pingIntervals] are the running keep-alive intervals, each named by
      the stream it pings;
    - [orders] and [profiles] are the [Order] and [CustomerProfile]
      collections;
    - [ticks], [draws] and [oids] count the oracle readings made so far;
    - [published] is a trace of the calls of the broadcast actions; the
      program never reads it. *)
Record World := mkWorld {
  sseConnections : option (gmap string Conn);
  streams : list Stream;
  pingIntervals : list nat;
  orders : list value;
  profiles : list value;
  ticks : nat;
  draws : nat;
  oids : nat;
  published : list Publish
}.

Definition set_sseConnections (c : option (gmap string Conn)) (w : World) : World :=
  mkWorld c (streams w) (pingIntervals w) (orders w) (profiles w)
          (ticks w) (draws w) (oids w) (published w).

Definition set_streams (s : list Stream) (w : World) : World :=
  mkWorld (sseConnections w) s (pingIntervals w) (orders w) (profiles w)
          (ticks w) (draws w) (oids w) (published w).

Definition set_pingIntervals (p : list nat) (w : World) : World :=
  mkWorld (sseConnections w) (streams w) p (orders w) (profiles w)
          (ticks w) (draws w) (oids w) (published w).

Definition set_orders (o : list value) (w : World) : World :=
  mkWorld (sseConnections w) (streams w) (pingIntervals w) o (profiles w)
          (ticks w) (draws w) (oids w) (published w).

Definition set_profiles (p : list value) (w : World) : World :=
  mkWorld (sseConnections w) (streams w) (pingIntervals w) (orders w) p
          (ticks w) (draws w) (oids w) (published w).

Definition set_ticks (n : nat) (w : World) : World :=
  mkWorld (sseConnections w) (streams w) (pingIntervals w) (orders w)
          (profiles w) n (draws w) (oids w) (published w).

Definition set_draws (n : nat) (w : World) : World :=
  mkWorld (sseConnections w) (streams w) (pingIntervals w) (orders w)
          (profiles w) (ticks w) n (oids w) (published w).

Definition set_oids (n : nat) (w : World) : World :=
  mkWorld (sseConnections w) (streams w) (pingIntervals w) (orders w)
          (profiles w) (ticks w) (draws w) n (published w).

Definition set_published (p : list Publish) (w : World) : World :=
  mkWorld (sseConnections w) (streams w) (pingIntervals w) (orders w)
          (profiles w) (ticks w) (draws w) (oids w) p.

(** A process that has served nothing yet. *)
Definition initial : World :=
  mkWorld None [] [] [] [] 0 0 0 [].

(** [controller.enqueue(chunk)]: appends to a readable stream; throws
    ([None]) on a stream that is no longer readable. *)
Definition enqueue (h : nat) (chunk : string) (strs : list Stream)
  : option (list Stream) :=
  match strs !! h with
  | Some s =>
      if readable s
      then Some (<[h := mkStream true (chunks s ++ [chunk])]> strs)
      else None
  | None => None
  end.

(** Whether [enqueue] on [h] succeeds. *)
Definition accepts (strs : list Stream) (h : nat) : bool :=
  match strs !! h with
  | Some s => readable s
  | None => false
  end.

(** What a stream holds after [n] more chunks [chunk] were enqueued. *)
Definition extended (chunk : string) (n : nat) (s : Stream) : Stream :=
  if readable s then mkStream true (chunks s ++ replicate n chunk) else s.

(** [connections.delete(connId)] on the global map. *)
Definition delete_connection (connId : string) (w : World) : World :=
  set_sseConnections (delete connId <$> sseConnections w) w.

(** The text frame [`data: ${JSON.stringify(payload)}\n\n`] of a payload
    that [JSON.stringify] does not refuse; the [TextEncoder] turns it
    into the bytes of the same text. *)
Definition sse_frame (payload : value) : string :=
  "data: " ++ interpolate (stringify payload) ++ newline ++ newline.

(** Interpolation of a query parameter ([string] or [null]) in a
    template literal. *)
Definition to_text (v : value) : string :=
  match v with
  | VStr s => s
  | VNull => "null"
  | VUndefined => "undefined"
  | VBool true => "true"
  | VBool false => "false"
  | VNum n => pretty n
  | VBigInt n => pretty n
  | _ => "[object Object]"
  end.

(** Every connection of the map has a stream of its own in the heap.
    [GET] creates one stream per connection, and every operation of the
    server keeps it so. *)
Definition own_streams (w : World) : Prop :=
  forall m, sseConnections w = Some m ->
    (forall k c, m !! k = Some c -> controller c < length (streams w))
    /\ (forall k1 k2 c1 c2, m !! k1 = Some c1 -> m !! k2 = Some c2 ->
          controller c1 = controller c2 -> k1 = k2).

Section WithEnv.
Context (env : Env).

(** [Date.now()] *)
Definition now (w : World) : Z * World :=
  (Date_now env (ticks w), set_ticks (S (ticks w)) w).

(** [Math.floor(Math.random() * 100)] *)
Definition random100 (w : World) : nat * World :=
  (Math_random env (draws w) mod 100, set_draws (S (draws w)) w).

(** A fresh [ObjectId]. *)
Definition fresh_oid (w : World) : value * World :=
  (VObjectId (new_ObjectId env (oids w)), set_oids (S (oids w)) w).

(* --------------------------------------------------------------------- *)
(** *** route.js *)

(** The module's top level: create the global map unless it exists. *)
Definition route_module (w : World) : World :=
  match sseConnections w with
  | Some _ => w
  | None => set_sseConnections (Some ∅) w
  end.

(** The query string of a request: [searchParams.get] yields the
    parameter's text or [null]. *)
Record Request := mkRequest {
  q_restaurantId : option string;
  q_customerPhone : option string;
  q_type : option string
}.

Definition searchParam (p : option string) : value :=
  match p with Some s => VStr s | None => VNull end.

Inductive Response :=
  | BadRequest (body : string)
  | EventStream (stream : nat).

(** [`${type}_${restaurantId}_${customerPhone || "admin"}_${Date.now()}`] *)
Definition make_connectionId (type restaurantId customerPhone : value) (t : Z)
  : string :=
  to_text type ++ "_" ++ to_text restaurantId ++ "_"
    ++ to_text (or_else customerPhone (VStr "admin")) ++ "_" ++ pretty t.

Definition connected_payload (connectionId : string) : value :=
  VObj [("event", VStr "connected"); ("connectionId", VStr connectionId)].

Definition ping_payload : value := VObj [("event", VStr "ping")].

(** [GET(request)].  The module is evaluated before its handler runs.
    [start(controller)] runs inside the [ReadableStream] constructor: it
    stores the connection, enqueues the [connected] frame, and installs
    the ping interval and the abort listener (the events [pingTick] and
    [onAbort] below). *)
Definition GET (request : Request) (w : World) : Response * World :=
  let w := route_module w in
  let restaurantId := searchParam (q_restaurantId request) in
  let customerPhone := searchParam (q_customerPhone request) in
  let type := searchParam (q_type request) in
  if negb (truthy restaurantId) then (BadRequest "Missing restaurantId", w)
  else
    let '(t, w) := now w in
    let connectionId := make_connectionId type restaurantId customerPhone t in
    let h := length (streams w) in
    let w := set_streams (streams w ++ [mkStream true []]) w in
    let connectionData := mkConn h restaurantId customerPhone type in
    let w := set_sseConnections
               (<[connectionId := connectionData]> <$> sseConnections w) w in
    let w := match enqueue h (sse_frame (connected_payload connectionId)) (streams w) with
             | Some strs => set_streams strs w
             | None => w
             end in
    let w := set_pingIntervals (pingIntervals w ++ [h]) w in
    (EventStream h, w).

(** [clearInterval(pingInterval)] for the connection on stream [h]. *)
Definition clearInterval (h : nat) (w : World) : World :=
  set_pingIntervals (List.filter (fun i => negb (Nat.eqb i h)) (pingIntervals w)) w.

(** One firing of the 30 s keep-alive interval of the connection
    [connectionId] on stream [h]; a cleared interval does not fire. *)
Definition pingTick (connectionId : string) (h : nat) (w : World) : World :=
  if negb (existsb (Nat.eqb h) (pingIntervals w)) then w
  else
    match enqueue h (sse_frame ping_payload) (streams w) with
    | Some strs => set_streams strs w
    | None => delete_connection connectionId (clearInterval h w)
    end.

(** The peer of stream [h] goes away: the stream is no longer readable
    and every later [enqueue] on it throws. *)
Definition peerGone (h : nat) (w : World) : World :=
  match streams w !! h with
  | Some s => set_streams (<[h := mkStream false (chunks s)]> (streams w)) w
  | None => w
  end.

(** The abort listener of the request of connection [connectionId] on
    stream [h]. *)
Definition onAbort (connectionId : string) (h : nat) (w : World) : World :=
  delete_connection connectionId (clearInterval h w).

(* --------------------------------------------------------------------- *)
(** *** broadcastActions.js *)

Inductive BroadcastResult :=
  | BroadcastOk (broadcastCount : nat)
  | BroadcastError (error : string).

(** The body of the [forEach] callback once its condition holds:
    [try { enqueue; broadcastCount++ } catch { connections.delete(connId) }]. *)
Definition push (message : string) (st : World * nat) (connId : string) (conn : Conn)
  : World * nat :=
  let '(w, broadcastCount) := st in
  match enqueue (controller conn) message (streams w) with
  | Some strs => (set_streams strs w, S broadcastCount)
  | None => (delete_connection connId w, broadcastCount)
  end.

(** [connections.forEach((conn, connId) => { if (cond) { ... } })].  The
    callback only ever deletes the entry it is visiting, so visiting the
    entries the map had when the loop started is what [Map.forEach] does. *)
Definition forEach (cond : Conn -> bool) (message : string)
    (entries : list (string * Conn)) (st : World * nat) : World * nat :=
  foldl (fun st entry =>
           if cond (snd entry) then push message st (fst entry) (snd entry)
           else st)
        st entries.

(** The map a [forEach] over [entries] leaves behind: the entries whose
    push failed are gone. *)
Definition pruned (cond : Conn -> bool) (strs : list Stream)
    (entries : list (string * Conn)) (m : gmap string Conn) : gmap string Conn :=
  foldr (fun entry acc =>
           if cond (snd entry) && negb (accepts strs (controller (snd entry)))
           then delete (fst entry) acc else acc)
        m entries.

(** The entries a [forEach] pushes to successfully. *)
Definition delivered (cond : Conn -> bool) (strs : list Stream)
    (entries : list (string * Conn)) : list (string * Conn) :=
  List.filter (fun entry => cond (snd entry) && accepts strs (controller (snd entry)))
              entries.

(** The entries a [forEach] selects whose controller is [h]. *)
Definition selected_on (cond : Conn -> bool) (h : nat)
    (entries : list (string * Conn)) : list (string * Conn) :=
  List.filter (fun entry => cond (snd entry) && Nat.eqb (controller (snd entry)) h)
              entries.

Definition record (p : Publish) (w : World) : World :=
  set_published (published w ++ [p]) w.

(** The serialized envelope of one broadcast. *)
Definition envelope (event : string) (data : value) (timestamp : Z) : value :=
  VObj [("event", VStr event); ("data", data); ("timestamp", VNum timestamp)].

(** The body the three broadcast actions share.  Inside the outer
    [try], [JSON.stringify] is the one call that can throw before the
    loop: the clock has been read for the envelope by then, the outer
    [catch] returns the error's message, and the map is not walked. *)
Definition broadcast (cond : Conn -> bool) (event : string) (data : value)
    (w : World) : BroadcastResult * World :=
  match sseConnections w with
  | None => (BroadcastError "No connections available", w)
  | Some connections =>
      let '(t, w) := now w in
      if stringify_throws (envelope event data t)
      then (BroadcastError "Do not know how to serialize a BigInt", w)
      else
        let message := sse_frame (envelope event data t) in
        let '(w, broadcastCount) :=
          forEach cond message (map_to_list connections) (w, 0) in
        (BroadcastOk broadcastCount, w)
  end.

Definition broadcastToRestaurantAction (restaurantId_ : value) (event : string)
    (data : value) (w : World) : BroadcastResult * World :=
  broadcast (fun conn => strict_eq (restaurantId conn) restaurantId_)
            event data
            (record (mkPublish (ToRestaurant restaurantId_) event data) w).

Definition broadcastToCustomerAction (restaurantId_ customerPhone_ : value)
    (event : string) (data : value) (w : World) : BroadcastResult * World :=
  broadcast (fun conn => strict_eq (restaurantId conn) restaurantId_
                         && strict_eq (type conn) (VStr "customer")
                         && strict_eq (customerPhone conn) customerPhone_)
            event data
            (record (mkPublish (ToCustomer restaurantId_ customerPhone_) event data) w).

Definition broadcastToAdminAction (restaurantId_ : value) (event : string)
    (data : value) (w : World) : BroadcastResult * World :=
  broadcast (fun conn => strict_eq (restaurantId conn) restaurantId_
                         && strict_eq (type conn) (VStr "admin"))
            event data
            (record (mkPublish (ToAdmin restaurantId_) event data) w).

(** [getConnectionStatsAction(restaurantId = null)].  The action returns
    [{ success: true, stats }] on every path; the model returns the
    [stats].  An [undefined] argument takes the default [null]. *)
Record Stats := mkStats {
  total : nat;
  admin : nat;
  customer : nat
}.

Definition count_connection (restaurantId_ : value) (st : Stats) (conn : Conn)
  : Stats :=
  if negb (truthy restaurantId_) || strict_eq (restaurantId conn) restaurantId_
  then mkStats (S (total st))
               (if strict_eq (type conn) (VStr "admin")
                then S (admin st) else admin st)
               (if strict_eq (type conn) (VStr "customer")
                then S (customer st) else customer st)
  else st.

Definition getConnectionStatsAction (restaurantId_ : value) (w : World) : Stats :=
  let restaurantId_ :=
    match restaurantId_ with VUndefined => VNull | given => given end in
  match sseConnections w with
  | None => mkStats 0 0 0
  | Some connections =>
      foldl (fun st entry => count_connection restaurantId_ st (snd entry))
            (mkStats 0 0 0) (map_to_list connections)
  end.

(** The three actions as one operation on a selector. *)
Definition selects (sel : Selector) (conn : Conn) : bool :=
  match sel with
  | ToRestaurant r => strict_eq (restaurantId conn) r
  | ToCustomer r p =>
      strict_eq (restaurantId conn) r
      && strict_eq (type conn) (VStr "customer")
      && strict_eq (customerPhone conn) p
  | ToAdmin r =>
      strict_eq (restaurantId conn) r && strict_eq (type conn) (VStr "admin")
  end.

Definition publish (sel : Selector) (event : string) (data : value) (w : World)
  : BroadcastResult * World :=
  match sel with
  | ToRestaurant r => broadcastToRestaurantAction r event data w
  | ToCustomer r p => broadcastToCustomerAction r p event data w
  | ToAdmin r => broadcastToAdminAction r event data w
  end.

(* --------------------------------------------------------------------- *)
(** *** orderActions.js *)

Definition ORDER_PLACED : string := "order:placed".
Definition ORDER_UPDATED : string := "order:updated".
Definition ORDER_STATUS_CHANGED : string := "order:status_changed".

Inductive Exn := TypeError | ValidationError.

(** The [error] of a failed action: a literal of the source, or the
    message of a caught exception. *)
Inductive ActionError :=
  | Message (text : string)
  | Caught (e : Exn).

Inductive ActionResult :=
  | Success (order : value)
  | Failure (error : ActionError).

Fixpoint serializePlain (v : value) : value :=
  match v with
  | VUndefined => VUndefined
  | VNull => VNull
  | VArr elems => VArr (List.map serializePlain elems)
  | VDate ms => VStr (toISOString ms)
  | VObjectId hex => VStr hex
  | VObj props =>
      VObj (List.map (fun kv => (fst kv, serializePlain (snd kv))) props)
  | other => other
  end.

(** A value without [Date]s and [ObjectId]s: what survives the
    serialization of a server action's result unchanged. *)
Fixpoint plain (v : value) : bool :=
  match v with
  | VDate _ | VObjectId _ => false
  | VArr elems => forallb plain elems
  | VObj props => forallb (fun kv => plain (snd kv)) props
  | _ => true
  end.

Definition generateOrderId (w : World) : string * World :=
  let '(t, w) := now w in
  let timestamp := slice_last 5 (pretty t) in
  let '(r, w) := random100 w in
  let random := padStart0 2 (pretty r) in
  ("01" ++ timestamp ++ random, w).

(** The filter [{ orderId }] on a document. *)
Definition has_orderId (orderId : string) (doc : value) : bool :=
  strict_eq (field "orderId" doc) (VStr orderId).

(** [Order.findOne({ orderId })] *)
Definition findOne (orderId : string) (coll : list value) : option value :=
  List.find (has_orderId orderId) coll.

(** The loop [while (existingOrder) { orderId = generateOrderId(); ... }],
    run for at most [fuel] regenerations; [None] when it is still looping
    after that many. *)
Fixpoint regenerate (fuel : nat) (orderId : string) (w : World)
  : option (string * World) :=
  match findOne orderId (orders w) with
  | None => Some (orderId, w)
  | Some _ =>
      match fuel with
      | O => None
      | S fuel' =>
          let '(orderId', w') := generateOrderId w in
          regenerate fuel' orderId' w'
      end
  end.

(** The id the loop holds after [n] regenerations, with the world as the
    readings of the clock and of the random generator have left it. *)
Fixpoint nth_orderId (n : nat) (w : World) : string * World :=
  match n with
  | O => generateOrderId w
  | S k => generateOrderId (snd (nth_orderId k w))
  end.

(** [findOneAndUpdate]: the first document that matches is replaced by
    its update; the result is the collection and the updated document
    ([{ new: true }]), or [None] when nothing matches. *)
Fixpoint findOneAndUpdate (filter : value -> bool) (update : value -> value)
    (coll : list value) : list value * option value :=
  match coll with
  | [] => ([], None)
  | doc :: rest =>
      if filter doc then (update doc :: rest, Some (update doc))
      else let '(rest', r) := findOneAndUpdate filter update rest in
           (doc :: rest', r)
  end.

(** [items?.length] *)
Definition optional_length (items : value) : value :=
  match items with
  | VArr elems => VNum (Z.of_nat (length elems))
  | VStr s => VNum (Z.of_nat (String.length s))
  | VObj props => lookup_prop "length" props
  | _ => VUndefined
  end.

(** The callback of [items.map]; [None] is the [TypeError] of reading a
    property of [null] or [undefined]. *)
Definition order_item (item : value) : option value :=
  foodId ← get "foodId" item;
  _id ← get "_id" item;
  name ← get "name" item;
  foodType ← get "foodType" item;
  imageUrl ← get "imageUrl" item;
  variant ← get "variant" item;
  label ← get "label" variant;
  price ← get "price" variant;
  quantity ← get "quantity" item;
  Some (VObj [("foodId", or_else foodId _id);
              ("name", name);
              ("foodType", foodType);
              ("imageUrl", or_else imageUrl (VStr ""));
              ("variant", VObj [("label", label); ("price", price)]);
              ("quantity", quantity)]).

(** [items.map(...)]: only an array has [map]. *)
Definition map_items (items : value) : option (list value) :=
  match items with
  | VArr elems => mapM order_item elems
  | _ => None
  end.

(** [Order.create(doc)]: throws when Mongoose rejects the document;
    otherwise stores it with its [_id], the schema's default
    [paymentStatus], the two timestamps and the version key.  The
    document is stored as it was handed over: the casting of its values
    to the schema's types, the order Mongoose gives to the paths and the
    [_id]s it gives to the item subdocuments are not modelled. *)
Definition Order_create (doc : list (string * value)) (w : World)
  : option value * World :=
  if Order_validate env (VObj doc) then
    let '(oid, w) := fresh_oid w in
    let '(t, w) := now w in
    let newOrder :=
      VObj (("_id", oid) :: doc
            ++ [("paymentStatus", VStr "Pending");
                ("createdAt", VDate t); ("updatedAt", VDate t);
                ("__v", VNum 0)]) in
    (Some newOrder, set_orders (orders w ++ [newOrder]) w)
  else (None, w).

(** The array of a profile's [orders] path. *)
Definition array_elems (v : value) : list value :=
  match v with VArr elems => elems | _ => [] end.

(** [CustomerProfile.findOneAndUpdate({ phone, restoId },
    { $push: { orders: _id }, updatedAt: new Date() })] *)
Definition push_profile_order (phone restoId _id : value) (w : World) : World :=
  let '(t, w) := now w in
  let filter p := strict_eq (field "phone" p) phone
                  && strict_eq (field "restoId" p) restoId in
  let update p :=
    set_field "updatedAt" (VDate t)
      (set_field "orders" (VArr (array_elems (field "orders" p) ++ [_id])) p) in
  set_profiles (fst (findOneAndUpdate filter update (profiles w))) w.

(** The document [placeOrderAction] hands to [Order.create]. *)
Definition order_document (orderId : string) (orderData : value)
    (mapped : list value) : list (string * value) :=
  [("orderId", VStr orderId);
   ("restoId", field "restoId" orderData);
   ("restoCode", or_else (field "restoCode" orderData) (VStr ""));
   ("restoName", or_else (field "restoName" orderData) (VStr ""));
   ("customerPhone", field "customerPhone" orderData);
   ("customerName", or_else (field "customerName" orderData) (VStr ""));
   ("tableNumber", field "tableNumber" orderData);
   ("items", VArr mapped);
   ("subtotal", field "subtotal" orderData);
   ("tax", or_else (field "tax" orderData) (VNum 0));
   ("discount", or_else (field "discount" orderData) (VNum 0));
   ("deliveryFee", or_else (field "deliveryFee" orderData) (VNum 0));
   ("total", field "total" orderData);
   ("paymentMethod", or_else (field "paymentMethod" orderData) (VStr "Cash"));
   ("status", VStr "Placed")].

(** [placeOrderAction(orderData)], with the regeneration loop run for at
    most [fuel] rounds; [None] when the loop is still running after
    that many.  Destructuring [null] or [undefined] throws a
    [TypeError]; that one, the [TypeError] of [items.map] and a rejected
    [Order.create] are caught by the action's [try]/[catch], which
    returns the error's message.  The result of the broadcast is not
    looked at. *)
Definition placeOrderAction (fuel : nat) (orderData : value) (w : World)
  : option (ActionResult * World) :=
  if nullish orderData then Some (Failure (Caught TypeError), w)
  else
  let restoId := field "restoId" orderData in
  let customerPhone := field "customerPhone" orderData in
  let tableNumber := field "tableNumber" orderData in
  let items := field "items" orderData in
  if negb (truthy restoId) || negb (truthy customerPhone)
     || negb (truthy tableNumber) || negb (truthy (optional_length items))
  then Some (Failure (Message "Missing required fields"), w)
  else
    let '(orderId, w) := generateOrderId w in
    match regenerate fuel orderId w with
    | None => None
    | Some (orderId, w) =>
        match map_items items with
        | None => Some (Failure (Caught TypeError), w)
        | Some mapped =>
            match Order_create (order_document orderId orderData mapped) w with
            | (None, w) => Some (Failure (Caught ValidationError), w)
            | (Some newOrder, w) =>
                let w := push_profile_order customerPhone restoId
                           (field "_id" newOrder) w in
                let serializedOrder := serializePlain newOrder in
                let '(_, w) :=
                  broadcastToAdminAction restoId ORDER_PLACED
                    (VObj [("order", serializedOrder)]) w in
                Some (Success serializedOrder, w)
            end
        end
    end.

Definition validStatuses : list string :=
  ["Placed"; "Accepted"; "Preparing"; "Served"; "Cancelled"].

(** [list.includes(v)] *)
Definition includes (l : list string) (v : value) : bool :=
  existsb (fun s => strict_eq (VStr s) v) l.

(** [updateOrderStatusAction(orderId, newStatus)].  The schema has
    [timestamps: true], so the update also sets [updatedAt]. *)
Definition updateOrderStatusAction (orderId : string) (newStatus : value)
    (w : World) : ActionResult * World :=
  if negb (includes validStatuses newStatus)
  then (Failure (Message "Invalid status"), w)
  else
    let '(t, w) := now w in
    let update doc :=
      set_field "updatedAt" (VDate t) (set_field "status" newStatus doc) in
    match findOneAndUpdate (has_orderId orderId) update (orders w) with
    | (_, None) => (Failure (Message "Order not found"), w)
    | (orders', Some updatedOrder) =>
        let w := set_orders orders' w in
        let serializedOrder := serializePlain updatedOrder in
        let payload :=
          VObj [("orderId", field "orderId" updatedOrder);
                ("status", newStatus);
                ("order", serializedOrder)] in
        let '(_, w) :=
          broadcastToCustomerAction
            (field "restoId" updatedOrder) (field "customerPhone" updatedOrder)
            ORDER_STATUS_CHANGED payload w in
        let '(_, w) :=
          broadcastToAdminAction
            (field "restoId" updatedOrder) ORDER_UPDATED payload w in
        (Success serializedOrder, w)
    end.

(** Two worlds that differ in the oracle counters only. *)
Definition only_counters (w w' : World) : Prop :=
  w' = set_oids (oids w') (set_draws (draws w') (set_ticks (ticks w') w)).

(* --------------------------------------------------------------------- *)
(** *** The worlds the server can be in *)

Inductive reachable : World -> Prop :=
  | reach_initial : reachable initial
  | reach_GET request w :
      reachable w -> reachable (snd (GET request w))
  | reach_pingTick connectionId h w :
      reachable w -> reachable (pingTick connectionId h w)
  | reach_peerGone h w :
      reachable w -> reachable (peerGone h w)
  | reach_onAbort connectionId h w :
      reachable w -> reachable (onAbort connectionId h w)
  | reach_publish sel event data w :
      reachable w -> reachable (snd (publish sel event data w))
  | reach_placeOrder fuel orderData w r w' :
      reachable w -> placeOrderAction fuel orderData w = Some (r, w') ->
      reachable w'
  | reach_updateOrderStatus orderId newStatus w :
      reachable w -> reachable (snd (updateOrderStatusAction orderId newStatus w)).

End WithEnv.
End Server.

(* ===================================================================== *)
(** ** The browser: WebSocketProvider *)
(* ===================================================================== *)

Module Client.
Import JS.

(** The argument of [connect]. *)
Record Params := mkParams {
  p_restaurantId : value;
  p_type : value;
  p_customerPhone : value
}.

Inductive ReadyState := CONNECTING | OPEN | CLOSED.

(** An [EventSource] instance: the request it was opened with and its
    [readyState].  The browser dispatches no event on a closed instance. *)
Record EventSource := mkEventSource {
  es_request : Server.Request;
  readyState : ReadyState
}.

(** The provider's state and refs, and the part of the browser it drives.
    - [subscribersRef] maps an event name to its [Set] of callbacks; a
      callback is named by a number, the set keeps insertion order;
    - [eventSources] are all instances created so far, [eventSourceRef]
      points at one of them or is [null];
    - [timers] are the browser's pending timeouts as (id, delay in ms),
      ids are positive and handed out from [nextTimer];
    - [invoked] is the trace of subscriber calls (callback, argument);
      what a callback does itself is not part of this model. *)
Record State := mkState {
  isConnected : bool;
  connectionId : value;
  eventSourceRef : option nat;
  subscribersRef : gmap string (list nat);
  reconnectTimeoutRef : option nat;
  connectionParamsRef : option Params;
  eventSources : list EventSource;
  timers : list (nat * Z);
  nextTimer : nat;
  invoked : list (nat * value)
}.

Definition initial : State :=
  mkState false VNull None ∅ None None [] [] 1 [].

Definition set_isConnected (b : bool) (c : State) : State :=
  mkState b (connectionId c) (eventSourceRef c) (subscribersRef c)
          (reconnectTimeoutRef c) (connectionParamsRef c) (eventSources c)
          (timers c) (nextTimer c) (invoked c).

Definition set_connectionId (v : value) (c : State) : State :=
  mkState (isConnected c) v (eventSourceRef c) (subscribersRef c)
          (reconnectTimeoutRef c) (connectionParamsRef c) (eventSources c)
          (timers c) (nextTimer c) (invoked c).

Definition set_eventSourceRef (r : option nat) (c : State) : State :=
  mkState (isConnected c) (connectionId c) r (subscribersRef c)
          (reconnectTimeoutRef c) (connectionParamsRef c) (eventSources c)
          (timers c) (nextTimer c) (invoked c).

Definition set_subscribersRef (s : gmap string (list nat)) (c : State) : State :=
  mkState (isConnected c) (connectionId c) (eventSourceRef c) s
          (reconnectTimeoutRef c) (connectionParamsRef c) (eventSources c)
          (timers c) (nextTimer c) (invoked c).

Definition set_reconnectTimeoutRef (r : option nat) (c : State) : State :=
  mkState (isConnected c) (connectionId c) (eventSourceRef c) (subscribersRef c)
          r (connectionParamsRef c) (eventSources c)
          (timers c) (nextTimer c) (invoked c).

Definition set_connectionParamsRef (p : option Params) (c : State) : State :=
  mkState (isConnected c) (connectionId c) (eventSourceRef c) (subscribersRef c)
          (reconnectTimeoutRef c) p (eventSources c)
          (timers c) (nextTimer c) (invoked c).

Definition set_eventSources (l : list EventSource) (c : State) : State :=
  mkState (isConnected c) (connectionId c) (eventSourceRef c) (subscribersRef c)
          (reconnectTimeoutRef c) (connectionParamsRef c) l
          (timers c) (nextTimer c) (invoked c).

Definition set_timers (t : list (nat * Z)) (n : nat) (c : State) : State :=
  mkState (isConnected c) (connectionId c) (eventSourceRef c) (subscribersRef c)
          (reconnectTimeoutRef c) (connectionParamsRef c) (eventSources c)
          t n (invoked c).

Definition set_invoked (l : list (nat * value)) (c : State) : State :=
  mkState (isConnected c) (connectionId c) (eventSourceRef c) (subscribersRef c)
          (reconnectTimeoutRef c) (connectionParamsRef c) (eventSources c)
          (timers c) (nextTimer c) l.

(** *** The browser's primitives *)

(** [es.close()] *)
Definition close (es : nat) (c : State) : State :=
  match eventSources c !! es with
  | Some e =>
      set_eventSources (<[es := mkEventSource (es_request e) CLOSED]> (eventSources c)) c
  | None => c
  end.

(** [setTimeout(callback, delay)]: a fresh positive id. *)
Definition setTimeout (delay : Z) (c : State) : nat * State :=
  (nextTimer c, set_timers (timers c ++ [(nextTimer c, delay)]) (S (nextTimer c)) c).

(** [clearTimeout(id)] *)
Definition clearTimeout (id : nat) (c : State) : State :=
  set_timers (List.filter (fun t => negb (Nat.eqb (fst t) id)) (timers c))
             (nextTimer c) c.

(** Truthiness of a ref that holds a timer id or [null]. *)
Definition timer_truthy (r : option nat) : bool :=
  match r with
  | Some id => truthy (VNum (Z.of_nat id))
  | None => false
  end.

(** *** The provider's functions *)

(** [Set.prototype.add] *)
Definition set_add (x : nat) (s : list nat) : list nat :=
  if existsb (Nat.eqb x) s then s else s ++ [x].

(** [Set.prototype.delete] *)
Definition set_delete (x : nat) (s : list nat) : list nat :=
  List.filter (fun y => negb (Nat.eqb y x)) s.

(** [subscribe(eventName, callback)] *)
Definition subscribe (eventName : string) (callback : nat) (c : State) : State :=
  let subs :=
    match subscribersRef c !! eventName with
    | Some _ => subscribersRef c
    | None => <[eventName := []]> (subscribersRef c)
    end in
  set_subscribersRef (alter (set_add callback) eventName subs) c.

(** The function [subscribe] returns. *)
Definition unsubscribe (eventName : string) (callback : nat) (c : State) : State :=
  match subscribersRef c !! eventName with
  | Some _ =>
      set_subscribersRef (alter (set_delete callback) eventName (subscribersRef c)) c
  | None => c
  end.

(** [notifySubscribers(eventName, data)]: every callback of the set is
    called with [data]; one that throws is caught and the loop goes on.
    Only strings are keys of the map. *)
Definition notifySubscribers (eventName : value) (data : value) (c : State) : State :=
  match eventName with
  | VStr name =>
      match subscribersRef c !! name with
      | Some subscribers =>
          set_invoked (invoked c ++ List.map (fun cb => (cb, data)) subscribers) c
      | None => c
      end
  | _ => c
  end.

(** The URL [connect] builds, as the request the server will see. *)
Definition request_of (params : Params) : Server.Request :=
  Server.mkRequest
    (Some (Server.to_text (p_restaurantId params)))
    (if truthy (p_customerPhone params)
     then Some (Server.to_text (p_customerPhone params)) else None)
    (Some (Server.to_text (p_type params))).

(** [connect(params)] *)
Definition connect (params : Params) (c : State) : State :=
  if negb (truthy (p_restaurantId params)) || negb (truthy (p_type params))
  then c
  else
    let c := set_connectionParamsRef (Some params) c in
    let c := match eventSourceRef c with
             | Some es => close es c
             | None => c
             end in
    let es := length (eventSources c) in
    let c := set_eventSources
               (eventSources c ++ [mkEventSource (request_of params) CONNECTING]) c in
    set_eventSourceRef (Some es) c.

(** [eventSource.onopen] *)
Definition onopen (c : State) : State :=
  let c := set_isConnected true c in
  if timer_truthy (reconnectTimeoutRef c) then
    match reconnectTimeoutRef c with
    | Some id => set_reconnectTimeoutRef None (clearTimeout id c)
    | None => c
    end
  else c.

(** [eventSource.onmessage], given [JSON.parse(event.data)]; [None] is a
    text that does not parse.  Either that or destructuring [null] throws
    into the handler's [catch]. *)
Definition onmessage (parsed : option value) (c : State) : State :=
  match parsed with
  | None => c
  | Some data =>
      match get "event" data with
      | None => c
      | Some eventName =>
          let eventData := field "data" data in
          let timestamp := field "timestamp" data in
          let c := if strict_eq eventName (VStr "connected")
                   then set_connectionId (field "connectionId" data) c
                   else c in
          let c := notifySubscribers eventName eventData c in
          notifySubscribers (VStr "*")
            (VObj [("event", eventName); ("data", eventData);
                   ("timestamp", timestamp)]) c
      end
  end.

(** [eventSource.onerror] of the instance [es] *)
Definition onerror (es : nat) (c : State) : State :=
  let c := set_isConnected false c in
  let c := close es c in
  if negb (timer_truthy (reconnectTimeoutRef c))
     && match connectionParamsRef c with Some _ => true | None => false end
  then
    let '(id, c) := setTimeout 5000 c in
    set_reconnectTimeoutRef (Some id) c
  else c.

(** The callback [onerror] hands to [setTimeout]. *)
Definition reconnect (c : State) : State :=
  let c := set_reconnectTimeoutRef None c in
  match connectionParamsRef c with
  | Some params => connect params c
  | None => c
  end.

(** [disconnect()] *)
Definition disconnect (c : State) : State :=
  let c := match eventSourceRef c with
           | Some es => set_eventSourceRef None (close es c)
           | None => c
           end in
  let c := set_isConnected false c in
  let c := set_connectionId VNull c in
  let c := set_connectionParamsRef None c in
  if timer_truthy (reconnectTimeoutRef c) then
    match reconnectTimeoutRef c with
    | Some id => set_reconnectTimeoutRef None (clearTimeout id c)
    | None => c
    end
  else c.

(** *** The lifecycle *)

(** What can happen to the provider: calls from the application, events
    the browser dispatches on an [EventSource], and a timeout firing. *)
Inductive Event :=
  | CallConnect (params : Params)
  | CallDisconnect
  | CallSubscribe (eventName : string) (callback : nat)
  | CallUnsubscribe (eventName : string) (callback : nat)
  | OpenEvent (es : nat)
  | MessageEvent (es : nat) (parsed : option value)
  | ErrorEvent (es : nat)
  | Timeout (id : nat).

Definition ready (es : nat) (c : State) : option ReadyState :=
  readyState <$> eventSources c !! es.

Definition set_ready (es : nat) (r : ReadyState) (c : State) : State :=
  match eventSources c !! es with
  | Some e => set_eventSources (<[es := mkEventSource (es_request e) r]> (eventSources c)) c
  | None => c
  end.

(** One step.  The browser opens a connecting instance, delivers messages
    on an open one, reports errors on one that is not closed, and fires a
    pending timeout once; anything else does not happen and leaves the
    state as it is. *)
Definition step (c : State) (e : Event) : State :=
  match e with
  | CallConnect params => connect params c
  | CallDisconnect => disconnect c
  | CallSubscribe eventName callback => subscribe eventName callback c
  | CallUnsubscribe eventName callback => unsubscribe eventName callback c
  | OpenEvent es =>
      match ready es c with
      | Some CONNECTING => onopen (set_ready es OPEN c)
      | _ => c
      end
  | MessageEvent es parsed =>
      match ready es c with
      | Some OPEN => onmessage parsed c
      | _ => c
      end
  | ErrorEvent es =>
      match ready es c with
      | Some CONNECTING | Some OPEN => onerror es c
      | _ => c
      end
  | Timeout id =>
      if existsb (fun t => Nat.eqb (fst t) id) (timers c)
      then reconnect (clearTimeout id c)
      else c
  end.

Definition run (events : list Event) (c : State) : State :=
  foldl step c events.

(** The callbacks subscribed to [eventName]. *)
Definition subscribers_of (eventName : string) (c : State) : list nat :=
  match subscribersRef c !! eventName with
  | Some subscribers => subscribers
  | None => []
  end.

(** [connect] accepts these parameters. *)
Definition connectable (params : Params) : Prop :=
  truthy (p_restaurantId params) = true /\ truthy (p_type params) = true.

(** What every state of the lifecycle satisfies: the browser's pending
    timeouts are exactly the one named by [reconnectTimeoutRef], a 5 s
    one, if any; timer ids are positive; while a timeout is pending the
    connection parameters are stored; the stored parameters are ones
    [connect] accepts; and an [EventSource] that is not closed is the
    one [eventSourceRef] points at. *)
Record lifecycle_invariant (c : State) : Prop := mkInvariant {
  inv_timers :
    timers c = match reconnectTimeoutRef c with
               | Some id => [(id, 5000%Z)]
               | None => []
               end;
  inv_ids : 0 < nextTimer c
            /\ forall id, reconnectTimeoutRef c = Some id -> 0 < id < nextTimer c;
  inv_params :
    (forall id, reconnectTimeoutRef c = Some id -> connectionParamsRef c <> None)
    /\ forall params, connectionParamsRef c = Some params -> connectable params;
  inv_sources :
    forall es e, eventSources c !! es = Some e -> readyState e <> CLOSED ->
                 eventSourceRef c = Some es /\ connectionParamsRef c <> None
}.

End Client.

(* ===================================================================== *)
(** ** A restaurant floor used in the examples *)
(* ===================================================================== *)

Module Scenario.
Import JS Server.

(** A validator after [OrderSchema]: the required paths are present and
    the enumerated paths hold one of their values. *)
Definition required_string (v : value) : bool :=
  match v with VStr s => negb (String.eqb s "") | _ => false end.

Definition required_number (v : value) : bool :=
  match v with VNum _ => true | _ => false end.

Definition optional_enum (l : list string) (v : value) : bool :=
  match v with VUndefined | VNull => true | _ => includes l v end.

Definition item_valid (item : value) : bool :=
  required_string (field "name" item)
  && optional_enum ["Veg"; "Non-Veg"; "Vegan"; "Egg"] (field "foodType" item)
  && required_string (field "label" (field "variant" item))
  && required_number (field "price" (field "variant" item))
  && match field "quantity" item with VNum q => (1 <=? q)%Z | _ => false end.

Definition sample_validate (doc : value) : bool :=
  required_string (field "orderId" doc)
  && required_string (field "restoId" doc)
  && required_string (field "restoCode" doc)
  && required_string (field "customerPhone" doc)
  && required_string (field "tableNumber" doc)
  && match field "items" doc with VArr l => forallb item_valid l | _ => false end
  && required_number (field "subtotal" doc)
  && required_number (field "total" doc)
  && optional_enum ["UPI"; "Card"; "Cash"; "Wallet"] (field "paymentMethod" doc)
  && optional_enum validStatuses (field "status" doc).

(** A clock that advances by one millisecond per reading. *)
Definition env0 : Env :=
  mkEnv (fun n => 1700000000000 + Z.of_nat n)%Z
        (fun n => 42 + n)
        (fun n => "65a1b2c3d4e5f6a7b8c9d0e" ++ pretty n)
        sample_validate.

(** A clock that is read twice within the same millisecond. *)
Definition same_ms : Env :=
  mkEnv (fun _ => 1700000000000%Z)
        (fun n => 42 + n)
        (fun n => "65a1b2c3d4e5f6a7b8c9d0e" ++ pretty n)
        sample_validate.

Definition adminR1 : Request := mkRequest (Some "R1") None (Some "admin").
Definition adminR2 : Request := mkRequest (Some "R2") None (Some "admin").
Definition customerR1 (phone : string) : Request :=
  mkRequest (Some "R1") (Some phone) (Some "customer").

(** Restaurant R1 with an admin terminal (stream 0), the customer
    9999999999 (stream 1), the customer 8888888888 (stream 2) and a second
    tab of 9999999999 whose peer has gone (stream 4); restaurant R2 with
    an admin terminal (stream 3). *)
Definition floor : World :=
  peerGone 4
    (snd (GET env0 (customerR1 "9999999999")
    (snd (GET env0 adminR2
    (snd (GET env0 (customerR1 "8888888888")
    (snd (GET env0 (customerR1 "9999999999")
    (snd (GET env0 adminR1 initial)))))))))).

Definition adminR1_id : string := "admin_R1_admin_1700000000000".
Definition first_tab_id : string := "customer_R1_9999999999_1700000000001".
Definition other_customer_id : string := "customer_R1_8888888888_1700000000002".
Definition adminR2_id : string := "admin_R2_admin_1700000000003".
Definition second_tab_id : string := "customer_R1_9999999999_1700000000004".

(** The connection map of the floor. *)
Definition floor_connections : gmap string Conn :=
  <[second_tab_id := mkConn 4 (VStr "R1") (VStr "9999999999") (VStr "customer")]>
  (<[adminR2_id := mkConn 3 (VStr "R2") VNull (VStr "admin")]>
  (<[other_customer_id := mkConn 2 (VStr "R1") (VStr "8888888888") (VStr "customer")]>
  (<[first_tab_id := mkConn 1 (VStr "R1") (VStr "9999999999") (VStr "customer")]>
  (<[adminR1_id := mkConn 0 (VStr "R1") VNull (VStr "admin")]> ∅)))).

(** An order of two dishes at table 7 of restaurant R1; the client also
    sends a [status], which the action does not read. *)
Definition sample_orderData : value :=
  VObj [("restoId", VStr "R1");
        ("restoCode", VStr "R1CODE");
        ("restoName", VStr "Foodie Pie");
        ("customerPhone", VStr "9999999999");
        ("customerName", VStr "Asha");
        ("tableNumber", VStr "7");
        ("items",
         VArr [VObj [("_id", VStr "650000000000000000000001");
                     ("name", VStr "Paneer Tikka");
                     ("foodType", VStr "Veg");
                     ("variant", VObj [("label", VStr "Full"); ("price", VNum 240)]);
                     ("quantity", VNum 2)];
               VObj [("foodId", VStr "650000000000000000000002");
                     ("name", VStr "Butter Naan");
                     ("foodType", VStr "Veg");
                     ("imageUrl", VStr "/img/naan.jpg");
                     ("variant", VObj [("label", VStr "Single"); ("price", VNum 40)]);
                     ("quantity", VNum 3)]]);
        ("subtotal", VNum 600);
        ("tax", VNum 30);
        ("total", VNum 630);
        ("paymentMethod", VStr "UPI");
        ("status", VStr "Served")].

(** The id [generateOrderId] gives at the first reading of [env0]. *)
Definition sample_orderId : string := "010000042".

(** The document of that order once it has been served. *)
Definition served_order : value :=
  VObj [("_id", VObjectId "65a1b2c3d4e5f6a7b8c9d0e0");
        ("orderId", VStr sample_orderId);
        ("restoId", VStr "R1");
        ("restoCode", VStr "R1CODE");
        ("restoName", VStr "Foodie Pie");
        ("customerPhone", VStr "9999999999");
        ("customerName", VStr "Asha");
        ("tableNumber", VStr "7");
        ("items",
         VArr [VObj [("foodId", VStr "650000000000000000000001");
                     ("name", VStr "Paneer Tikka");
                     ("foodType", VStr "Veg");
                     ("imageUrl", VStr "");
                     ("variant", VObj [("label", VStr "Full"); ("price", VNum 240)]);
                     ("quantity", VNum 2)];
               VObj [("foodId", VStr "650000000000000000000002");
                     ("name", VStr "Butter Naan");
                     ("foodType", VStr "Veg");
                     ("imageUrl", VStr "/img/naan.jpg");
                     ("variant", VObj [("label", VStr "Single"); ("price", VNum 40)]);
                     ("quantity", VNum 3)]]);
        ("subtotal", VNum 600);
        ("tax", VNum 30);
        ("discount", VNum 0);
        ("deliveryFee", VNum 0);
        ("total", VNum 630);
        ("paymentMethod", VStr "UPI");
        ("status", VStr "Served");
        ("paymentStatus", VStr "Pending");
        ("createdAt", VDate 1700000000001);
        ("updatedAt", VDate 1700000900000);
        ("__v", VNum 0)].

(** A process whose route module is loaded, with the profile of the
    customer 9999999999 at restaurant R1 and no order yet. *)
Definition kitchen : World :=
  set_profiles
    [VObj [("_id", VObjectId "65a1b2c3d4e5f6a7b8c9d0aa");
           ("phone", VStr "9999999999");
           ("restoId", VStr "R1");
           ("tableNo", VStr "7");
           ("orders", VArr []);
           ("createdAt", VDate 1699999000000);
           ("updatedAt", VDate 1699999000000)]]
    (route_module initial).

(** The floor with that order in the collection. *)
Definition served_world : World := set_orders [served_order] floor.

End Scenario.

(* ===================================================================== *)
(** ** Facts about the server *)
(* ===================================================================== *)

Module ServerFacts.
Import JS Server.

#[local] Arguments pruned : simpl never.
#[local] Arguments delivered : simpl never.
#[local] Arguments selected_on : simpl never.

(** *** Streams *)

Lemma enqueue_accepts h chunk strs :
  accepts strs h = true ->
  exists s, strs !! h = Some s /\ readable s = true
            /\ enqueue h chunk strs
               = Some (<[h := mkStream true (chunks s ++ [chunk])]> strs).
Proof.
  unfold accepts, enqueue. destruct (strs !! h) as [s|] eqn:E; [|done].
  intros Hr. exists s. rewrite Hr. done.
Qed.

Lemma enqueue_rejects h chunk strs :
  accepts strs h = false -> enqueue h chunk strs = None.
Proof.
  unfold accepts, enqueue. destruct (strs !! h) as [s|]; [|done].
  by intros ->.
Qed.

Lemma accepts_insert strs h s x h' :
  strs !! h = Some s -> readable s = true ->
  accepts (<[h := mkStream true x]> strs) h' = accepts strs h'.
Proof.
  intros Hs Hr. unfold accepts.
  destruct (decide (h = h')) as [<-|Hne].
  - rewrite list_lookup_insert_eq; [by rewrite Hs|].
    by eapply lookup_lt_Some.
  - by rewrite list_lookup_insert_ne.
Qed.

Lemma extended_0 chunk s : extended chunk 0 s = s.
Proof.
  unfold extended. destruct s as [[] c]; simpl; [|done].
  by rewrite app_nil_r.
Qed.

Lemma extended_S chunk n s :
  readable s = true ->
  extended chunk n (mkStream true (chunks s ++ [chunk])) = extended chunk (S n) s.
Proof.
  intros Hr. unfold extended. rewrite Hr. simpl. by rewrite <- app_assoc.
Qed.

(** *** The loop of a broadcast *)

Lemma delivered_cons cond strs e l :
  delivered cond strs (e :: l)
  = if cond e.2 && accepts strs (controller e.2)
    then e :: delivered cond strs l else delivered cond strs l.
Proof. reflexivity. Qed.

Lemma selected_on_cons cond h e l :
  selected_on cond h (e :: l)
  = if cond e.2 && Nat.eqb (controller e.2) h
    then e :: selected_on cond h l else selected_on cond h l.
Proof. reflexivity. Qed.

Lemma pruned_cons cond strs e l m :
  pruned cond strs (e :: l) m
  = if cond e.2 && negb (accepts strs (controller e.2))
    then delete e.1 (pruned cond strs l m) else pruned cond strs l m.
Proof. reflexivity. Qed.

Lemma pruned_delete cond strs l k m :
  pruned cond strs l (delete k m) = delete k (pruned cond strs l m).
Proof.
  induction l as [|e l IH]; [done|].
  rewrite !pruned_cons, IH.
  destruct (cond e.2 && negb (accepts strs (controller e.2))); [|done].
  apply delete_delete.
Qed.

Lemma forEach_cons cond msg e l st :
  forEach cond msg (e :: l) st
  = forEach cond msg l (if cond e.2 then push msg st e.1 e.2 else st).
Proof. reflexivity. Qed.

Lemma delivered_ext cond strs strs' l :
  (forall h, accepts strs' h = accepts strs h) ->
  delivered cond strs' l = delivered cond strs l.
Proof.
  intros H. unfold delivered. apply List.filter_ext. intros e. by rewrite H.
Qed.

Lemma pruned_ext cond strs strs' l m :
  (forall h, accepts strs' h = accepts strs h) ->
  pruned cond strs' l m = pruned cond strs l m.
Proof.
  intros H. induction l as [|e l IH]; [done|]. by rewrite !pruned_cons, H, IH.
Qed.

(** What one [forEach] does: it counts the deliveries, removes the
    entries whose push failed, appends the message to the stream of every
    selected entry, and touches nothing else. *)
Lemma forEach_spec cond msg l : forall w n w' n',
  forEach cond msg l (w, n) = (w', n') ->
  n' = n + length (delivered cond (streams w) l)
  /\ w' = set_streams (streams w') (set_sseConnections (sseConnections w') w)
  /\ sseConnections w' = pruned cond (streams w) l <$> sseConnections w
  /\ (forall h, accepts (streams w') h = accepts (streams w) h)
  /\ length (streams w') = length (streams w)
  /\ (forall h, streams w' !! h
               = extended msg (length (selected_on cond h l)) <$> streams w !! h).
Proof.
  induction l as [|[k c] l IH]; intros w n w' n' H.
  - injection H as <- <-.
    split; [unfold delivered; simpl; lia|].
    split; [by destruct w|].
    split; [by destruct (sseConnections w)|].
    do 2 (split; [done|]).
    intros h. simpl. destruct (streams w !! h) as [s|]; simpl; [|done].
    by rewrite extended_0.
  - rewrite forEach_cons in H. simpl in H.
    rewrite delivered_cons. simpl.
    destruct (cond c) eqn:Hc; simpl.
    2:{ apply IH in H. destruct H as (IH1 & IH2 & IH3 & IH4 & IH5 & IH6).
        do 2 (split; [done|]).
        split.
        { rewrite IH3. destruct (sseConnections w) as [m|]; simpl; [|done].
          by rewrite pruned_cons; simpl; rewrite Hc. }
        do 2 (split; [done|]).
        intros h. rewrite selected_on_cons. simpl. by rewrite Hc. }
    unfold push in H.
    destruct (accepts (streams w) (controller c)) eqn:Ha; simpl.
    + destruct (enqueue_accepts _ msg _ Ha) as (s & Hs & Hr & He).
      rewrite He in H. apply IH in H. simpl in H.
      destruct H as (IH1 & IH2 & IH3 & IH4 & IH5 & IH6).
      assert (Hacc : forall h, accepts (<[controller c := mkStream true (chunks s ++ [msg])]>
                                           (streams w)) h = accepts (streams w) h)
        by (intros h; by eapply accepts_insert).
      split; [|split; [|split; [|split; [|split]]]].
      * rewrite IH1, (delivered_ext _ _ _ _ Hacc). simpl. lia.
      * rewrite IH2 at 1. done.
      * rewrite IH3. destruct (sseConnections w) as [m|]; simpl; [|done].
        rewrite pruned_cons. simpl. rewrite Hc, Ha. simpl.
        f_equal. by apply pruned_ext.
      * intros h. by rewrite IH4, Hacc.
      * rewrite IH5. apply length_insert.
      * intros h. rewrite IH6, selected_on_cons. simpl. rewrite Hc. simpl.
        destruct (decide (controller c = h)) as [<-|Hne].
        -- rewrite Nat.eqb_refl. simpl.
           rewrite list_lookup_insert_eq by (by eapply lookup_lt_Some).
           rewrite Hs. simpl. f_equal. by apply extended_S.
        -- rewrite list_lookup_insert_ne by done.
           apply Nat.eqb_neq in Hne. by rewrite Hne.
    + rewrite (enqueue_rejects _ msg _ Ha) in H. apply IH in H. simpl in H.
      destruct H as (IH1 & IH2 & IH3 & IH4 & IH5 & IH6).
      split; [|split; [|split; [|split; [|split]]]].
      * rewrite IH1. done.
      * rewrite IH2 at 1. done.
      * rewrite IH3. destruct (sseConnections w) as [m|]; simpl; [|done].
        rewrite pruned_cons. simpl. rewrite Hc, Ha. simpl.
        f_equal. apply pruned_delete.
      * done.
      * done.
      * intros h. rewrite IH6, selected_on_cons. simpl. rewrite Hc. simpl.
        destruct (Nat.eqb (controller c) h) eqn:E; [|done].
        apply Nat.eqb_eq in E. subst h. simpl.
        unfold accepts in Ha.
        destruct (streams w !! controller c) as [s|]; simpl; [|done].
        unfold extended. by rewrite Ha.
Qed.

(** *** The entries of the map *)

Lemma pruned_lookup cond strs l m k :
  pruned cond strs l m !! k
  = if existsb (fun e => String.eqb e.1 k && cond e.2
                         && negb (accepts strs (controller e.2))) l
    then None else m !! k.
Proof.
  induction l as [|e l IH]; [done|].
  rewrite pruned_cons. simpl.
  destruct (String.eqb_spec e.1 k) as [->|Hne]; simpl.
  - destruct (cond e.2 && negb (accepts strs (controller e.2))); simpl.
    + apply lookup_delete_eq.
    + apply IH.
  - destruct (cond e.2 && negb (accepts strs (controller e.2))); simpl.
    + rewrite lookup_delete_ne by done. apply IH.
    + apply IH.
Qed.

Lemma pruned_entry cond strs (m : gmap string Conn) k c :
  m !! k = Some c ->
  pruned cond strs (map_to_list m) m !! k
  = if cond c && negb (accepts strs (controller c)) then None else Some c.
Proof.
  intros Hk. rewrite pruned_lookup.
  destruct (existsb _ _) eqn:E.
  - apply existsb_exists in E as ([k' c'] & Hin & Hp). simpl in Hp.
    apply list_elem_of_In, elem_of_map_to_list in Hin.
    apply andb_true_iff in Hp as [Hp Hf]. apply andb_true_iff in Hp as [Hp Hc].
    apply String.eqb_eq in Hp. subst k'.
    assert (c' = c) as -> by congruence.
    by rewrite Hc, Hf.
  - destruct (cond c && negb (accepts strs (controller c))) eqn:F; [|done].
    exfalso. apply not_true_iff_false in E. apply E.
    apply existsb_exists. exists (k, c). split.
    + by apply list_elem_of_In, elem_of_map_to_list.
    + simpl. rewrite String.eqb_refl. simpl. exact F.
Qed.

Lemma pruned_absent cond strs l (m : gmap string Conn) k :
  m !! k = None -> pruned cond strs l m !! k = None.
Proof.
  intros Hk. rewrite pruned_lookup. by destruct (existsb _ _).
Qed.

Lemma length_le_1 {A} (l : list A) (a : A) :
  NoDup l -> (forall x, In x l -> x = a) -> length l <= 1.
Proof.
  intros Hnd Hall. destruct l as [|x [|y l]]; simpl; try lia.
  exfalso. apply NoDup_cons in Hnd as [Hx _]. apply Hx.
  rewrite (Hall x) by (by left). rewrite (Hall y) by (right; by left).
  by left.
Qed.

(** With a stream of its own per connection, at most one selected entry
    writes to a given stream. *)
Lemma selected_on_own cond (m : gmap string Conn) k c :
  (forall k1 k2 c1 c2, m !! k1 = Some c1 -> m !! k2 = Some c2 ->
     controller c1 = controller c2 -> k1 = k2) ->
  m !! k = Some c ->
  length (selected_on cond (controller c) (map_to_list m))
  = if cond c then 1 else 0.
Proof.
  intros Hinj Hk.
  assert (Hall : forall x, In x (selected_on cond (controller c) (map_to_list m))
                           -> x = (k, c) /\ cond c = true).
  { intros [k' c'] Hin. unfold selected_on in Hin.
    apply filter_In in Hin as [Hin Hp]. simpl in Hp.
    apply andb_true_iff in Hp as [Hc Hh]. apply Nat.eqb_eq in Hh.
    apply list_elem_of_In, elem_of_map_to_list in Hin.
    assert (k' = k) as -> by (by eapply Hinj).
    assert (c' = c) as -> by congruence. done. }
  assert (Hnd : NoDup (selected_on cond (controller c) (map_to_list m))).
  { unfold selected_on.
    apply NoDup_ListNoDup, List.NoDup_filter, NoDup_ListNoDup, NoDup_map_to_list. }
  destruct (cond c) eqn:Hc.
  - assert (In (k, c) (selected_on cond (controller c) (map_to_list m))).
    { unfold selected_on. apply filter_In. split.
      - by apply list_elem_of_In, elem_of_map_to_list.
      - simpl. by rewrite Hc, Nat.eqb_refl. }
    pose proof (length_le_1 _ (k, c) Hnd (fun x Hx => proj1 (Hall x Hx))).
    destruct (selected_on cond (controller c) (map_to_list m)); simpl in *; [done|lia].
  - destruct (selected_on cond (controller c) (map_to_list m)) as [|x l]; [done|].
    destruct (Hall x) as [_ ?]; [by left|congruence].
Qed.

(** A stream no connection of the map refers to is written by nobody. *)
Lemma selected_on_unreferenced cond (m : gmap string Conn) h :
  (forall k c, m !! k = Some c -> controller c <> h) ->
  selected_on cond h (map_to_list m) = [].
Proof.
  intros Hno. destruct (selected_on cond h (map_to_list m)) as [|[k c] l] eqn:E; [done|].
  assert (Hin : In (k, c) (selected_on cond h (map_to_list m))) by (rewrite E; by left).
  unfold selected_on in Hin. apply filter_In in Hin as [Hin Hp]. simpl in Hp.
  apply andb_true_iff in Hp as [_ Hh]. apply Nat.eqb_eq in Hh.
  apply list_elem_of_In, elem_of_map_to_list in Hin.
  by destruct (Hno _ _ Hin).
Qed.

(** *** One broadcast *)

Section Broadcast.
Context (env : Env).

Lemma envelope_throws event data t :
  stringify_throws (envelope event data t) = stringify_throws data.
Proof. unfold envelope. simpl. by rewrite !orb_false_r. Qed.

(** A broadcast whose envelope cannot be serialized: the clock has been
    read and nothing else has happened. *)
Lemma broadcast_throws cond event data w m :
  sseConnections w = Some m -> stringify_throws data = true ->
  broadcast env cond event data w
  = (BroadcastError "Do not know how to serialize a BigInt",
     set_ticks (S (ticks w)) w).
Proof.
  intros Hm Ht. unfold broadcast, now. rewrite Hm. cbv beta iota zeta.
  by rewrite envelope_throws, Ht.
Qed.

Lemma broadcast_spec cond event data w m r w' :
  sseConnections w = Some m -> stringify_throws data = false ->
  broadcast env cond event data w = (r, w') ->
  let frame := sse_frame (envelope event data (Date_now env (ticks w))) in
  r = BroadcastOk (length (delivered cond (streams w) (map_to_list m)))
  /\ sseConnections w' = Some (pruned cond (streams w) (map_to_list m) m)
  /\ (forall h, streams w' !! h
               = extended frame (length (selected_on cond h (map_to_list m)))
                   <$> streams w !! h)
  /\ length (streams w') = length (streams w)
  /\ w' = set_streams (streams w')
            (set_sseConnections (sseConnections w') (set_ticks (S (ticks w)) w)).
Proof.
  intros Hm Ht H. unfold broadcast, now in H. rewrite Hm in H.
  cbv beta iota zeta in H. rewrite envelope_throws, Ht in H.
  destruct (forEach _ _ _ _) as [w1 n1] eqn:E.
  injection H as <- <-.
  apply forEach_spec in E. simpl in E.
  destruct E as (E1 & E2 & E3 & E4 & E5 & E6).
  rewrite Hm in E3. simpl in E3.
  repeat split; try done. by rewrite E1.
Qed.

Lemma broadcast_absent cond event data w :
  sseConnections w = None ->
  broadcast env cond event data w
  = (BroadcastError "No connections available", w).
Proof. intros H. unfold broadcast. by rewrite H. Qed.

End Broadcast.

(** *** Every connection keeps a stream of its own *)

Lemma own_streams_shrink w w' :
  (forall m', sseConnections w' = Some m' ->
     exists m, sseConnections w = Some m /\ m' ⊆ m) ->
  length (streams w) <= length (streams w') ->
  own_streams w -> own_streams w'.
Proof.
  intros Hsub Hlen Hw m' Hm'.
  destruct (Hsub _ Hm') as (m & Hm & Hincl).
  destruct (Hw _ Hm) as [Hb Hi]. split.
  - intros k c Hk. pose proof (Hb k c (lookup_weaken _ _ _ _ Hk Hincl)). lia.
  - intros k1 k2 c1 c2 H1 H2. eapply Hi; by eapply lookup_weaken.
Qed.

Lemma pruned_subseteq cond strs l (m : gmap string Conn) :
  pruned cond strs l m ⊆ m.
Proof.
  apply map_subseteq_spec. intros k c. rewrite pruned_lookup.
  by destruct (existsb _ _).
Qed.

Lemma own_streams_delete_connection k w :
  own_streams w -> own_streams (delete_connection k w).
Proof.
  apply own_streams_shrink; [|done].
  intros m'. unfold delete_connection. simpl.
  destruct (sseConnections w) as [m|]; simpl; [|done].
  intros [= <-]. exists m. split; [done|]. apply delete_subseteq.
Qed.

Lemma own_streams_set_streams strs w :
  length strs = length (streams w) ->
  own_streams w -> own_streams (set_streams strs w).
Proof.
  intros Hlen. apply own_streams_shrink; simpl; [|lia].
  intros m' ->. by exists m'.
Qed.

Lemma enqueue_length h chunk strs strs' :
  enqueue h chunk strs = Some strs' -> length strs' = length strs.
Proof.
  unfold enqueue. destruct (strs !! h) as [s|]; [|done].
  destruct (readable s); [|done]. intros [= <-]. apply length_insert.
Qed.

Section Invariant.
Context (env : Env).

Lemma own_streams_initial : own_streams initial.
Proof. intros m. done. Qed.

Lemma publish_restaurant r event data w :
  broadcastToRestaurantAction env r event data w
  = publish env (ToRestaurant r) event data w.
Proof. reflexivity. Qed.

Lemma publish_customer r p event data w :
  broadcastToCustomerAction env r p event data w
  = publish env (ToCustomer r p) event data w.
Proof. reflexivity. Qed.

Lemma publish_admin r event data w :
  broadcastToAdminAction env r event data w
  = publish env (ToAdmin r) event data w.
Proof. reflexivity. Qed.

Lemma publish_broadcast sel event data w :
  publish env sel event data w
  = broadcast env (selects sel) event data (record (mkPublish sel event data) w).
Proof. by destruct sel. Qed.

Lemma own_streams_broadcast cond event data w :
  own_streams w -> own_streams (snd (broadcast env cond event data w)).
Proof.
  intros Hw. destruct (sseConnections w) as [m|] eqn:Hm.
  - destruct (stringify_throws data) eqn:Ht.
    + rewrite (broadcast_throws env _ _ _ _ m) by done. simpl. revert Hw.
      apply own_streams_shrink; simpl; [|lia]. intros m' ->. by exists m'.
    + destruct (broadcast env cond event data w) as [r w'] eqn:E.
      destruct (broadcast_spec env _ _ _ _ _ _ _ Hm Ht E) as (_ & H2 & _ & H4 & _).
      simpl. revert Hw. apply own_streams_shrink; [|lia].
      intros m'. rewrite H2. intros [= <-]. exists m. split; [done|].
      apply pruned_subseteq.
  - by rewrite broadcast_absent.
Qed.

Lemma own_streams_record p w : own_streams w -> own_streams (record p w).
Proof. apply own_streams_shrink; simpl; [|lia]. intros m' ->. by exists m'. Qed.

Lemma own_streams_publish sel event data w :
  own_streams w -> own_streams (snd (publish env sel event data w)).
Proof.
  intros Hw. rewrite publish_broadcast.
  by apply own_streams_broadcast, own_streams_record.
Qed.

Lemma own_streams_GET request w :
  own_streams w -> own_streams (snd (GET env request w)).
Proof.
  intros Hw. unfold GET.
  assert (Hr : own_streams (route_module w)).
  { unfold route_module. destruct (sseConnections w) eqn:E; [done|].
    intros m [= <-]. split; intros *; by rewrite lookup_empty. }
  destruct (negb (truthy (searchParam (q_restaurantId request)))); [done|].
  simpl.
  set (w0 := route_module w) in *.
  set (id := make_connectionId _ _ _ _).
  set (frame := sse_frame _).
  set (conn := mkConn _ _ _ _).
  assert (Hlook : (streams w0 ++ [mkStream true []])%list !! length (streams w0)
                  = Some (mkStream true [])).
  { rewrite lookup_app_r by lia. by rewrite Nat.sub_diag. }
  unfold enqueue. rewrite Hlook. simpl.
  intros m' Hm'. simpl in Hm'.
  destruct (sseConnections w0) as [m|] eqn:Hm; simpl in Hm'; [|done].
  injection Hm' as <-. destruct (Hr _ Hm) as [Hb Hi].
  simpl. rewrite length_insert, length_app. simpl. split.
  - intros k c. rewrite lookup_insert. case_decide as Hk.
    + intros [= <-]. simpl. lia.
    + intros Hc. pose proof (Hb _ _ Hc). lia.
  - intros k1 k2 c1 c2. rewrite !lookup_insert.
    repeat case_decide; subst; try done.
    + intros [= <-] H2 Heq. pose proof (Hb _ _ H2). simpl in Heq. lia.
    + intros H1 [= <-] Heq. pose proof (Hb _ _ H1). simpl in Heq. lia.
    + apply Hi.
Qed.

Lemma own_streams_clearInterval h w :
  own_streams w -> own_streams (clearInterval h w).
Proof. apply own_streams_shrink; simpl; [|lia]. intros m' ->. by exists m'. Qed.

Lemma own_streams_pingTick connectionId h w :
  own_streams w -> own_streams (pingTick connectionId h w).
Proof.
  intros Hw. unfold pingTick. destruct (negb _); [done|].
  destruct (enqueue _ _ _) as [strs|] eqn:E.
  - apply own_streams_set_streams; [|done]. by eapply enqueue_length.
  - by apply own_streams_delete_connection, own_streams_clearInterval.
Qed.

Lemma own_streams_peerGone h w :
  own_streams w -> own_streams (peerGone h w).
Proof.
  intros Hw. unfold peerGone. destruct (streams w !! h); [|done].
  apply own_streams_set_streams; [|done]. apply length_insert.
Qed.

Lemma own_streams_onAbort connectionId h w :
  own_streams w -> own_streams (onAbort connectionId h w).
Proof.
  intros Hw. by apply own_streams_delete_connection, own_streams_clearInterval.
Qed.

End Invariant.

(** *** Addressing *)

Section Addressing.
Context (env : Env).

(** A broadcast whose data cannot be serialized changes no stream and
    no entry of the map. *)
Lemma publish_throws sel event data w m :
  sseConnections w = Some m -> stringify_throws data = true ->
  fst (publish env sel event data w)
  = BroadcastError "Do not know how to serialize a BigInt"
  /\ sseConnections (snd (publish env sel event data w)) = Some m
  /\ streams (snd (publish env sel event data w)) = streams w.
Proof.
  intros Hm Ht. rewrite publish_broadcast.
  by rewrite (broadcast_throws env _ _ _ _ m).
Qed.

Lemma publish_stream sel event data w m k c s :
  sseConnections w = Some m -> own_streams w ->
  m !! k = Some c -> streams w !! controller c = Some s ->
  streams (snd (publish env sel event data w)) !! controller c
  = Some (if selects sel c && negb (stringify_throws data)
          then extended (sse_frame (envelope event data (Date_now env (ticks w)))) 1 s
          else s).
Proof.
  intros Hm Hown Hk Hs.
  destruct (stringify_throws data) eqn:Ht.
  { destruct (publish_throws sel event data w m Hm Ht) as (_ & _ & ->).
    by rewrite Hs, andb_false_r. }
  rewrite publish_broadcast.
  destruct (broadcast _ _ _ _ _) as [r w'] eqn:E.
  apply (broadcast_spec env _ _ _ _ m) in E; [|done|done].
  destruct E as (_ & _ & E & _). simpl. simpl in E. rewrite E, Hs. simpl.
  destruct (Hown _ Hm) as [_ Hinj].
  rewrite (selected_on_own _ _ _ _ Hinj Hk).
  destruct (selects sel c); [done|]. by rewrite extended_0.
Qed.


End Addressing.

Lemma own_streams_floor : own_streams Scenario.floor.
Proof.
  unfold Scenario.floor.
  apply own_streams_peerGone. do 5 apply own_streams_GET.
  apply own_streams_initial.
Qed.

Lemma floor_connections_eq :
  sseConnections Scenario.floor = Some Scenario.floor_connections.
Proof. reflexivity. Qed.


Lemma floor_second_tab :
  Scenario.floor_connections !! Scenario.second_tab_id
  = Some (mkConn 4 (VStr "R1") (VStr "9999999999") (VStr "customer")).
Proof. apply lookup_insert_eq. Qed.


(** *** Failed pushes *)

Section Isolation.
Context (env : Env).

(** C3: when the push to a selected connection [k] fails, [k] is gone
    from the map when the action returns; every other selected connection
    whose stream is readable is still in the map and has the frame at the
    end of its stream; and [broadcastCount] is the number of pushes that
    succeeded.  [publish] ranges over the three broadcast actions.  This
    is so for every data that [JSON.stringify] serializes; for data it
    refuses no push is attempted: the action returns the error, and the
    map and the streams are as they were. *)
Theorem failed_push_is_isolated (sel : Selector) (event : string) (data : value)
    (w : World) (m : gmap string Conn) (k : string) (c : Conn) :
  sseConnections w = Some m -> own_streams w ->
  m !! k = Some c -> selects sel c = true ->
  accepts (streams w) (controller c) = false ->
  let frame := sse_frame (envelope event data (Date_now env (ticks w))) in
  let r := publish env sel event data w in
  if stringify_throws data then
    fst r = BroadcastError "Do not know how to serialize a BigInt"
    /\ sseConnections (snd r) = Some m
    /\ streams (snd r) = streams w
  else
    (exists m', sseConnections (snd r) = Some m'
       /\ m' !! k = None
       /\ forall k' c' s',
            m !! k' = Some c' -> selects sel c' = true ->
            streams w !! controller c' = Some s' -> readable s' = true ->
            m' !! k' = Some c'
            /\ streams (snd r) !! controller c'
               = Some (mkStream true (chunks s' ++ [frame])))
    /\ fst r = BroadcastOk (length (delivered (selects sel) (streams w)
                                      (map_to_list m))).
Proof.
  intros Hm Hown Hk Hsel Hacc frame r.
  destruct (stringify_throws data) eqn:Ht.
  { by apply publish_throws. }
  pose proof (fun k' c' s' => publish_stream env sel event data w m k' c' s' Hm Hown)
    as Hstream.
  rewrite Ht in Hstream.
  subst r. rewrite publish_broadcast in *.
  destruct (broadcast _ _ _ _ _) as [r w'] eqn:E.
  apply (broadcast_spec env _ _ _ _ m) in E; [|done|done].
  destruct E as (E1 & E2 & _). simpl in *. split; [|done].
  exists (pruned (selects sel) (streams w) (map_to_list m) m).
  split; [done|]. split.
  - rewrite (pruned_entry _ _ _ _ _ Hk), Hsel, Hacc. done.
  - intros k' c' s' Hk' Hsel' Hs' Hr'. split.
    + rewrite (pruned_entry _ _ _ _ _ Hk'). unfold accepts. rewrite Hs', Hr'.
      by rewrite andb_false_r.
    + rewrite (Hstream _ _ _ Hk' Hs'), Hsel'. unfold extended. by rewrite Hr'.
Qed.

End Isolation.

(** On the floor, the second tab of 9999999999 has gone: a customer
    broadcast removes it and still reaches the first tab. *)
Lemma failed_push_is_isolated_witness :
  let sel := ToCustomer (VStr "R1") (VStr "9999999999") in
  let frame := sse_frame (envelope ORDER_STATUS_CHANGED VNull
                            (Date_now Scenario.env0 (ticks Scenario.floor))) in
  let r := publish Scenario.env0 sel ORDER_STATUS_CHANGED VNull Scenario.floor in
  (exists m', sseConnections (snd r) = Some m'
     /\ m' !! Scenario.second_tab_id = None
     /\ forall k' c' s',
          Scenario.floor_connections !! k' = Some c' -> selects sel c' = true ->
          streams Scenario.floor !! controller c' = Some s' -> readable s' = true ->
          m' !! k' = Some c'
          /\ streams (snd r) !! controller c'
             = Some (mkStream true (chunks s' ++ [frame])))
  /\ fst r = BroadcastOk (length (delivered (selects sel) (streams Scenario.floor)
                                    (map_to_list Scenario.floor_connections))).
Proof.
  apply (failed_push_is_isolated Scenario.env0
           (ToCustomer (VStr "R1") (VStr "9999999999")) ORDER_STATUS_CHANGED VNull
           Scenario.floor Scenario.floor_connections
           Scenario.second_tab_id
           (mkConn 4 (VStr "R1") (VStr "9999999999") (VStr "customer"))).
  - exact floor_connections_eq.
  - exact own_streams_floor.
  - exact floor_second_tab.
  - reflexivity.
  - reflexivity.
Defined.

(** *** Broadcasts that select nothing, and broadcasts without a map *)

Lemma nothing_selected cond strs (l : list (string * Conn)) (m : gmap string Conn) :
  (forall e, In e l -> cond e.2 = false) ->
  delivered cond strs l = []
  /\ pruned cond strs l m = m
  /\ forall h, selected_on cond h l = [].
Proof.
  induction l as [|e l IH]; intros Hno; [done|].
  destruct IH as (IH1 & IH2 & IH3); [intros x Hx; apply Hno; by right|].
  assert (He : cond e.2 = false) by (apply Hno; by left).
  rewrite delivered_cons, pruned_cons, He. simpl.
  repeat split; try done.
  intros h. rewrite selected_on_cons, He. simpl. apply IH3.
Qed.

Section Errors.
Context (env : Env).

Lemma publish_nothing_selected sel event data w m :
  sseConnections w = Some m -> stringify_throws data = false ->
  (forall k c, m !! k = Some c -> selects sel c = false) ->
  fst (publish env sel event data w) = BroadcastOk 0
  /\ sseConnections (snd (publish env sel event data w)) = Some m
  /\ streams (snd (publish env sel event data w)) = streams w.
Proof.
  intros Hm Ht Hno. rewrite publish_broadcast.
  destruct (broadcast _ _ _ _ _) as [r w'] eqn:E.
  apply (broadcast_spec env _ _ _ _ m) in E; [|done|done].
  destruct E as (E1 & E2 & E3 & _). simpl in *.
  destruct (nothing_selected (selects sel) (streams w) (map_to_list m) m)
    as (N1 & N2 & N3).
  { intros [k c] Hin. apply list_elem_of_In, elem_of_map_to_list in Hin.
    by eapply Hno. }
  rewrite E1, E2, N1, N2. repeat split; try done.
  apply list_eq. intros h. rewrite E3, N3. simpl.
  destruct (streams w !! h); simpl; [|done]. by rewrite extended_0.
Qed.

Lemma publish_absent sel event data w :
  sseConnections w = None ->
  publish env sel event data w
  = (BroadcastError "No connections available",
     record (mkPublish sel event data) w).
Proof. intros Hm. rewrite publish_broadcast. by rewrite broadcast_absent. Qed.

Lemma publish_error_iff sel event data w :
  (exists msg, fst (publish env sel event data w) = BroadcastError msg)
  <-> sseConnections w = None \/ stringify_throws data = true.
Proof.
  split.
  - intros [msg H]. destruct (sseConnections w) as [m|] eqn:Hm; [|by left].
    destruct (stringify_throws data) eqn:Ht; [by right|].
    rewrite publish_broadcast in H.
    destruct (broadcast _ _ _ _ _) as [r w'] eqn:E.
    apply (broadcast_spec env _ _ _ _ m) in E; [|done|done].
    destruct E as (E1 & _). simpl in H. congruence.
  - destruct (sseConnections w) as [m|] eqn:Hm.
    + intros [|Ht]; [done|].
      destruct (publish_throws env sel event data w m Hm Ht) as (-> & _).
      by eexists.
    + intros _. rewrite publish_absent by done. by eexists.
Qed.

(** C5, as the code has it: a broadcast action never looks at its
    selector before it walks the map.  It reports an error in exactly two
    cases: the global connection map does not exist, or [JSON.stringify]
    throws on the data (a BigInt in it).  In the first case the action
    returns at once, the clock is not read; in the second the outer
    [catch] returns the error's message, and neither the map nor a stream
    has changed.  In every other case it succeeds, whatever the selector
    is (a missing [restaurantId] included): a broadcast that matches no
    connection returns a count of zero and leaves the map and the streams
    as they were. *)
Theorem broadcast_error_cases (sel : Selector) (event : string)
    (data : value) (w : World) :
  let r := publish env sel event data w in
  ((exists msg, fst r = BroadcastError msg)
   <-> sseConnections w = None \/ stringify_throws data = true)
  /\ (sseConnections w = None ->
        fst r = BroadcastError "No connections available"
        /\ sseConnections (snd r) = None
        /\ streams (snd r) = streams w
        /\ ticks (snd r) = ticks w)
  /\ (forall m, sseConnections w = Some m -> stringify_throws data = true ->
        fst r = BroadcastError "Do not know how to serialize a BigInt"
        /\ sseConnections (snd r) = Some m
        /\ streams (snd r) = streams w)
  /\ (forall m, sseConnections w = Some m -> stringify_throws data = false ->
        (forall k c, m !! k = Some c -> selects sel c = false) ->
        fst r = BroadcastOk 0
        /\ sseConnections (snd r) = Some m
        /\ streams (snd r) = streams w).
Proof.
  intros r. subst r. split; [|split; [|split]].
  - apply publish_error_iff.
  - intros Hm. rewrite publish_absent by done. by rewrite <- Hm.
  - apply publish_throws.
  - apply publish_nothing_selected.
Qed.

End Errors.

(** On the floor, a broadcast whose data holds a BigInt reaches nobody:
    the action returns the error of [JSON.stringify]. *)
Lemma broadcast_error_cases_witness :
  let data := VObj [("order", VObj [("total", VBigInt 630)])] in
  let r := publish Scenario.env0 (ToRestaurant (VStr "R1")) ORDER_PLACED data
             Scenario.floor in
  fst r = BroadcastError "Do not know how to serialize a BigInt"
  /\ sseConnections (snd r) = Some Scenario.floor_connections
  /\ streams (snd r) = streams Scenario.floor.
Proof.
  apply (proj1 (proj2 (proj2 (broadcast_error_cases Scenario.env0
                                (ToRestaurant (VStr "R1")) ORDER_PLACED
                                (VObj [("order", VObj [("total", VBigInt 630)])])
                                Scenario.floor)))).
  - exact floor_connections_eq.
  - reflexivity.
Defined.

Lemma floor_has_no_undefined_restaurant k c :
  Scenario.floor_connections !! k = Some c ->
  strict_eq (restaurantId c) VUndefined = false.
Proof.
  unfold Scenario.floor_connections.
  rewrite !lookup_insert_Some, lookup_empty.
  intros H. repeat (destruct H as [[_ <-]|[_ H]]; [done|]). done.
Qed.

(** C5 fails as stated: a selector without [restaurantId] is not
    rejected (the map is walked and the result is a success with count
    zero), and a well-formed selector gets an error while the route module
    has not created the map. *)
Lemma missing_restaurantId_is_not_rejected :
  fst (broadcastToRestaurantAction Scenario.env0 VUndefined ORDER_PLACED VNull
         Scenario.floor) = BroadcastOk 0
  /\ ticks (snd (broadcastToRestaurantAction Scenario.env0 VUndefined ORDER_PLACED
                   VNull Scenario.floor)) = S (ticks Scenario.floor)
  /\ fst (broadcastToAdminAction Scenario.env0 (VStr "R1") ORDER_PLACED VNull initial)
     = BroadcastError "No connections available".
Proof.
  rewrite !publish_restaurant, publish_admin.
  split; [|split].
  - exact (proj1 (publish_nothing_selected Scenario.env0 (ToRestaurant VUndefined)
                    ORDER_PLACED VNull Scenario.floor Scenario.floor_connections
                    floor_connections_eq eq_refl floor_has_no_undefined_restaurant)).
  - rewrite publish_broadcast.
    destruct (broadcast _ _ _ _ _) as [r w'] eqn:E.
    apply (broadcast_spec Scenario.env0 _ _ _ _ Scenario.floor_connections) in E;
      [|exact floor_connections_eq|reflexivity].
    destruct E as (_ & _ & _ & _ & E). simpl. rewrite E. reflexivity.
  - rewrite publish_broadcast, broadcast_absent by reflexivity. reflexivity.
Qed.

(** *** The frames on the channel *)

Lemma prefix_app p b : String.prefix p (p ++ b) = true.
Proof.
  induction p as [|c p IH]; simpl; [by destruct b|].
  destruct (Ascii.ascii_dec c c); [exact IH|congruence].
Qed.

Lemma prefix_app_l p a b :
  String.prefix p a = true -> String.prefix p (a ++ b) = true.
Proof.
  revert a. induction p as [|c p IH]; intros a; simpl.
  { intros _. by destruct (a ++ b). }
  destruct a as [|c' a]; simpl; [done|].
  destruct (Ascii.ascii_dec c c'); [apply IH|done].
Qed.

Lemma contains_cons p c s :
  contains p (String c s) = String.prefix p (String c s) || contains p s.
Proof. reflexivity. Qed.

Lemma contains_prefix p s : String.prefix p s = true -> contains p s = true.
Proof.
  intros H. destruct s as [|c s].
  - unfold contains. by rewrite H.
  - by rewrite contains_cons, H.
Qed.

Lemma contains_here p b : contains p (p ++ b) = true.
Proof. apply contains_prefix, prefix_app. Qed.

Lemma contains_app_r p a s :
  contains p s = true -> contains p (a ++ s) = true.
Proof.
  intros H. induction a as [|c a IH]; [done|].
  change (String c a ++ s) with (String c (a ++ s)).
  rewrite contains_cons, IH. apply orb_true_r.
Qed.

Lemma contains_app_l p a b :
  contains p a = true -> contains p (a ++ b) = true.
Proof.
  induction a as [|c a IH].
  - unfold contains at 1. rewrite orb_false_r. intros H.
    by apply contains_prefix, prefix_app_l.
  - rewrite contains_cons. intros H.
    change (String c a ++ b) with (String c (a ++ b)).
    rewrite contains_cons.
    apply orb_true_iff in H as [H|H].
    + pose proof (prefix_app_l p (String c a) b H) as H'.
      change (String c a ++ b) with (String c (a ++ b)) in H'. by rewrite H'.
    + rewrite (IH H). apply orb_true_r.
Qed.

Lemma join2 sep a b : join sep [a; b] = a ++ sep ++ b.
Proof. reflexivity. Qed.

Lemma join3 sep a b c : join sep [a; b; c] = a ++ sep ++ b ++ sep ++ c.
Proof. reflexivity. Qed.

Lemma stringify_text v s : stringify v = Some s -> stringify_throws v = false.
Proof.
  destruct v; cbn [stringify stringify_throws]; try done.
  - by destruct (existsb stringify_throws elems).
  - by destruct (existsb _ props).
Qed.

(** The JSON text of an envelope. *)
Lemma stringify_envelope event data t :
  stringify_throws data = false ->
  stringify (envelope event data t)
  = Some ("{" ++ join ","
            (List.app [quote "event" ++ ":" ++ quote event]
               (List.app
                  match stringify data with
                  | Some s => [quote "data" ++ ":" ++ s]
                  | None => []
                  end
                  [quote "timestamp" ++ ":" ++ pretty t])) ++ "}").
Proof.
  intros H. unfold envelope.
  cbn [stringify existsb stringify_throws snd orb]. rewrite H. reflexivity.
Qed.

Lemma sse_frame_throws event data t :
  stringify_throws data = true ->
  sse_frame (envelope event data t) = "data: undefined" ++ newline ++ newline.
Proof.
  intros H. unfold sse_frame, envelope.
  cbn [stringify existsb stringify_throws snd orb]. rewrite H. reflexivity.
Qed.

(** Every envelope of a broadcast has a [timestamp] member. *)
Lemma envelope_has_timestamp event data t :
  stringify_throws data = false ->
  contains (quote "timestamp") (sse_frame (envelope event data t)) = true.
Proof.
  intros H. unfold sse_frame. rewrite (stringify_envelope _ _ _ H).
  unfold interpolate.
  apply contains_app_r, contains_app_l, contains_app_r, contains_app_l.
  destruct (stringify data) as [sd|]; cbn [List.app].
  - rewrite join3. do 4 apply contains_app_r. apply contains_here.
  - rewrite join2. do 2 apply contains_app_r. apply contains_here.
Qed.

Lemma not_an_envelope frame :
  contains (quote "timestamp") frame = false ->
  contains "undefined" frame = false ->
  forall event data t, frame <> sse_frame (envelope event data t).
Proof.
  intros H H' event data t ->. destruct (stringify_throws data) eqn:Ht.
  - by rewrite sse_frame_throws in H'.
  - by rewrite envelope_has_timestamp in H.
Qed.

Section Frames.
Context (env : Env).

Lemma GET_connected request w h w' :
  GET env request w = (EventStream h, w') ->
  let w0 := route_module w in
  let connectionId :=
    make_connectionId (searchParam (q_type request))
      (searchParam (q_restaurantId request))
      (searchParam (q_customerPhone request)) (Date_now env (ticks w0)) in
  h = length (streams w0)
  /\ streams w' = (streams w0 ++ [mkStream true [sse_frame (connected_payload connectionId)]])%list
  /\ sseConnections w'
     = <[connectionId := mkConn h (searchParam (q_restaurantId request))
                           (searchParam (q_customerPhone request))
                           (searchParam (q_type request))]>
         <$> sseConnections w0
  /\ truthy (searchParam (q_restaurantId request)) = true.
Proof.
  unfold GET.
  destruct (truthy (searchParam (q_restaurantId request))) eqn:Ht; simpl; [|done].
  set (w0 := route_module w).
  assert (Hlook : (streams w0 ++ [mkStream true []])%list !! length (streams w0)
                  = Some (mkStream true [])).
  { rewrite lookup_app_r by lia. by rewrite Nat.sub_diag. }
  unfold enqueue. rewrite Hlook. simpl.
  intros [= <- <-]. simpl. repeat split; try done.
  rewrite insert_app_r_alt by lia. by rewrite Nat.sub_diag.
Qed.

Lemma GET_rejects request w :
  truthy (searchParam (q_restaurantId request)) = false ->
  GET env request w = (BadRequest "Missing restaurantId", route_module w).
Proof. intros H. unfold GET. by rewrite H. Qed.

Lemma pingTick_frame connectionId h w s :
  In h (pingIntervals w) -> streams w !! h = Some s -> readable s = true ->
  streams (pingTick connectionId h w) !! h
  = Some (mkStream true (chunks s ++ [sse_frame ping_payload])).
Proof.
  intros Hin Hs Hr. unfold pingTick.
  assert (existsb (Nat.eqb h) (pingIntervals w) = true) as ->.
  { apply existsb_exists. exists h. split; [done|]. apply Nat.eqb_refl. }
  simpl. unfold enqueue. rewrite Hs, Hr. simpl.
  apply list_lookup_insert_eq. by eapply lookup_lt_Some.
Qed.

Lemma publish_frames sel event data w h :
  exists n,
    streams (snd (publish env sel event data w)) !! h
    = extended (sse_frame (envelope event data (Date_now env (ticks w)))) n
        <$> streams w !! h.
Proof.
  assert (Hsame : forall strs : list Stream,
             strs !! h
             = extended (sse_frame (envelope event data (Date_now env (ticks w)))) 0
                 <$> strs !! h).
  { intros strs. destruct (strs !! h); simpl; [|done]. by rewrite extended_0. }
  destruct (sseConnections w) as [m|] eqn:Hm.
  - destruct (stringify_throws data) eqn:Ht.
    + destruct (publish_throws env sel event data w m Hm Ht) as (_ & _ & ->).
      exists 0. apply Hsame.
    + rewrite publish_broadcast.
      destruct (broadcast _ _ _ _ _) as [r w'] eqn:E.
      apply (broadcast_spec env _ _ _ _ m) in E; [|done|done].
      destruct E as (_ & _ & E & _). simpl in *. eexists. apply E.
  - rewrite publish_broadcast, broadcast_absent by done. exists 0. apply Hsame.
Qed.

Lemma envelope_text event data sd t :
  stringify data = Some sd ->
  sse_frame (envelope event data t)
  = "data: " ++ ("{" ++ ((quote "event" ++ ":" ++ quote event) ++ ","
                         ++ (quote "data" ++ ":" ++ sd) ++ ","
                         ++ (quote "timestamp" ++ ":" ++ pretty t)) ++ "}")
      ++ newline ++ newline.
Proof.
  intros Hd. unfold sse_frame.
  rewrite (stringify_envelope _ _ _ (stringify_text _ _ Hd)).
  rewrite Hd. cbn [List.app]. by rewrite join3.
Qed.

(** C6, as the code has it.  Every frame a broadcast action pushes is the
    text [data: <json>] followed by two newlines, where [<json>] is the
    envelope with the members [event], [data] and [timestamp], the
    timestamp being the broadcaster's own reading of the clock: after a
    broadcast every stream holds what it held, followed by copies of that
    one frame.  The frames of the endpoint are different: the [connected]
    frame is [{event, connectionId}] with the connection id at the top
    level, and the [ping] frame is [{event}] alone; neither has [data] or
    [timestamp]. *)
Theorem frames_on_the_channel :
  (forall sel event data w h, exists n,
      streams (snd (publish env sel event data w)) !! h
      = extended (sse_frame (envelope event data (Date_now env (ticks w)))) n
          <$> streams w !! h)
  /\ (forall event data sd t,
        stringify data = Some sd ->
        sse_frame (envelope event data t)
        = "data: " ++ ("{" ++ ((quote "event" ++ ":" ++ quote event) ++ ","
                               ++ (quote "data" ++ ":" ++ sd) ++ ","
                               ++ (quote "timestamp" ++ ":" ++ pretty t)) ++ "}")
            ++ newline ++ newline)
  /\ (forall request w h w',
        GET env request w = (EventStream h, w') ->
        streams w' !! h
        = Some (mkStream true
                  [sse_frame
                     (VObj [("event", VStr "connected");
                            ("connectionId",
                             VStr (make_connectionId
                                     (searchParam (q_type request))
                                     (searchParam (q_restaurantId request))
                                     (searchParam (q_customerPhone request))
                                     (Date_now env (ticks w))))])]))
  /\ (forall connectionId h w s,
        In h (pingIntervals w) -> streams w !! h = Some s -> readable s = true ->
        streams (pingTick connectionId h w) !! h
        = Some (mkStream true
                  (chunks s ++ [sse_frame (VObj [("event", VStr "ping")])])))
  /\ (forall connectionId,
        sse_frame (VObj [("event", VStr "connected");
                         ("connectionId", VStr connectionId)])
        = "data: " ++ ("{" ++ ((quote "event" ++ ":" ++ quote "connected") ++ ","
                               ++ (quote "connectionId" ++ ":" ++ quote connectionId))
                           ++ "}")
            ++ newline ++ newline)
  /\ sse_frame (VObj [("event", VStr "ping")])
     = "data: " ++ ("{" ++ (quote "event" ++ ":" ++ quote "ping") ++ "}")
         ++ newline ++ newline.
Proof.
  split; [exact publish_frames|].
  split; [exact envelope_text|].
  split.
  { intros request w h w' H. apply GET_connected in H as (-> & -> & _).
    rewrite lookup_app_r by lia. rewrite Nat.sub_diag.
    assert (ticks (route_module w) = ticks w) as ->; [|done].
    unfold route_module. by destruct (sseConnections w). }
  split; [exact pingTick_frame|].
  split; reflexivity.
Qed.

End Frames.

(** The first connection of an admin terminal gets its [connected] frame. *)
Lemma frames_on_the_channel_witness :
  streams (snd (GET Scenario.env0 Scenario.adminR1 initial)) !! 0
  = Some (mkStream true
            [sse_frame
               (VObj [("event", VStr "connected");
                      ("connectionId",
                       VStr (make_connectionId
                               (searchParam (q_type Scenario.adminR1))
                               (searchParam (q_restaurantId Scenario.adminR1))
                               (searchParam (q_customerPhone Scenario.adminR1))
                               (Date_now Scenario.env0 (ticks initial))))])]).
Proof.
  apply (proj1 (proj2 (proj2 (frames_on_the_channel Scenario.env0)))
           Scenario.adminR1 initial 0
           (snd (GET Scenario.env0 Scenario.adminR1 initial))).
  reflexivity.
Defined.

(** C6 fails as stated on the two frames of the endpoint: the [connected]
    frame and the [ping] frame are not envelopes (no [timestamp], no
    [data]); the connection id is a top-level member, not the payload. *)
Lemma endpoint_frames_are_not_envelopes :
  let r := GET Scenario.env0 Scenario.adminR1 initial in
  streams (snd r) !! 0
  = Some (mkStream true [sse_frame (connected_payload Scenario.adminR1_id)])
  /\ (forall event data t,
        sse_frame (connected_payload Scenario.adminR1_id)
        <> sse_frame (envelope event data t))
  /\ field "data" (connected_payload Scenario.adminR1_id) = VUndefined
  /\ field "timestamp" (connected_payload Scenario.adminR1_id) = VUndefined
  /\ field "connectionId" (connected_payload Scenario.adminR1_id)
     = VStr Scenario.adminR1_id
  /\ streams (pingTick Scenario.adminR1_id 0 (snd r)) !! 0
     = Some (mkStream true [sse_frame (connected_payload Scenario.adminR1_id);
                            sse_frame ping_payload])
  /\ (forall event data t,
        sse_frame ping_payload <> sse_frame (envelope event data t)).
Proof.
  repeat split; try reflexivity.
  - apply not_an_envelope; reflexivity.
  - apply not_an_envelope; reflexivity.
Qed.

(** *** Connection ids *)

(** C7 fails on the code: two requests with the same parameters that are
    served within one millisecond get the same connection id.  Both
    streams are open, but the second [set] replaces the first entry: the
    map has one entry, for the second stream. *)
Lemma same_millisecond_ids_collide :
  let r1 := GET Scenario.same_ms Scenario.adminR1 initial in
  let r2 := GET Scenario.same_ms Scenario.adminR1 (snd r1) in
  fst r1 = EventStream 0 /\ fst r2 = EventStream 1
  /\ streams (snd r2)
     = [mkStream true [sse_frame (connected_payload Scenario.adminR1_id)];
        mkStream true [sse_frame (connected_payload Scenario.adminR1_id)]]
  /\ sseConnections (snd r1)
     = Some {[ Scenario.adminR1_id := mkConn 0 (VStr "R1") VNull (VStr "admin") ]}
  /\ sseConnections (snd r2)
     = Some {[ Scenario.adminR1_id := mkConn 1 (VStr "R1") VNull (VStr "admin") ]}.
Proof.
  do 3 (split; [reflexivity|]). split.
  - reflexivity.
  - simpl.
    change (make_connectionId (VStr "admin") (VStr "R1") VNull 1700000000000)
      with Scenario.adminR1_id.
    rewrite insert_insert_eq. reflexivity.
Qed.

End ServerFacts.

(* ===================================================================== *)
(** ** Facts about the order actions *)
(* ===================================================================== *)

Module OrderFacts.
Import JS Server ServerFacts.

(** *** Documents *)

Lemma lookup_set_prop k k' v props :
  lookup_prop k (set_prop k' v props)
  = if String.eqb k k' then v else lookup_prop k props.
Proof.
  induction props as [|[k0 v0] props IH]; simpl.
  - destruct (String.eqb_spec k k'); done.
  - destruct (String.eqb_spec k' k0) as [->|Hne]; simpl.
    + destruct (String.eqb_spec k k0); done.
    + rewrite IH. destruct (String.eqb_spec k k0) as [->|]; [|done].
      apply String.eqb_neq in Hne. rewrite String.eqb_sym in Hne. by rewrite Hne.
Qed.

Lemma has_orderId_object orderId doc :
  has_orderId orderId doc = true -> exists props, doc = VObj props.
Proof.
  unfold has_orderId. destruct doc; simpl; try done. by eexists.
Qed.

(** The status update keeps every other path of the document. *)
Lemma field_status_update k newStatus t doc :
  k <> "status" -> k <> "updatedAt" ->
  field k (set_field "updatedAt" (VDate t) (set_field "status" newStatus doc))
  = field k doc.
Proof.
  intros H1 H2. destruct doc; simpl; try done.
  rewrite !lookup_set_prop.
  apply String.eqb_neq in H1, H2. by rewrite H1, H2.
Qed.

Lemma status_after_update orderId newStatus t doc :
  has_orderId orderId doc = true ->
  field "status" (set_field "updatedAt" (VDate t) (set_field "status" newStatus doc))
  = newStatus.
Proof.
  intros H. apply has_orderId_object in H as [props ->]. simpl.
  by rewrite !lookup_set_prop.
Qed.

Lemma has_orderId_update orderId newStatus t doc :
  has_orderId orderId doc = true ->
  has_orderId orderId
    (set_field "updatedAt" (VDate t) (set_field "status" newStatus doc)) = true.
Proof.
  unfold has_orderId. intros H. by rewrite field_status_update.
Qed.

(** *** Collections *)

Lemma findOneAndUpdate_none filter update coll :
  List.find filter coll = None ->
  findOneAndUpdate filter update coll = (coll, None).
Proof.
  induction coll as [|d coll IH]; simpl; [done|].
  destruct (filter d); [done|]. intros H. by rewrite IH.
Qed.

Lemma findOneAndUpdate_found filter update coll d :
  List.find filter coll = Some d ->
  filter (update d) = true ->
  exists coll',
    findOneAndUpdate filter update coll = (coll', Some (update d))
    /\ List.find filter coll' = Some (update d)
    /\ length coll' = length coll.
Proof.
  intros Hfind Hkeep. induction coll as [|x coll IH]; simpl in *; [done|].
  destruct (filter x) eqn:Hx.
  - injection Hfind as ->. eexists. split; [done|]. simpl. by rewrite Hkeep.
  - destruct (IH Hfind) as (coll' & -> & H2 & H3).
    eexists. split; [done|]. simpl. rewrite Hx. split; [done|]. by rewrite H3.
Qed.

(** *** What a broadcast leaves alone *)

Section Orders.
Context (env : Env).

Lemma publish_data sel event data w r w' :
  publish env sel event data w = (r, w') ->
  orders w' = orders w /\ profiles w' = profiles w
  /\ oids w' = oids w /\ draws w' = draws w
  /\ pingIntervals w' = pingIntervals w
  /\ published w' = (published w ++ [mkPublish sel event data])%list.
Proof.
  rewrite publish_broadcast. intros E.
  destruct (sseConnections w) as [m|] eqn:Hm.
  - destruct (stringify_throws data) eqn:Ht.
    + rewrite (broadcast_throws env _ _ _ _ m) in E by done.
      by injection E as <- <-.
    + apply (broadcast_spec env _ _ _ _ m) in E; [|done|done].
      destruct E as (_ & _ & _ & _ & ->). done.
  - rewrite broadcast_absent in E by done. by injection E as <- <-.
Qed.

(** *** updateOrderStatusAction *)

Lemma includes_valid newStatus :
  includes validStatuses newStatus = true ->
  exists s, newStatus = VStr s /\ In s validStatuses.
Proof.
  unfold includes. intros H. apply existsb_exists in H as (s & Hin & Heq).
  destruct newStatus; simpl in Heq; try done.
  apply String.eqb_eq in Heq. subst. by eexists.
Qed.

Lemma update_invalid orderId newStatus w :
  includes validStatuses newStatus = false ->
  updateOrderStatusAction env orderId newStatus w
  = (Failure (Message "Invalid status"), w).
Proof. intros H. unfold updateOrderStatusAction. by rewrite H. Qed.

Lemma update_not_found orderId newStatus w :
  includes validStatuses newStatus = true ->
  findOne orderId (orders w) = None ->
  updateOrderStatusAction env orderId newStatus w
  = (Failure (Message "Order not found"), set_ticks (S (ticks w)) w).
Proof.
  intros Hv Hf. unfold updateOrderStatusAction. rewrite Hv. simpl.
  by rewrite findOneAndUpdate_none.
Qed.

(** The whole of a successful update. *)
Lemma update_found orderId newStatus w doc :
  includes validStatuses newStatus = true ->
  findOne orderId (orders w) = Some doc ->
  let updated :=
    set_field "updatedAt" (VDate (Date_now env (ticks w)))
      (set_field "status" newStatus doc) in
  let payload :=
    VObj [("orderId", field "orderId" updated); ("status", newStatus);
          ("order", serializePlain updated)] in
  let customers :=
    ToCustomer (field "restoId" updated) (field "customerPhone" updated) in
  let admins := ToAdmin (field "restoId" updated) in
  exists orders' w1,
    findOne orderId orders' = Some updated
    /\ length orders' = length (orders w)
    /\ w1 = set_orders orders' (set_ticks (S (ticks w)) w)
    /\ updateOrderStatusAction env orderId newStatus w
       = (Success (serializePlain updated),
          snd (broadcastToAdminAction env (field "restoId" updated)
                 ORDER_UPDATED payload
                 (snd (broadcastToCustomerAction env (field "restoId" updated)
                         (field "customerPhone" updated)
                         ORDER_STATUS_CHANGED payload w1))))
    /\ orders (snd (updateOrderStatusAction env orderId newStatus w)) = orders'
    /\ published (snd (updateOrderStatusAction env orderId newStatus w))
       = (published w ++ [mkPublish customers ORDER_STATUS_CHANGED payload;
                          mkPublish admins ORDER_UPDATED payload])%list.
Proof.
  intros Hv Hf updated payload customers admins.
  assert (Hid : has_orderId orderId doc = true).
  { unfold findOne in Hf. by apply find_some in Hf as [_ ?]. }
  destruct (findOneAndUpdate_found (has_orderId orderId)
              (fun d => set_field "updatedAt" (VDate (Date_now env (ticks w)))
                          (set_field "status" newStatus d))
              (orders w) doc Hf (has_orderId_update _ _ _ _ Hid))
    as (orders' & Hupd & Hfind & Hlen).
  exists orders', (set_orders orders' (set_ticks (S (ticks w)) w)).
  assert (Heq : updateOrderStatusAction env orderId newStatus w
       = (Success (serializePlain updated),
          snd (broadcastToAdminAction env (field "restoId" updated)
                 ORDER_UPDATED payload
                 (snd (broadcastToCustomerAction env (field "restoId" updated)
                         (field "customerPhone" updated)
                         ORDER_STATUS_CHANGED payload
                         (set_orders orders' (set_ticks (S (ticks w)) w))))))).
  { subst updated payload customers admins.
    unfold updateOrderStatusAction, now. rewrite Hv. simpl negb.
    cbv beta iota zeta.
    change (orders (set_ticks (S (ticks w)) w)) with (orders w).
    rewrite Hupd. cbv beta iota zeta.
    destruct (broadcastToCustomerAction env _ _ _ _ _) as [r1 w1].
    cbv beta iota zeta. unfold snd at 2.
    by destruct (broadcastToAdminAction env _ _ _ _) as [r2 w2]. }
  do 3 (split; [done|]). split; [exact Heq|].
  rewrite Heq. unfold snd at 1 3.
  rewrite publish_customer, !publish_admin.
  fold customers. fold admins.
  destruct (publish env customers ORDER_STATUS_CHANGED payload _) as [r1 w1] eqn:E1.
  unfold snd at 2 4.
  destruct (publish env admins ORDER_UPDATED payload w1) as [r2 w2] eqn:E2.
  apply publish_data in E1 as (O1 & _ & _ & _ & _ & P1).
  apply publish_data in E2 as (O2 & _ & _ & _ & _ & P2).
  simpl in *. split.
  - by rewrite O2, O1.
  - rewrite P2, P1. by rewrite <- app_assoc.
Qed.

(** *** placeOrderAction *)

Lemma only_counters_refl w : only_counters w w.
Proof. unfold only_counters. by destruct w. Qed.

Lemma only_counters_trans w1 w2 w3 :
  only_counters w1 w2 -> only_counters w2 w3 -> only_counters w1 w3.
Proof. unfold only_counters. intros -> ->. done. Qed.

Lemma generateOrderId_counters w :
  only_counters w (snd (generateOrderId env w)).
Proof. unfold only_counters. by destruct w. Qed.

Lemma regenerate_counters fuel : forall orderId w orderId' w',
  regenerate env fuel orderId w = Some (orderId', w') ->
  only_counters w w' /\ findOne orderId' (orders w') = None.
Proof.
  induction fuel as [|fuel IH]; intros orderId w orderId' w' H; simpl in H.
  - destruct (findOne orderId (orders w)) eqn:F; [done|].
    injection H as <- <-. split; [apply only_counters_refl|done].
  - destruct (findOne orderId (orders w)) eqn:F.
    + destruct (generateOrderId env w) as [id1 w1] eqn:G.
      apply IH in H as [H1 H2]. split; [|done].
      eapply only_counters_trans; [|exact H1].
      pose proof (generateOrderId_counters w) as Hg. by rewrite G in Hg.
    + injection H as <- <-. split; [apply only_counters_refl|done].
Qed.

Lemma truthy_field_object k o :
  truthy (field k o) = true -> nullish o = false.
Proof. by destruct o. Qed.

Lemma nth_orderId_counters n w :
  only_counters w (snd (nth_orderId env n w)).
Proof.
  induction n as [|n IH]; cbn [nth_orderId].
  - apply generateOrderId_counters.
  - eapply only_counters_trans; [exact IH|apply generateOrderId_counters].
Qed.

Lemma nth_orderId_orders n w : orders (snd (nth_orderId env n w)) = orders w.
Proof. pose proof (nth_orderId_counters n w) as C. by rewrite C. Qed.

(** The loop ends on the first id that no order has, when one comes up
    within [fuel] regenerations. *)
Lemma regenerate_nth fuel : forall k n w,
  k <= n -> n - k <= fuel ->
  (forall j, k <= j -> j < n ->
     findOne (fst (nth_orderId env j w)) (orders w) <> None) ->
  findOne (fst (nth_orderId env n w)) (orders w) = None ->
  regenerate env fuel (fst (nth_orderId env k w)) (snd (nth_orderId env k w))
  = Some (nth_orderId env n w).
Proof.
  induction fuel as [|fuel IH]; intros k n w Hk Hf Hused Hfresh.
  - assert (k = n) as -> by lia.
    cbn [regenerate]. rewrite nth_orderId_orders, Hfresh.
    by destruct (nth_orderId env n w).
  - destruct (decide (k = n)) as [->|Hne].
    + cbn [regenerate]. rewrite nth_orderId_orders, Hfresh.
      by destruct (nth_orderId env n w).
    + cbn [regenerate]. rewrite nth_orderId_orders.
      destruct (findOne (fst (nth_orderId env k w)) (orders w)) eqn:F.
      2:{ by destruct (Hused k); [lia|lia|]. }
      specialize (IH (S k) n w). cbn [nth_orderId] in IH.
      destruct (generateOrderId env (snd (nth_orderId env k w))) as [id' w'] eqn:G.
      cbn [fst snd] in IH. apply IH; [lia|lia| |done].
      intros j Hj1 Hj2. apply Hused; lia.
Qed.

(** The loop is still running after [fuel] regenerations when every id
    generated so far is taken. *)
Lemma regenerate_exhausted fuel : forall k w,
  (forall j, k <= j -> j <= k + fuel ->
     findOne (fst (nth_orderId env j w)) (orders w) <> None) ->
  regenerate env fuel (fst (nth_orderId env k w)) (snd (nth_orderId env k w))
  = None.
Proof.
  induction fuel as [|fuel IH]; intros k w Hused.
  - cbn [regenerate]. rewrite nth_orderId_orders.
    destruct (findOne (fst (nth_orderId env k w)) (orders w)) eqn:F; [done|].
    by destruct (Hused k); [lia|lia|].
  - cbn [regenerate]. rewrite nth_orderId_orders.
    destruct (findOne (fst (nth_orderId env k w)) (orders w)) eqn:F.
    2:{ by destruct (Hused k); [lia|lia|]. }
    specialize (IH (S k) w). cbn [nth_orderId] in IH.
    destruct (generateOrderId env (snd (nth_orderId env k w))) as [id' w'] eqn:G.
    cbn [fst snd] in IH. apply IH. intros j Hj1 Hj2. apply Hused; lia.
Qed.

(** [placeOrderAction] once its guard has passed. *)
Lemma placeOrder_guarded fuel orderData w :
  truthy (field "restoId" orderData) = true ->
  truthy (field "customerPhone" orderData) = true ->
  truthy (field "tableNumber" orderData) = true ->
  truthy (optional_length (field "items" orderData)) = true ->
  placeOrderAction env fuel orderData w
  = match regenerate env fuel (fst (nth_orderId env 0 w))
            (snd (nth_orderId env 0 w)) with
    | None => None
    | Some (orderId, w) =>
        match map_items (field "items" orderData) with
        | None => Some (Failure (Caught TypeError), w)
        | Some mapped =>
            match Order_create env (order_document orderId orderData mapped) w with
            | (None, w) => Some (Failure (Caught ValidationError), w)
            | (Some newOrder, w) =>
                Some (Success (serializePlain newOrder),
                      snd (broadcastToAdminAction env (field "restoId" orderData)
                             ORDER_PLACED
                             (VObj [("order", serializePlain newOrder)])
                             (push_profile_order env
                                (field "customerPhone" orderData)
                                (field "restoId" orderData)
                                (field "_id" newOrder) w)))
            end
        end
    end.
Proof.
  intros Hr Hc Ht Hi. unfold placeOrderAction.
  rewrite (truthy_field_object _ _ Hr), Hr, Hc, Ht, Hi. cbn [negb orb nth_orderId].
  destruct (generateOrderId env w) as [id0 w0]. cbn [fst snd].
  destruct (regenerate env fuel id0 w0) as [[id1 w1]|]; [|done].
  destruct (map_items _) as [mapped|]; [|done].
  destruct (Order_create env _ w1) as [[newOrder|] w2]; [|done].
  destruct (broadcastToAdminAction env _ _ _ _). reflexivity.
Qed.

Lemma lookup_prop_app k l1 l2 :
  lookup_prop k l1 <> VUndefined -> lookup_prop k (l1 ++ l2) = lookup_prop k l1.
Proof.
  induction l1 as [|[k' v'] l1 IH]; [done|]. cbn [List.app lookup_prop].
  destruct (String.eqb k k'); [done|]. exact IH.
Qed.

(** What [Order.create] stores when Mongoose accepts the document. *)
Lemma Order_create_accepted doc w :
  Order_validate env (VObj doc) = true ->
  exists newOrder w',
    Order_create env doc w = (Some newOrder, w')
    /\ orders w' = (orders w ++ [newOrder])%list
    /\ published w' = published w
    /\ (forall k, k <> "_id" -> lookup_prop k doc <> VUndefined ->
          field k newOrder = lookup_prop k doc).
Proof.
  intros V. unfold Order_create. rewrite V. cbn [fresh_oid now].
  cbv beta iota zeta. eexists _, _. split; [reflexivity|].
  split; [reflexivity|]. split; [reflexivity|].
  intros k Hk Hdef. cbn [field lookup_prop].
  apply String.eqb_neq in Hk. rewrite Hk. by apply lookup_prop_app.
Qed.

Lemma Order_create_rejected doc w :
  Order_validate env (VObj doc) = false -> Order_create env doc w = (None, w).
Proof. intros V. unfold Order_create. by rewrite V. Qed.

(** Every return of [placeOrderAction] once its guard has passed. *)
Lemma placeOrder_accepted fuel orderData w r w' :
  truthy (field "restoId" orderData) = true ->
  truthy (field "customerPhone" orderData) = true ->
  truthy (field "tableNumber" orderData) = true ->
  truthy (optional_length (field "items" orderData)) = true ->
  placeOrderAction env fuel orderData w = Some (r, w') ->
  match r with
  | Success order =>
      exists newOrder,
        orders w' = (orders w ++ [newOrder])%list
        /\ field "status" newOrder = VStr "Placed"
        /\ field "restoId" newOrder = field "restoId" orderData
        /\ field "customerPhone" newOrder = field "customerPhone" orderData
        /\ findOne (to_text (field "orderId" newOrder)) (orders w) = None
        /\ order = serializePlain newOrder
        /\ published w'
           = (published w
              ++ [mkPublish (ToAdmin (field "restoId" orderData)) ORDER_PLACED
                    (VObj [("order", order)])])%list
  | Failure e =>
      (e = Caught TypeError \/ e = Caught ValidationError)
      /\ orders w' = orders w /\ published w' = published w
      /\ streams w' = streams w /\ sseConnections w' = sseConnections w
  end.
Proof.
  intros Hr Hc Ht Hi H. rewrite (placeOrder_guarded _ _ _ Hr Hc Ht Hi) in H.
  cbn [nth_orderId] in H.
  pose proof (generateOrderId_counters w) as C0.
  destruct (generateOrderId env w) as [id0 w0] eqn:G. cbn [fst snd] in *.
  destruct (regenerate env fuel id0 w0) as [[id1 w1]|] eqn:R; [|done].
  apply regenerate_counters in R as [C1 Fresh].
  pose proof (only_counters_trans _ _ _ C0 C1) as C. unfold only_counters in C.
  assert (Ow : orders w1 = orders w) by (rewrite C; reflexivity).
  assert (Pw : published w1 = published w) by (rewrite C; reflexivity).
  assert (Sw : streams w1 = streams w) by (rewrite C; reflexivity).
  assert (Mw : sseConnections w1 = sseConnections w) by (rewrite C; reflexivity).
  clear C C0 C1. rewrite Ow in Fresh.
  destruct (map_items (field "items" orderData)) as [mapped|] eqn:M.
  2:{ injection H as <- <-. split; [by left|done]. }
  unfold Order_create in H.
  destruct (Order_validate env _) eqn:V.
  2:{ injection H as <- <-. split; [by right|done]. }
  cbn [fresh_oid now] in H. unfold push_profile_order, now in H.
  cbv beta iota zeta in H.
  rewrite publish_admin in H.
  destruct (publish env _ _ _ _) as [r2 w2] eqn:P.
  apply publish_data in P as (O & _ & _ & _ & _ & Pub).
  injection H as <- <-. cbn [snd]. rewrite O, Pub.
  cbn [orders published set_profiles set_ticks set_orders set_oids].
  rewrite Ow, Pw.
  eexists. split; [reflexivity|]. split; [reflexivity|]. split; [reflexivity|].
  split; [reflexivity|]. split; [exact Fresh|]. split; reflexivity.
Qed.

(** The three ways out of [placeOrderAction] once its guard has passed
    and the loop has ended on its [n]-th id. *)
Lemma placeOrder_outcome fuel orderData w n :
  truthy (field "restoId" orderData) = true ->
  truthy (field "customerPhone" orderData) = true ->
  truthy (field "tableNumber" orderData) = true ->
  truthy (optional_length (field "items" orderData)) = true ->
  n <= fuel ->
  (forall j, j < n -> findOne (fst (nth_orderId env j w)) (orders w) <> None) ->
  findOne (fst (nth_orderId env n w)) (orders w) = None ->
  let orderId := fst (nth_orderId env n w) in
  let w1 := snd (nth_orderId env n w) in
  match map_items (field "items" orderData) with
  | None =>
      placeOrderAction env fuel orderData w = Some (Failure (Caught TypeError), w1)
  | Some mapped =>
      if Order_validate env (VObj (order_document orderId orderData mapped)) then
        exists newOrder w',
          placeOrderAction env fuel orderData w
          = Some (Success (serializePlain newOrder), w')
          /\ orders w' = (orders w ++ [newOrder])%list
          /\ field "orderId" newOrder = VStr orderId
          /\ field "status" newOrder = VStr "Placed"
          /\ published w'
             = (published w
                ++ [mkPublish (ToAdmin (field "restoId" orderData)) ORDER_PLACED
                      (VObj [("order", serializePlain newOrder)])])%list
      else
        placeOrderAction env fuel orderData w
        = Some (Failure (Caught ValidationError), w1)
  end.
Proof.
  intros Hr Hc Ht Hi Hn Hused Hfresh orderId w1.
  rewrite (placeOrder_guarded _ _ _ Hr Hc Ht Hi).
  rewrite (regenerate_nth fuel 0 n w); [|lia|lia| |done].
  2:{ intros j _ Hj. by apply Hused. }
  destruct (nth_orderId env n w) as [id1 w1'] eqn:N. cbn [fst snd] in *.
  subst orderId w1.
  assert (Ow : orders w1' = orders w).
  { pose proof (nth_orderId_orders n w) as O. by rewrite N in O. }
  assert (Pw : published w1' = published w).
  { pose proof (nth_orderId_counters n w) as C. rewrite N in C. cbn [snd] in C.
    by rewrite C. }
  destruct (map_items (field "items" orderData)) as [mapped|]; [|done].
  destruct (Order_validate env _) eqn:V.
  2:{ by rewrite Order_create_rejected. }
  destruct (Order_create_accepted _ w1' V) as (newOrder & w2 & -> & O2 & P2 & F2).
  rewrite publish_admin.
  destruct (publish env _ _ _ _) as [r3 w3] eqn:P.
  apply publish_data in P as (O3 & _ & _ & _ & _ & P3).
  exists newOrder, w3. split; [done|]. cbn [snd] in *.
  split; [|split; [|split]].
  - rewrite O3. unfold push_profile_order, now. cbn [orders set_profiles set_ticks].
    by rewrite O2, Ow.
  - by rewrite F2.
  - by rewrite F2.
  - rewrite P3. unfold push_profile_order, now.
    cbn [published set_profiles set_ticks]. by rewrite P2, Pw.
Qed.

Lemma placeOrder_unending fuel orderData w :
  truthy (field "restoId" orderData) = true ->
  truthy (field "customerPhone" orderData) = true ->
  truthy (field "tableNumber" orderData) = true ->
  truthy (optional_length (field "items" orderData)) = true ->
  (forall j, j <= fuel ->
     findOne (fst (nth_orderId env j w)) (orders w) <> None) ->
  placeOrderAction env fuel orderData w = None.
Proof.
  intros Hr Hc Ht Hi Hused.
  rewrite (placeOrder_guarded _ _ _ Hr Hc Ht Hi).
  rewrite (regenerate_exhausted fuel 0 w); [done|].
  intros j _ Hj. apply Hused. lia.
Qed.

Lemma field_set_other k k' v o :
  k <> k' -> field k (set_field k' v o) = field k o.
Proof.
  intros H. destruct o; simpl; try done.
  rewrite lookup_set_prop. apply String.eqb_neq in H. by rewrite H.
Qed.

(** The action never reads a [status] of its input. *)
Lemma placeOrder_ignores_status fuel orderData s w :
  placeOrderAction env fuel (set_field "status" s orderData) w
  = placeOrderAction env fuel orderData w.
Proof.
  unfold placeOrderAction, order_document.
  rewrite !field_set_other by done. by destruct orderData.
Qed.

(** C10, as the code has it.  Passing the guard does not make an order:
    once [restoId], [customerPhone], [tableNumber] and a non-empty
    [items] are there, the action looks for an unused order id, maps the
    items and hands the document to [Order.create].
    - If the loop ends (on the first of the generated ids that no order
      has, the [n]-th), the items can be mapped and Mongoose accepts the
      document, the action succeeds: exactly one order is added, under
      that id and with status [Placed], and exactly one broadcast is
      issued, [order:placed] to the admins of [restoId] with the new
      order; none goes to a customer.
    - If the items cannot be mapped (one of them is [null], or has no
      [variant]) or Mongoose rejects the document, the action fails on
      the caught error.
    - Whenever the action fails, no order is added and nothing is
      broadcast.
    - A [status] in the input is never read.
    - While every generated id is taken the loop goes on. *)
Theorem placed_order_is_Placed_and_announced_once (fuel : nat)
    (orderData : value) (w : World) :
  truthy (field "restoId" orderData) = true ->
  truthy (field "customerPhone" orderData) = true ->
  truthy (field "tableNumber" orderData) = true ->
  truthy (optional_length (field "items" orderData)) = true ->
  (forall n,
     n <= fuel ->
     (forall j, j < n -> findOne (fst (nth_orderId env j w)) (orders w) <> None) ->
     findOne (fst (nth_orderId env n w)) (orders w) = None ->
     let orderId := fst (nth_orderId env n w) in
     let w1 := snd (nth_orderId env n w) in
     match map_items (field "items" orderData) with
     | None =>
         placeOrderAction env fuel orderData w
         = Some (Failure (Caught TypeError), w1)
     | Some mapped =>
         if Order_validate env (VObj (order_document orderId orderData mapped))
         then
           exists newOrder w',
             placeOrderAction env fuel orderData w
             = Some (Success (serializePlain newOrder), w')
             /\ orders w' = (orders w ++ [newOrder])%list
             /\ field "orderId" newOrder = VStr orderId
             /\ field "status" newOrder = VStr "Placed"
             /\ published w'
                = (published w
                   ++ [mkPublish (ToAdmin (field "restoId" orderData))
                         ORDER_PLACED
                         (VObj [("order", serializePlain newOrder)])])%list
         else
           placeOrderAction env fuel orderData w
           = Some (Failure (Caught ValidationError), w1)
     end)
  /\ (forall e w',
        placeOrderAction env fuel orderData w = Some (Failure e, w') ->
        (e = Caught TypeError \/ e = Caught ValidationError)
        /\ orders w' = orders w /\ published w' = published w)
  /\ (forall s,
        placeOrderAction env fuel (set_field "status" s orderData) w
        = placeOrderAction env fuel orderData w)
  /\ ((forall j, j <= fuel ->
         findOne (fst (nth_orderId env j w)) (orders w) <> None) ->
      placeOrderAction env fuel orderData w = None).
Proof.
  intros Hr Hc Ht Hi. split; [|split; [|split]].
  - intros n Hn Hused Hfresh. by apply placeOrder_outcome.
  - intros e w' H.
    pose proof (placeOrder_accepted fuel orderData w _ w' Hr Hc Ht Hi H) as P.
    destruct P as (P1 & P2 & P3 & _). done.
  - intros s. apply placeOrder_ignores_status.
  - by apply placeOrder_unending.
Qed.

(** C1, as the code has it.  The action checks the requested status
    against the list of the five statuses and nothing else: for an
    existing order every one of the five is accepted whatever the current
    status is (a terminal or an equal one included), the persisted status
    becomes the requested one and two broadcasts are issued.  The call
    fails only for a status outside the list (the state is untouched) or
    for an unknown order id (no order, stream or connection changes and
    nothing is broadcast). *)
Theorem status_update_checks_the_status_only (orderId : string)
    (newStatus : value) (w : World) :
  let r := updateOrderStatusAction env orderId newStatus w in
  if includes validStatuses newStatus then
    match findOne orderId (orders w) with
    | Some doc =>
        (exists order, fst r = Success order)
        /\ (exists doc', findOne orderId (orders (snd r)) = Some doc'
                         /\ field "status" doc' = newStatus)
        /\ length (published (snd r)) = length (published w) + 2
    | None =>
        fst r = Failure (Message "Order not found")
        /\ orders (snd r) = orders w
        /\ published (snd r) = published w
        /\ streams (snd r) = streams w
        /\ sseConnections (snd r) = sseConnections w
    end
  else fst r = Failure (Message "Invalid status") /\ snd r = w.
Proof.
  intros r. subst r.
  destruct (includes validStatuses newStatus) eqn:Hv.
  - destruct (findOne orderId (orders w)) as [doc|] eqn:Hf.
    + destruct (update_found orderId newStatus w doc Hv Hf)
        as (orders' & w1 & H1 & _ & _ & H4 & H5 & H6).
      split; [|split].
      * rewrite H4. by eexists.
      * rewrite H5. eexists. split; [exact H1|].
        apply (status_after_update orderId).
        unfold findOne in Hf. by apply find_some in Hf as [_ ?].
      * rewrite H6, length_app. simpl. lia.
    + by rewrite update_not_found.
  - by rewrite update_invalid.
Qed.

(** C4: for an existing order and a status of the list, the action
    succeeds with the updated order; the order is persisted before the
    broadcasts run; exactly two broadcasts are issued, in this order:
    [order:status_changed] to the customer of the updated order and
    [order:updated] to the admins of its restaurant, both with the order
    id, the new status and the updated order; and the result is the same
    whatever the connection map and the streams are. *)
Theorem status_update_persists_then_publishes (orderId : string)
    (newStatus : value) (w : World) (doc : value) :
  includes validStatuses newStatus = true ->
  findOne orderId (orders w) = Some doc ->
  let updated :=
    set_field "updatedAt" (VDate (Date_now env (ticks w)))
      (set_field "status" newStatus doc) in
  let payload :=
    VObj [("orderId", VStr orderId); ("status", newStatus);
          ("order", serializePlain updated)] in
  let customers := ToCustomer (field "restoId" doc) (field "customerPhone" doc) in
  let admins := ToAdmin (field "restoId" doc) in
  let r := updateOrderStatusAction env orderId newStatus w in
  fst r = Success (serializePlain updated)
  /\ field "status" updated = newStatus
  /\ findOne orderId (orders (snd r)) = Some updated
  /\ (exists w1,
        findOne orderId (orders w1) = Some updated
        /\ snd r = snd (broadcastToAdminAction env (field "restoId" doc)
                          ORDER_UPDATED payload
                          (snd (broadcastToCustomerAction env (field "restoId" doc)
                                  (field "customerPhone" doc)
                                  ORDER_STATUS_CHANGED payload w1))))
  /\ published (snd r)
     = (published w ++ [mkPublish customers ORDER_STATUS_CHANGED payload;
                        mkPublish admins ORDER_UPDATED payload])%list
  /\ (forall connections strs,
        fst (updateOrderStatusAction env orderId newStatus
               (set_streams strs (set_sseConnections connections w)))
        = fst r).
Proof.
  intros Hv Hf updated payload customers admins r.
  assert (Hid : has_orderId orderId doc = true).
  { unfold findOne in Hf. by apply find_some in Hf as [_ ?]. }
  assert (Ho : field "orderId" updated = VStr orderId).
  { unfold updated. rewrite field_status_update by done.
    unfold has_orderId in Hid. destruct (field "orderId" doc); simpl in Hid; try done.
    apply String.eqb_eq in Hid. by subst. }
  assert (Hr : field "restoId" updated = field "restoId" doc)
    by (unfold updated; by rewrite field_status_update).
  assert (Hp : field "customerPhone" updated = field "customerPhone" doc)
    by (unfold updated; by rewrite field_status_update).
  destruct (update_found orderId newStatus w doc Hv Hf)
    as (orders' & w1 & H1 & _ & H3 & H4 & H5 & H6).
  fold updated in H1, H4, H6. rewrite Ho, Hr, Hp in H4, H6.
  fold payload in H4, H6. subst r.
  split; [by rewrite H4|].
  split; [by apply (status_after_update orderId)|].
  split; [by rewrite H5|].
  split.
  { exists w1. split; [by rewrite H3|]. by rewrite H4. }
  split; [exact H6|].
  intros connections strs.
  destruct (update_found orderId newStatus
              (set_streams strs (set_sseConnections connections w)) doc Hv Hf)
    as (o2 & w2 & _ & _ & _ & H4' & _).
  rewrite H4', H4. done.
Qed.

End Orders.

Lemma sample_order_is_placed :
  exists order w',
    placeOrderAction Scenario.env0 0 Scenario.sample_orderData Scenario.kitchen
    = Some (Success order, w').
Proof. eexists _, _. reflexivity. Qed.

(** In the kitchen the order of the scenario is placed at the first id:
    one order is added with status [Placed], although the client sent
    [Served], and the admins of R1 are told once. *)
Lemma placed_order_is_Placed_and_announced_once_witness :
  exists newOrder w',
    placeOrderAction Scenario.env0 0 Scenario.sample_orderData Scenario.kitchen
    = Some (Success (serializePlain newOrder), w')
    /\ orders w' = (orders Scenario.kitchen ++ [newOrder])%list
    /\ field "orderId" newOrder
       = VStr (fst (nth_orderId Scenario.env0 0 Scenario.kitchen))
    /\ field "status" newOrder = VStr "Placed"
    /\ published w'
       = (published Scenario.kitchen
          ++ [mkPublish (ToAdmin (VStr "R1")) ORDER_PLACED
                (VObj [("order", serializePlain newOrder)])])%list.
Proof.
  pose proof (proj1 (placed_order_is_Placed_and_announced_once Scenario.env0 0
                       Scenario.sample_orderData Scenario.kitchen
                       eq_refl eq_refl eq_refl eq_refl)
                0 (le_n 0) (fun j Hj => match Nat.nlt_0_r j Hj with end) eq_refl)
    as H.
  cbv zeta in H.
  assert (M : map_items (field "items" Scenario.sample_orderData)
              = Some (array_elems (field "items" Scenario.served_order)))
    by reflexivity.
  rewrite M in H.
  assert (V : Order_validate Scenario.env0
                (VObj (order_document
                         (fst (nth_orderId Scenario.env0 0 Scenario.kitchen))
                         Scenario.sample_orderData
                         (array_elems (field "items" Scenario.served_order))))
              = true) by reflexivity.
  rewrite V in H. exact H.
Defined.

(** C10 fails as stated: an order without a [restoCode] passes the guard,
    [Order.create] rejects it (the schema requires the path and the
    action's default is the empty string), and the action returns the
    error: no order is added and nothing is broadcast.  An order whose
    one item is [null] passes the guard too and fails on the
    [TypeError] of [items.map]. *)
Lemma guard_passing_order_is_not_placed :
  let item :=
    VObj [("_id", VStr "650000000000000000000001");
          ("name", VStr "Paneer Tikka");
          ("variant", VObj [("label", VStr "Full"); ("price", VNum 240)]);
          ("quantity", VNum 2)] in
  let orderData (items : list value) :=
    VObj [("restoId", VStr "R1"); ("customerPhone", VStr "9999999999");
          ("tableNumber", VStr "7"); ("items", VArr items);
          ("subtotal", VNum 480); ("total", VNum 480)] in
  let w1 := snd (nth_orderId Scenario.env0 0 Scenario.kitchen) in
  (forall items,
     truthy (field "restoId" (orderData items))
     && truthy (field "customerPhone" (orderData items))
     && truthy (field "tableNumber" (orderData items)) = true)
  /\ truthy (optional_length (field "items" (orderData [item]))) = true
  /\ truthy (optional_length (field "items" (orderData [VNull]))) = true
  /\ placeOrderAction Scenario.env0 0 (orderData [item]) Scenario.kitchen
     = Some (Failure (Caught ValidationError), w1)
  /\ placeOrderAction Scenario.env0 0 (orderData [VNull]) Scenario.kitchen
     = Some (Failure (Caught TypeError), w1)
  /\ orders w1 = orders Scenario.kitchen
  /\ published w1 = published Scenario.kitchen.
Proof.
  intros item orderData w1.
  split; [done|]. split; [done|]. split; [done|].
  split; [|split; [|split]].
  - pose proof (placeOrder_outcome Scenario.env0 0 (orderData [item])
                  Scenario.kitchen 0 eq_refl eq_refl eq_refl eq_refl (le_n 0)
                  (fun j Hj => match Nat.nlt_0_r j Hj with end) eq_refl) as H.
    cbv zeta in H.
    assert (M : map_items (field "items" (orderData [item]))
                = Some [VObj [("foodId", VStr "650000000000000000000001");
                              ("name", VStr "Paneer Tikka");
                              ("foodType", VUndefined);
                              ("imageUrl", VStr "");
                              ("variant", VObj [("label", VStr "Full");
                                                ("price", VNum 240)]);
                              ("quantity", VNum 2)]])
      by reflexivity.
    rewrite M in H.
    assert (V : Order_validate Scenario.env0
                  (VObj (order_document
                           (fst (nth_orderId Scenario.env0 0 Scenario.kitchen))
                           (orderData [item])
                           [VObj [("foodId", VStr "650000000000000000000001");
                                  ("name", VStr "Paneer Tikka");
                                  ("foodType", VUndefined);
                                  ("imageUrl", VStr "");
                                  ("variant", VObj [("label", VStr "Full");
                                                    ("price", VNum 240)]);
                                  ("quantity", VNum 2)]]))
                = false) by reflexivity.
    rewrite V in H. exact H.
  - exact (placeOrder_outcome Scenario.env0 0 (orderData [VNull])
             Scenario.kitchen 0 eq_refl eq_refl eq_refl eq_refl (le_n 0)
             (fun j Hj => match Nat.nlt_0_r j Hj with end) eq_refl).
  - apply nth_orderId_orders.
  - pose proof (nth_orderId_counters Scenario.env0 0 Scenario.kitchen) as C.
    fold w1 in C. by rewrite C.
Qed.

Lemma served_order_found :
  findOne Scenario.sample_orderId (orders Scenario.served_world)
  = Some Scenario.served_order.
Proof. reflexivity. Qed.

(** The served order of the scenario is cancelled. *)
Lemma status_update_persists_then_publishes_witness :
  fst (updateOrderStatusAction Scenario.env0 Scenario.sample_orderId
         (VStr "Cancelled") Scenario.served_world)
  = Success (serializePlain
               (set_field "updatedAt"
                  (VDate (Date_now Scenario.env0 (ticks Scenario.served_world)))
                  (set_field "status" (VStr "Cancelled") Scenario.served_order))).
Proof.
  exact (proj1 (status_update_persists_then_publishes Scenario.env0
                  Scenario.sample_orderId (VStr "Cancelled") Scenario.served_world
                  Scenario.served_order eq_refl served_order_found)).
Defined.

(** C1 fails as stated: the served order of the scenario is put back to
    [Placed], and a request for the status it already has succeeds too;
    each call issues its two broadcasts. *)
Lemma served_order_is_reopened :
  let r := updateOrderStatusAction Scenario.env0 Scenario.sample_orderId
             (VStr "Placed") Scenario.served_world in
  let r' := updateOrderStatusAction Scenario.env0 Scenario.sample_orderId
              (VStr "Served") Scenario.served_world in
  (field "status" <$> findOne Scenario.sample_orderId (orders Scenario.served_world))
  = Some (VStr "Served")
  /\ (exists order, fst r = Success order)
  /\ (exists doc, findOne Scenario.sample_orderId (orders (snd r)) = Some doc
                  /\ field "status" doc = VStr "Placed")
  /\ length (published (snd r)) = length (published Scenario.served_world) + 2
  /\ (exists order, fst r' = Success order)
  /\ length (published (snd r')) = length (published Scenario.served_world) + 2.
Proof.
  intros r r'. subst r r'.
  destruct (update_found Scenario.env0 Scenario.sample_orderId (VStr "Placed")
              Scenario.served_world Scenario.served_order eq_refl served_order_found)
    as (o1 & w1 & A1 & _ & _ & A4 & A5 & A6).
  destruct (update_found Scenario.env0 Scenario.sample_orderId (VStr "Served")
              Scenario.served_world Scenario.served_order eq_refl served_order_found)
    as (o2 & w2 & _ & _ & _ & B4 & _ & B6).
  split; [reflexivity|].
  split; [rewrite A4; by eexists|].
  split.
  { rewrite A5. eexists. split; [exact A1|].
    by apply (status_after_update Scenario.sample_orderId). }
  split; [rewrite A6, length_app; simpl; lia|].
  split; [rewrite B4; by eexists|].
  rewrite B6, length_app. simpl. lia.
Qed.

End OrderFacts.

(* ===================================================================== *)
(** ** Facts about the provider *)
(* ===================================================================== *)

Module ClientFacts.
Import JS Client.

#[local] Arguments notifySubscribers : simpl never.
#[local] Arguments subscribers_of : simpl never.

(** *** Subscriptions *)

Lemma subscribers_of_subscribe name name' cb c :
  subscribers_of name (subscribe name' cb c)
  = if String.eqb name name' then set_add cb (subscribers_of name c)
    else subscribers_of name c.
Proof.
  unfold subscribers_of, subscribe. simpl.
  destruct (String.eqb_spec name name') as [->|Hne].
  - rewrite lookup_alter_eq.
    destruct (subscribersRef c !! name') eqn:E; simpl.
    + by rewrite E.
    + by rewrite lookup_insert_eq.
  - rewrite lookup_alter_ne by done.
    destruct (subscribersRef c !! name') eqn:E; [done|].
    by rewrite lookup_insert_ne.
Qed.

Lemma notifySubscribers_name name data c :
  notifySubscribers (VStr name) data c
  = set_invoked (invoked c ++ List.map (fun cb => (cb, data)) (subscribers_of name c)) c.
Proof.
  unfold notifySubscribers, subscribers_of.
  destruct (subscribersRef c !! name); [done|].
  simpl. rewrite app_nil_r. by destruct c.
Qed.

(** What the message handler does with a [ping] frame. *)
Lemma onmessage_ping c :
  onmessage (Some Server.ping_payload) c
  = set_invoked
      (invoked c
       ++ List.map (fun cb => (cb, VUndefined)) (subscribers_of "ping" c)
       ++ List.map (fun cb => (cb, VObj [("event", VStr "ping");
                                         ("data", VUndefined);
                                         ("timestamp", VUndefined)]))
            (subscribers_of "*" c)) c.
Proof.
  unfold onmessage, Server.ping_payload. simpl.
  rewrite !notifySubscribers_name. simpl.
  rewrite <- app_assoc. f_equal.
Qed.

(** C8, as the code has it: on a [ping] frame the handler calls every
    callback subscribed to [ping], with [undefined], and then every
    callback subscribed to [*], with the event object; it calls no other
    callback and changes nothing else. *)
Theorem ping_is_delivered_to_ping_and_wildcard_subscribers (c : State) :
  let c' := onmessage (Some Server.ping_payload) c in
  invoked c'
  = (invoked c
     ++ List.map (fun cb => (cb, VUndefined)) (subscribers_of "ping" c)
     ++ List.map (fun cb => (cb, VObj [("event", VStr "ping");
                                       ("data", VUndefined);
                                       ("timestamp", VUndefined)]))
          (subscribers_of "*" c))%list
  /\ c' = set_invoked (invoked c') c
  /\ (forall es, ready es c = Some OPEN ->
        step c (MessageEvent es (Some Server.ping_payload)) = c').
Proof.
  intros c'. subst c'. rewrite onmessage_ping. simpl.
  split; [done|]. split; [by destruct c|].
  intros es H. unfold step. rewrite H. exact (onmessage_ping c).
Qed.

(** A client with a wildcard subscriber whose connection is open. *)
Lemma ping_is_delivered_to_ping_and_wildcard_subscribers_witness :
  let params := mkParams (VStr "R1") (VStr "admin") VUndefined in
  let c := run [CallSubscribe "*" 7; CallConnect params; OpenEvent 0] initial in
  step c (MessageEvent 0 (Some Server.ping_payload))
  = onmessage (Some Server.ping_payload) c.
Proof.
  intros params c.
  apply (proj2 (proj2 (ping_is_delivered_to_ping_and_wildcard_subscribers c)) 0).
  reflexivity.
Defined.

(** C8 fails as stated: with one callback subscribed to [ping] and one to
    [*], a [ping] frame calls both. *)
Lemma ping_reaches_subscribers :
  let c := subscribe "*" 7 (subscribe "ping" 3 initial) in
  invoked c = []
  /\ invoked (onmessage (Some Server.ping_payload) c)
     = [(3, VUndefined);
        (7, VObj [("event", VStr "ping"); ("data", VUndefined);
                  ("timestamp", VUndefined)])].
Proof.
  intros c. subst c. split; [reflexivity|].
  rewrite onmessage_ping. simpl.
  rewrite !subscribers_of_subscribe. simpl.
  unfold subscribers_of. simpl. by rewrite lookup_empty.
Qed.

(** *** The lifecycle invariant *)

Lemma timer_truthy_pos id : 0 < id -> timer_truthy (Some id) = true.
Proof.
  intros H. unfold timer_truthy. simpl.
  apply negb_true_iff, Z.eqb_neq. lia.
Qed.

Lemma timer_truthy_inv c :
  lifecycle_invariant c ->
  timer_truthy (reconnectTimeoutRef c)
  = match reconnectTimeoutRef c with Some _ => true | None => false end.
Proof.
  intros [_ [_ Hid] _ _]. destruct (reconnectTimeoutRef c) as [id|] eqn:E; [|done].
  apply timer_truthy_pos. by apply Hid.
Qed.

Lemma closed_dec (r : ReadyState) : {r = CLOSED} + {r <> CLOSED}.
Proof. destruct r; (by left) || (by right). Qed.

Lemma close_sources es c es' e' :
  eventSources (close es c) !! es' = Some e' ->
  readyState e' <> CLOSED ->
  es' <> es /\ eventSources c !! es' = Some e'.
Proof.
  unfold close. destruct (eventSources c !! es) as [e|] eqn:E; simpl.
  - destruct (decide (es = es')) as [<-|Hne].
    + rewrite list_lookup_insert_eq by (by eapply lookup_lt_Some).
      intros [= <-]. done.
    + rewrite list_lookup_insert_ne by done. done.
  - intros H _. split; [|done]. intros ->. congruence.
Qed.

Lemma close_other es c :
  close es c = set_eventSources (eventSources (close es c)) c.
Proof.
  unfold close. destruct (eventSources c !! es); by destruct c.
Qed.

Lemma close_ready es c :
  is_Some (ready es c) -> ready es (close es c) = Some CLOSED.
Proof.
  unfold ready, close. intros [r H].
  destruct (eventSources c !! es) as [e|] eqn:E; [|done]. simpl.
  rewrite list_lookup_insert_eq by (by eapply lookup_lt_Some). done.
Qed.

Lemma clearTimeout_single id delay :
  List.filter (fun t : nat * Z => negb (Nat.eqb (fst t) id)) [(id, delay)] = [].
Proof. simpl. by rewrite Nat.eqb_refl. Qed.

Lemma inv_initial : lifecycle_invariant initial.
Proof.
  split; simpl.
  - done.
  - split; [lia|done].
  - done.
  - intros es e H. by rewrite lookup_nil in H.
Qed.

(** A step that leaves the refs, the timers and the instances alone. *)
Lemma inv_ext c c' :
  timers c' = timers c -> nextTimer c' = nextTimer c ->
  reconnectTimeoutRef c' = reconnectTimeoutRef c ->
  connectionParamsRef c' = connectionParamsRef c ->
  eventSources c' = eventSources c -> eventSourceRef c' = eventSourceRef c ->
  lifecycle_invariant c -> lifecycle_invariant c'.
Proof.
  intros H1 H2 H3 H4 H5 H6 [I1 I2 I3 I4].
  split; rewrite ?H1, ?H2, ?H3, ?H4, ?H5, ?H6; done.
Qed.

Lemma inv_subscribe name cb c :
  lifecycle_invariant c -> lifecycle_invariant (subscribe name cb c).
Proof. by apply inv_ext. Qed.

Lemma inv_unsubscribe name cb c :
  lifecycle_invariant c -> lifecycle_invariant (unsubscribe name cb c).
Proof.
  unfold unsubscribe. destruct (subscribersRef c !! name); [|done].
  by apply inv_ext.
Qed.

Lemma notifySubscribers_keeps name data c :
  let c' := notifySubscribers name data c in
  timers c' = timers c /\ nextTimer c' = nextTimer c
  /\ reconnectTimeoutRef c' = reconnectTimeoutRef c
  /\ connectionParamsRef c' = connectionParamsRef c
  /\ eventSources c' = eventSources c /\ eventSourceRef c' = eventSourceRef c
  /\ subscribersRef c' = subscribersRef c /\ isConnected c' = isConnected c
  /\ connectionId c' = connectionId c.
Proof.
  unfold notifySubscribers. destruct name; try done.
  by destruct (subscribersRef c !! s).
Qed.

Lemma onmessage_keeps parsed c :
  let c' := onmessage parsed c in
  timers c' = timers c /\ nextTimer c' = nextTimer c
  /\ reconnectTimeoutRef c' = reconnectTimeoutRef c
  /\ connectionParamsRef c' = connectionParamsRef c
  /\ eventSources c' = eventSources c /\ eventSourceRef c' = eventSourceRef c
  /\ subscribersRef c' = subscribersRef c /\ isConnected c' = isConnected c.
Proof.
  unfold onmessage. destruct parsed as [data|]; [|done].
  destruct (get "event" data) as [name|]; [|done].
  cbv zeta.
  set (c1 := if strict_eq name (VStr "connected")
             then set_connectionId (field "connectionId" data) c else c).
  destruct (notifySubscribers_keeps (VStr "*")
              (VObj [("event", name); ("data", field "data" data);
                     ("timestamp", field "timestamp" data)])
              (notifySubscribers name (field "data" data) c1))
    as (A1 & A2 & A3 & A4 & A5 & A6 & A7 & A8 & _).
  destruct (notifySubscribers_keeps name (field "data" data) c1)
    as (B1 & B2 & B3 & B4 & B5 & B6 & B7 & B8 & _).
  rewrite A1, A2, A3, A4, A5, A6, A7, A8, B1, B2, B3, B4, B5, B6, B7, B8.
  unfold c1. by destruct (strict_eq name (VStr "connected")).
Qed.

Lemma inv_onmessage parsed c :
  lifecycle_invariant c -> lifecycle_invariant (onmessage parsed c).
Proof.
  destruct (onmessage_keeps parsed c) as (A1 & A2 & A3 & A4 & A5 & A6 & _).
  by apply inv_ext.
Qed.

Lemma inv_connect params c :
  lifecycle_invariant c -> lifecycle_invariant (connect params c).
Proof.
  intros Hc. pose proof Hc as [I1 I2 [I3 I3'] I4]. unfold connect.
  destruct (truthy (p_restaurantId params)) eqn:Tr; cbn [negb orb]; [|done].
  destruct (truthy (p_type params)) eqn:Tt; cbn [negb orb]; [|done].
  cbv zeta.
  set (c1 := set_connectionParamsRef (Some params) c).
  set (c2 := match eventSourceRef c1 with Some es => close es c1 | None => c1 end).
  assert (Hc2 : c2 = set_eventSources (eventSources c2) c1).
  { unfold c2. destruct (eventSourceRef c1); [apply close_other|by destruct c]. }
  assert (Hclosed : forall es e, eventSources c2 !! es = Some e ->
                                 readyState e = CLOSED).
  { intros es e He. destruct (closed_dec (readyState e)) as [|Hn]; [done|].
    exfalso. unfold c2 in He. simpl in He.
    destruct (eventSourceRef c) as [r|] eqn:Er.
    - apply close_sources in He as [Hne He]; [|done]. simpl in He.
      destruct (I4 _ _ He Hn) as [? _]. congruence.
    - simpl in He. destruct (I4 _ _ He Hn) as [? _]. congruence. }
  rewrite Hc2. split; simpl.
  - exact I1.
  - exact I2.
  - split; [done|]. intros p [= <-]. done.
  - intros es e He Hn.
    destruct (decide (es < length (eventSources c2))) as [Hlt|Hge].
    + rewrite lookup_app_l in He by done. by destruct (Hn (Hclosed _ _ He)).
    + assert (es = length (eventSources c2)) as ->.
      { apply lookup_lt_Some in He. rewrite length_app in He. simpl in He. lia. }
      done.
Qed.

Lemma inv_clear_timer c :
  lifecycle_invariant c ->
  lifecycle_invariant
    (if timer_truthy (reconnectTimeoutRef c) then
       match reconnectTimeoutRef c with
       | Some id => set_reconnectTimeoutRef None (clearTimeout id c)
       | None => c
       end
     else c)
  /\ timers (if timer_truthy (reconnectTimeoutRef c) then
               match reconnectTimeoutRef c with
               | Some id => set_reconnectTimeoutRef None (clearTimeout id c)
               | None => c
               end
             else c) = [].
Proof.
  intros Hc. pose proof Hc as [I1 [I2 I2'] [I3 I3'] I4].
  rewrite (timer_truthy_inv c Hc).
  destruct (reconnectTimeoutRef c) as [id|] eqn:E.
  - split; [|simpl; rewrite I1; apply clearTimeout_single].
    split; simpl.
    + rewrite I1. apply clearTimeout_single.
    + split; [done|]. intros ? [=].
    + split; [intros ? [=]|done].
    + exact I4.
  - split; [exact Hc|exact I1].
Qed.

Lemma inv_disconnect c :
  lifecycle_invariant c -> lifecycle_invariant (disconnect c).
Proof.
  intros Hc. pose proof Hc as [I1 I2 [I3 I3'] I4]. unfold disconnect.
  set (c1 := match eventSourceRef c with
             | Some es => set_eventSourceRef None (close es c)
             | None => c
             end).
  set (c2 := set_connectionParamsRef None (set_connectionId VNull (set_isConnected false c1))).
  assert (Hc1 : c1 = set_eventSourceRef (eventSourceRef c1)
                       (set_eventSources (eventSources c1) c)).
  { unfold c1. destruct (eventSourceRef c); [|by destruct c].
    rewrite close_other at 1. done. }
  assert (Hclosed : forall es e, eventSources c1 !! es = Some e ->
                                 readyState e = CLOSED).
  { intros es e He. destruct (closed_dec (readyState e)) as [|Hn]; [done|].
    exfalso. unfold c1 in He.
    destruct (eventSourceRef c) as [r|] eqn:Er; simpl in He.
    - apply close_sources in He as [Hne He]; [|done].
      destruct (I4 _ _ He Hn) as [? _]. congruence.
    - destruct (I4 _ _ He Hn) as [? _]. congruence. }
  assert (Hr : reconnectTimeoutRef c2 = reconnectTimeoutRef c)
    by (unfold c2; rewrite Hc1; done).
  assert (Ht : timers c2 = timers c) by (unfold c2; rewrite Hc1; done).
  assert (Hn : nextTimer c2 = nextTimer c) by (unfold c2; rewrite Hc1; done).
  assert (Hs : eventSources c2 = eventSources c1) by done.
  rewrite Hr.
  rewrite (timer_truthy_inv c Hc).
  destruct (reconnectTimeoutRef c) as [id|] eqn:E.
  - split; simpl.
    + fold c1. rewrite Hc1. simpl. rewrite I1. apply clearTimeout_single.
    + fold c1. rewrite Hc1. simpl. destruct I2 as [I2 _]. split; [done|]. intros ? [=].
    + split; [intros ? [=]|intros ? [=]].
    + fold c1. intros es e He Hne. by destruct (Hne (Hclosed _ _ He)).
  - split.
    + rewrite Ht, Hr. exact I1.
    + rewrite Hn, Hr. destruct I2 as [I2 _]. split; [done|]. intros ? [=].
    + rewrite Hr. split; [intros ? [=]|intros ? [=]].
    + rewrite Hs. intros es e He Hne. by destruct (Hne (Hclosed _ _ He)).
Qed.

Lemma set_ready_other es r c :
  set_ready es r c = set_eventSources (eventSources (set_ready es r c)) c.
Proof. unfold set_ready. destruct (eventSources c !! es); by destruct c. Qed.

Lemma set_ready_ready es r c :
  is_Some (ready es c) -> ready es (set_ready es r c) = Some r.
Proof.
  unfold ready, set_ready. intros [x H].
  destruct (eventSources c !! es) as [e|] eqn:E; [|done]. simpl.
  rewrite list_lookup_insert_eq by (by eapply lookup_lt_Some). done.
Qed.

Lemma inv_set_ready es r c :
  (exists r0, ready es c = Some r0 /\ r0 <> CLOSED) ->
  lifecycle_invariant c -> lifecycle_invariant (set_ready es r c).
Proof.
  intros (r0 & Hr0 & Hn0) [I1 I2 I3 I4]. rewrite set_ready_other.
  split; simpl; try done.
  intros es' e' He' Hne'.
  unfold ready in Hr0. destruct (eventSources c !! es) as [e|] eqn:E; [|done].
  injection Hr0 as <-.
  destruct (decide (es' = es)) as [->|Hd].
  - by apply (I4 es e).
  - unfold set_ready in He'. rewrite E in He'. simpl in He'.
    rewrite list_lookup_insert_ne in He' by done. by apply (I4 es' e').
Qed.

Lemma inv_onopen c :
  lifecycle_invariant c ->
  lifecycle_invariant (onopen c) /\ timers (onopen c) = []
  /\ reconnectTimeoutRef (onopen c) = None /\ isConnected (onopen c) = true
  /\ eventSources (onopen c) = eventSources c.
Proof.
  intros Hc. unfold onopen.
  assert (Hc' : lifecycle_invariant (set_isConnected true c)) by (by apply (inv_ext c)).
  destruct (inv_clear_timer _ Hc') as [H1 H2].
  split; [exact H1|]. split; [exact H2|].
  rewrite (timer_truthy_inv _ Hc').
  change (reconnectTimeoutRef (set_isConnected true c)) with (reconnectTimeoutRef c).
  destruct (reconnectTimeoutRef c) eqn:E; repeat split; try reflexivity; exact E.
Qed.

Lemma inv_onerror es c :
  lifecycle_invariant c -> lifecycle_invariant (onerror es c).
Proof.
  intros Hc. pose proof Hc as [I1 [I2 I2'] [I3 I3'] I4]. unfold onerror.
  set (c1 := close es (set_isConnected false c)).
  assert (Hc1 : c1 = set_eventSources (eventSources c1) (set_isConnected false c))
    by apply close_other.
  assert (H4 : forall es' e', eventSources c1 !! es' = Some e' ->
                 readyState e' <> CLOSED ->
                 eventSourceRef c = Some es' /\ connectionParamsRef c <> None).
  { intros es' e' He Hn. apply close_sources in He as [_ He]; [|done].
    by apply (I4 es' e'). }
  assert (Hi1 : lifecycle_invariant c1).
  { rewrite Hc1. split; simpl; try done. }
  assert (Hr : reconnectTimeoutRef c1 = reconnectTimeoutRef c) by (rewrite Hc1; done).
  assert (Hp : connectionParamsRef c1 = connectionParamsRef c) by (rewrite Hc1; done).
  rewrite (timer_truthy_inv _ Hi1), Hr, Hp.
  destruct (reconnectTimeoutRef c) as [id|] eqn:E; simpl; [done|].
  destruct (connectionParamsRef c) as [params|] eqn:Ep; simpl; [|done].
  rewrite Hc1. split; simpl.
  - by rewrite I1.
  - split; [lia|]. intros id [= <-]. lia.
  - rewrite Ep. split; [done|exact I3'].
  - intros es' e' He Hn. destruct (H4 es' e' He Hn) as [Ha Hb].
    split; [exact Ha|]. rewrite ?Ep. done.
Qed.

Lemma inv_timeout id c :
  lifecycle_invariant c ->
  existsb (fun t : nat * Z => Nat.eqb (fst t) id) (timers c) = true ->
  lifecycle_invariant (reconnect (clearTimeout id c))
  /\ reconnectTimeoutRef c = Some id.
Proof.
  intros Hc Hin. pose proof Hc as [I1 [I2 I2'] [I3 I3'] I4].
  destruct (reconnectTimeoutRef c) as [id'|] eqn:E; [|by rewrite I1 in Hin].
  rewrite I1 in Hin. simpl in Hin. rewrite orb_false_r in Hin.
  apply Nat.eqb_eq in Hin. subst id'. split; [|done].
  unfold reconnect.
  set (c1 := set_reconnectTimeoutRef None (clearTimeout id c)).
  assert (Hi1 : lifecycle_invariant c1).
  { split; simpl.
    - rewrite I1. apply clearTimeout_single.
    - split; [done|]. intros ? [=].
    - split; [intros ? [=]|done].
    - exact I4. }
  change (connectionParamsRef c1) with (connectionParamsRef c).
  destruct (connectionParamsRef c); [by apply inv_connect|done].
Qed.

Lemma inv_step c e :
  lifecycle_invariant c -> lifecycle_invariant (step c e).
Proof.
  intros Hc. destruct e as [params| |name cb|name cb|es|es parsed|es|id]; simpl.
  - by apply inv_connect.
  - by apply inv_disconnect.
  - by apply inv_subscribe.
  - by apply inv_unsubscribe.
  - destruct (ready es c) as [[| |]|] eqn:R; try done.
    apply inv_onopen, inv_set_ready; [|done]. by exists CONNECTING.
  - destruct (ready es c) as [[| |]|]; try done. by apply inv_onmessage.
  - destruct (ready es c) as [[| |]|]; try done; by apply inv_onerror.
  - destruct (existsb _ _) eqn:Hin; [|done]. by apply inv_timeout.
Qed.

Lemma inv_run events : forall c,
  lifecycle_invariant c -> lifecycle_invariant (run events c).
Proof.
  induction events as [|e events IH]; intros c Hc; [done|].
  apply IH. by apply inv_step.
Qed.

(** *** What the handlers do to the timers and the subscriptions *)

Lemma close_subscribers es c : subscribersRef (close es c) = subscribersRef c.
Proof. unfold close. by destruct (eventSources c !! es). Qed.

Lemma connect_subscribers params c :
  subscribersRef (connect params c) = subscribersRef c.
Proof.
  unfold connect. destruct (negb _ || negb _); [done|]. simpl.
  destruct (eventSourceRef c); [|done]. by rewrite close_subscribers.
Qed.

Lemma step_subscribers c e :
  match e with
  | CallSubscribe _ _ | CallUnsubscribe _ _ => True
  | _ => subscribersRef (step c e) = subscribersRef c
  end.
Proof.
  destruct e as [params| |name cb|name cb|es|es parsed|es|id]; simpl; try done.
  - apply connect_subscribers.
  - unfold disconnect. simpl.
    destruct (timer_truthy _); [destruct (reconnectTimeoutRef _)|];
      simpl; destruct (eventSourceRef c); simpl; rewrite ?close_subscribers; done.
  - destruct (ready es c) as [[| |]|]; try done.
    unfold onopen, set_ready. simpl.
    destruct (timer_truthy _); [destruct (reconnectTimeoutRef _)|];
      simpl; by destruct (eventSources c !! es).
  - destruct (ready es c) as [[| |]|]; try done.
    by destruct (onmessage_keeps parsed c) as (_ & _ & _ & _ & _ & _ & H & _).
  - assert (H : subscribersRef (onerror es c) = subscribersRef c).
    { unfold onerror. destruct (negb _ && _); simpl; by rewrite close_subscribers. }
    by destruct (ready es c) as [[| |]|].
  - destruct (existsb _ _); [|done]. unfold reconnect. simpl.
    destruct (connectionParamsRef c); [|done]. by rewrite connect_subscribers.
Qed.

Lemma connect_spec params c :
  connectable params ->
  timers (connect params c) = timers c
  /\ reconnectTimeoutRef (connect params c) = reconnectTimeoutRef c
  /\ connectionParamsRef (connect params c) = Some params
  /\ exists es, eventSourceRef (connect params c) = Some es
                /\ ready es (connect params c) = Some CONNECTING.
Proof.
  intros [Hr Ht]. unfold connect. rewrite Hr, Ht. cbn [negb orb]. cbv zeta.
  set (c1 := set_connectionParamsRef (Some params) c).
  set (c2 := match eventSourceRef c1 with Some es => close es c1 | None => c1 end).
  assert (Hc2 : c2 = set_eventSources (eventSources c2) c1).
  { unfold c2. destruct (eventSourceRef c1); [apply close_other|by destruct c]. }
  rewrite Hc2. simpl. repeat split.
  eexists. split; [reflexivity|]. unfold ready. simpl.
  rewrite lookup_app_r by lia. by rewrite Nat.sub_diag.
Qed.

Lemma onerror_spec es c :
  lifecycle_invariant c ->
  ready es c = Some CONNECTING \/ ready es c = Some OPEN ->
  ready es (onerror es c) = Some CLOSED
  /\ isConnected (onerror es c) = false
  /\ (timers c = [] ->
      exists id, timers (onerror es c) = [(id, 5000%Z)]
                 /\ reconnectTimeoutRef (onerror es c) = Some id)
  /\ (timers c <> [] -> timers (onerror es c) = timers c).
Proof.
  intros Hc Hready. pose proof Hc as [I1 [I2 I2'] [I3 I3'] I4].
  assert (Hsome : is_Some (ready es c)) by (destruct Hready as [-> | ->]; by eexists).
  assert (Hp : connectionParamsRef c <> None).
  { unfold ready in Hready.
    destruct (eventSources c !! es) as [e|] eqn:E; [|by destruct Hready].
    apply (I4 es e E). simpl in Hready. destruct Hready as [[= ->] | [= ->]]; done. }
  unfold onerror. cbv zeta.
  set (c1 := close es (set_isConnected false c)).
  assert (Hc1 : c1 = set_eventSources (eventSources c1) (set_isConnected false c))
    by apply close_other.
  assert (Hr1 : ready es c1 = Some CLOSED) by (by apply close_ready).
  assert (E1 : reconnectTimeoutRef c1 = reconnectTimeoutRef c) by (by rewrite Hc1).
  assert (E2 : connectionParamsRef c1 = connectionParamsRef c) by (by rewrite Hc1).
  assert (E3 : timers c1 = timers c) by (by rewrite Hc1).
  assert (E4 : isConnected c1 = false) by (by rewrite Hc1).
  assert (E5 : nextTimer c1 = nextTimer c) by (by rewrite Hc1).
  rewrite E1, E2.
  destruct (reconnectTimeoutRef c) as [id|] eqn:E.
  - rewrite timer_truthy_pos by (by apply I2'). simpl.
    repeat split; try done. intros H. by rewrite I1 in H.
  - destruct (connectionParamsRef c) as [params|]; [|done]. simpl.
    unfold ready. simpl. fold (ready es c1).
    split; [done|]. split; [done|]. split.
    + intros _. exists (nextTimer c1). by rewrite E3, I1.
    + intros H. by rewrite I1 in H.
Qed.

(** What holds in every state that satisfies the invariant. *)
Lemma lifecycle_facts c :
  lifecycle_invariant c ->
  length (timers c) <= 1
  /\ (forall es, ready es c = Some CONNECTING \/ ready es c = Some OPEN ->
        let c' := step c (ErrorEvent es) in
        ready es c' = Some CLOSED /\ isConnected c' = false
        /\ (timers c = [] ->
            exists id, timers c' = [(id, 5000%Z)]
                       /\ reconnectTimeoutRef c' = Some id)
        /\ (timers c <> [] -> timers c' = timers c))
  /\ (forall es, ready es c = Some CONNECTING ->
        let c' := step c (OpenEvent es) in
        timers c' = [] /\ reconnectTimeoutRef c' = None
        /\ isConnected c' = true /\ ready es c' = Some OPEN)
  /\ (forall id delay, In (id, delay) (timers c) ->
        let c' := step c (Timeout id) in
        delay = 5000%Z /\ timers c' = []
        /\ exists es, eventSourceRef c' = Some es
                      /\ ready es c' = Some CONNECTING)
  /\ (forall e,
        match e with
        | CallSubscribe _ _ | CallUnsubscribe _ _ => True
        | _ => subscribersRef (step c e) = subscribersRef c
        end).
Proof.
  intros Hc. pose proof Hc as [I1 [I2 I2'] [I3 I3'] I4].
  split; [|split; [|split; [|split]]].
  - rewrite I1. destruct (reconnectTimeoutRef c); simpl; lia.
  - intros es Hready c'. subst c'.
    assert (step c (ErrorEvent es) = onerror es c) as ->.
    { simpl. by destruct Hready as [-> | ->]. }
    by apply onerror_spec.
  - intros es Hready c'. subst c'. simpl. rewrite Hready.
    assert (Hi : lifecycle_invariant (set_ready es OPEN c)).
    { apply inv_set_ready; [|done]. by exists CONNECTING. }
    destruct (inv_onopen _ Hi) as (_ & H1 & H2 & H3 & H4).
    do 3 (split; [done|]).
    unfold ready. rewrite H4. fold (ready es (set_ready es OPEN c)).
    apply set_ready_ready. rewrite Hready. by eexists.
  - intros id delay Hin c'. subst c'.
    destruct (reconnectTimeoutRef c) as [id'|] eqn:E; rewrite I1 in Hin; [|done].
    destruct Hin as [[= <- <-]|[]]. split; [done|].
    simpl. rewrite I1. simpl. rewrite Nat.eqb_refl. simpl.
    unfold reconnect. simpl.
    destruct (connectionParamsRef c) as [params|] eqn:Ep; [|by destruct (I3 id')].
    destruct (connect_spec params
                (set_reconnectTimeoutRef None (clearTimeout id' c)) (I3' _ eq_refl))
      as (H1 & _ & _ & H4).
    split; [|exact H4]. rewrite H1. simpl. rewrite I1. apply clearTimeout_single.
  - apply step_subscribers.
Qed.

(** C9: in every state the lifecycle can reach there is at most one
    pending timeout.  An error on a live [EventSource] closes it and
    marks the client disconnected; if no timeout is pending it schedules
    exactly one, of 5000 ms, and if one is pending it schedules nothing.
    Opening a connection clears the pending timeout.  A timeout that
    fires leaves none pending and starts a new connection.  No event
    other than a call of [subscribe] or of an unsubscribe function
    changes the subscriptions. *)
Theorem at_most_one_reconnect_timer (events : list Event) :
  let c := run events initial in
  length (timers c) <= 1
  /\ (forall es, ready es c = Some CONNECTING \/ ready es c = Some OPEN ->
        let c' := step c (ErrorEvent es) in
        ready es c' = Some CLOSED /\ isConnected c' = false
        /\ (timers c = [] ->
            exists id, timers c' = [(id, 5000%Z)]
                       /\ reconnectTimeoutRef c' = Some id)
        /\ (timers c <> [] -> timers c' = timers c))
  /\ (forall es, ready es c = Some CONNECTING ->
        let c' := step c (OpenEvent es) in
        timers c' = [] /\ reconnectTimeoutRef c' = None
        /\ isConnected c' = true /\ ready es c' = Some OPEN)
  /\ (forall id delay, In (id, delay) (timers c) ->
        let c' := step c (Timeout id) in
        delay = 5000%Z /\ timers c' = []
        /\ exists es, eventSourceRef c' = Some es
                      /\ ready es c' = Some CONNECTING)
  /\ (forall e,
        match e with
        | CallSubscribe _ _ | CallUnsubscribe _ _ => True
        | _ => subscribersRef (step c e) = subscribersRef c
        end).
Proof. apply lifecycle_facts, inv_run, inv_initial. Qed.

(** A customer subscribes, connects, the connection opens and then
    breaks: one timeout of 5 s is pending, and a second error on the
    connection the application opens meanwhile adds none. *)
Lemma at_most_one_reconnect_timer_witness :
  let params := mkParams (VStr "R1") (VStr "customer") (VStr "9999999999") in
  let c := run [CallSubscribe "order:status_changed" 1; CallConnect params;
                OpenEvent 0] initial in
  let c' := step c (ErrorEvent 0) in
  ready 0 c' = Some CLOSED /\ isConnected c' = false
  /\ (timers c = [] ->
      exists id, timers c' = [(id, 5000%Z)] /\ reconnectTimeoutRef c' = Some id)
  /\ (timers c <> [] -> timers c' = timers c).
Proof.
  intros params c.
  apply (proj1 (proj2 (at_most_one_reconnect_timer
                         [CallSubscribe "order:status_changed" 1;
                          CallConnect params; OpenEvent 0])) 0).
  right. reflexivity.
Defined.

End ClientFacts.

(* ===================================================================== *)
(** ** Further facts about the server *)
(* ===================================================================== *)

Module MoreServerFacts.
Import JS Server ServerFacts OrderFacts.

#[local] Arguments pruned : simpl never.
#[local] Arguments delivered : simpl never.
#[local] Arguments selected_on : simpl never.

Section More.
Context (env : Env).

(** *** The admin broadcast *)

Lemma publish_entry sel event data w m k c :
  sseConnections w = Some m -> m !! k = Some c ->
  exists m', sseConnections (snd (publish env sel event data w)) = Some m'
    /\ m' !! k = if selects sel c && negb (accepts (streams w) (controller c))
                    && negb (stringify_throws data)
                 then None else Some c.
Proof.
  intros Hm Hk. destruct (stringify_throws data) eqn:Ht.
  { destruct (publish_throws env sel event data w m Hm Ht) as (_ & -> & _).
    exists m. by rewrite andb_false_r. }
  rewrite publish_broadcast.
  destruct (broadcast _ _ _ _ _) as [r w'] eqn:E.
  apply (broadcast_spec env _ _ _ _ m) in E; [|done|done].
  destruct E as (_ & E & _). simpl in *. eexists. split; [exact E|].
  rewrite andb_true_r. by apply pruned_entry.
Qed.

Lemma publish_ticks sel event data w m :
  sseConnections w = Some m ->
  ticks (snd (publish env sel event data w)) = S (ticks w).
Proof.
  intros Hm. rewrite publish_broadcast.
  destruct (stringify_throws data) eqn:Ht.
  { by rewrite (broadcast_throws env _ _ _ _ m). }
  destruct (broadcast _ _ _ _ _) as [r w'] eqn:E.
  apply (broadcast_spec env _ _ _ _ m) in E; [|done|done].
  destruct E as (_ & _ & _ & _ & ->). done.
Qed.

(** An admin broadcast appends its frame to the stream of a registered
    connection exactly when the connection belongs to restaurant [R] and
    has type [admin]; the connection stays in the map unless it was
    selected and its stream refused the frame.  This is so for every
    data that [JSON.stringify] serializes; for data it refuses no stream
    and no entry changes. *)
Theorem admin_broadcast_addressing (R : value) (event : string) (data : value)
    (w : World) (m : gmap string Conn) (k : string) (c : Conn) (s : Stream) :
  sseConnections w = Some m -> own_streams w ->
  m !! k = Some c -> streams w !! controller c = Some s ->
  let frame := sse_frame (envelope event data (Date_now env (ticks w))) in
  let selected := strict_eq (restaurantId c) R && strict_eq (type c) (VStr "admin") in
  let serialized := negb (stringify_throws data) in
  let w' := snd (broadcastToAdminAction env R event data w) in
  streams w' !! controller c
  = Some (if selected && serialized then extended frame 1 s else s)
  /\ exists m', sseConnections w' = Some m'
       /\ m' !! k = if selected && negb (readable s) && serialized
                    then None else Some c.
Proof.
  intros Hm Hown Hk Hs frame selected serialized w'. subst w'.
  rewrite publish_admin. split.
  - apply (publish_stream env (ToAdmin R) event data w m k c s Hm Hown Hk Hs).
  - destruct (publish_entry (ToAdmin R) event data w m k c Hm Hk) as (m' & H1 & H2).
    exists m'. split; [exact H1|]. rewrite H2. unfold accepts. by rewrite Hs.
Qed.

(** *** A status update, end to end *)

(** After [updateOrderStatusAction] on an existing order, the stream of
    a registered connection whose stream is readable holds one more
    frame exactly when the connection is in one of the two audiences:
    the [order:status_changed] frame for a customer connection of the
    order's restaurant with the order's phone, the [order:updated] frame
    for an admin connection of that restaurant.  Every other connection,
    those of other restaurants in particular, receives nothing.  This is
    so when [JSON.stringify] serializes the payload; when the stored
    order holds a value it refuses, both broadcasts fail and no
    connection receives anything. *)
Theorem status_update_reaches_only_its_audience (orderId : string)
    (newStatus : value) (w : World) (doc : value) (m : gmap string Conn)
    (k : string) (c : Conn) (s : Stream) :
  includes validStatuses newStatus = true ->
  findOne orderId (orders w) = Some doc ->
  sseConnections w = Some m -> own_streams w ->
  m !! k = Some c -> streams w !! controller c = Some s -> readable s = true ->
  let updated :=
    set_field "updatedAt" (VDate (Date_now env (ticks w)))
      (set_field "status" newStatus doc) in
  let payload :=
    VObj [("orderId", field "orderId" updated); ("status", newStatus);
          ("order", serializePlain updated)] in
  let to_customer :=
    sse_frame (envelope ORDER_STATUS_CHANGED payload (Date_now env (S (ticks w)))) in
  let to_admin :=
    sse_frame (envelope ORDER_UPDATED payload (Date_now env (S (S (ticks w))))) in
  let is_customer :=
    strict_eq (restaurantId c) (field "restoId" doc)
    && strict_eq (type c) (VStr "customer")
    && strict_eq (customerPhone c) (field "customerPhone" doc) in
  let is_admin :=
    strict_eq (restaurantId c) (field "restoId" doc)
    && strict_eq (type c) (VStr "admin") in
  let serialized := negb (stringify_throws payload) in
  streams (snd (updateOrderStatusAction env orderId newStatus w)) !! controller c
  = Some (mkStream true
            (chunks s
             ++ (if is_customer && serialized then [to_customer] else [])
             ++ (if is_admin && serialized then [to_admin] else []))).
Proof.
  intros Hv Hf Hm Hown Hk Hs Hr updated payload to_customer to_admin
    is_customer is_admin serialized.
  destruct (update_found env orderId newStatus w doc Hv Hf)
    as (orders' & w1 & _ & _ & Hw1 & Heq & _).
  fold updated in Heq. fold payload in Heq.
  assert (Hrid : field "restoId" updated = field "restoId" doc)
    by (unfold updated; by rewrite field_status_update).
  assert (Hph : field "customerPhone" updated = field "customerPhone" doc)
    by (unfold updated; by rewrite field_status_update).
  rewrite Hrid, Hph in Heq. rewrite Heq. unfold snd at 1.
  rewrite publish_customer, publish_admin.
  set (customers := ToCustomer (field "restoId" doc) (field "customerPhone" doc)).
  set (admins := ToAdmin (field "restoId" doc)).
  assert (Hm1 : sseConnections w1 = Some m) by (by rewrite Hw1).
  assert (Hown1 : own_streams w1).
  { revert Hown. apply own_streams_shrink; rewrite Hw1; simpl; [|lia].
    intros m' ->. by exists m'. }
  assert (Hs1 : streams w1 !! controller c = Some s) by (by rewrite Hw1).
  assert (Ht1 : ticks w1 = S (ticks w)) by (by rewrite Hw1).
  set (w2 := snd (publish env customers ORDER_STATUS_CHANGED payload w1)).
  pose proof (publish_stream env customers ORDER_STATUS_CHANGED payload
                w1 m k c s Hm1 Hown1 Hk Hs1) as Hs2.
  fold w2 in Hs2. rewrite Ht1 in Hs2. fold to_customer in Hs2.
  change (selects customers c) with is_customer in Hs2.
  destruct (publish_entry customers ORDER_STATUS_CHANGED payload w1 m k c Hm1 Hk)
    as (m2 & Hm2 & Hk2).
  fold w2 in Hm2. unfold accepts in Hk2. rewrite Hs1, Hr in Hk2.
  rewrite andb_false_r in Hk2. cbn [andb] in Hk2.
  fold serialized in Hs2.
  assert (Hown2 : own_streams w2) by (by apply own_streams_publish).
  assert (Ht2 : ticks w2 = S (S (ticks w))).
  { unfold w2. rewrite (publish_ticks _ _ _ _ m Hm1). by rewrite Ht1. }
  pose proof (publish_stream env admins ORDER_UPDATED payload
                w2 m2 k c _ Hm2 Hown2 Hk2 Hs2) as Hs3.
  rewrite Ht2 in Hs3. fold to_admin in Hs3. fold serialized in Hs3.
  change (selects admins c) with is_admin in Hs3.
  rewrite Hs3. f_equal. unfold extended. rewrite Hr.
  clear Hs1 Hs2 Hs3 Hs Hk2. clearbody is_customer is_admin serialized.
  destruct s as [rd ch]. simpl in Hr. subst rd.
  destruct is_customer, is_admin, serialized; simpl;
    rewrite ?app_nil_r, <- ?app_assoc; done.
Qed.

(** *** Every connection keeps a stream of its own, always *)

Lemma own_streams_same w w' :
  sseConnections w' = sseConnections w -> streams w' = streams w ->
  own_streams w -> own_streams w'.
Proof.
  intros H1 H2. apply own_streams_shrink; rewrite ?H1, ?H2; [|lia].
  intros m' ->. by exists m'.
Qed.

Lemma own_streams_update orderId newStatus w :
  own_streams w -> own_streams (snd (updateOrderStatusAction env orderId newStatus w)).
Proof.
  intros Hw. destruct (includes validStatuses newStatus) eqn:Hv.
  - destruct (findOne orderId (orders w)) as [doc|] eqn:Hf.
    + destruct (update_found env orderId newStatus w doc Hv Hf)
        as (orders' & w1 & _ & _ & Hw1 & Heq & _).
      rewrite Heq. unfold snd at 1. rewrite publish_customer, publish_admin.
      do 2 apply own_streams_publish.
      revert Hw. apply own_streams_same; by rewrite Hw1.
    + rewrite update_not_found by done. revert Hw. by apply own_streams_same.
  - by rewrite update_invalid.
Qed.

Lemma placeOrder_net fuel orderData w r w' :
  placeOrderAction env fuel orderData w = Some (r, w') ->
  exists w0, sseConnections w0 = sseConnections w /\ streams w0 = streams w
    /\ (w' = w0 \/ exists sel event data, w' = snd (publish env sel event data w0)).
Proof.
  intros H. unfold placeOrderAction in H.
  destruct (nullish orderData).
  { injection H as <- <-. exists w. auto. }
  destruct (negb _ || negb _ || negb _ || negb _).
  { injection H as <- <-. exists w. auto. }
  destruct (generateOrderId env w) as [id0 w0] eqn:G.
  pose proof (generateOrderId_counters env w) as C0. rewrite G in C0. simpl in C0.
  destruct (regenerate env fuel id0 w0) as [[id1 w1]|] eqn:R; [|done].
  apply regenerate_counters in R as [C1 _].
  pose proof (only_counters_trans _ _ _ C0 C1) as C. unfold only_counters in C.
  assert (Sw : streams w1 = streams w) by (rewrite C; reflexivity).
  assert (Mw : sseConnections w1 = sseConnections w) by (rewrite C; reflexivity).
  clear C C0 C1.
  destruct (map_items (field "items" orderData)) as [mapped|] eqn:M.
  2:{ injection H as <- <-. exists w1. auto. }
  unfold Order_create in H.
  destruct (Order_validate env _) eqn:V.
  2:{ injection H as <- <-. exists w1. auto. }
  cbn [fresh_oid now] in H. unfold push_profile_order, now in H.
  cbv beta iota zeta in H.
  rewrite publish_admin in H.
  match type of H with
  | context [publish env ?sel ?e ?d ?w0] =>
      exists w0; split; [exact Mw|]; split; [exact Sw|];
      right; exists sel, e, d;
      destruct (publish env sel e d w0) as [r2 w2]; by injection H as <- <-
  end.
Qed.

(** In every world the server can reach, each connection of the map has
    a stream of its own in the heap: no two entries share a controller
    and no entry points outside the heap. *)
Theorem reachable_own_streams (w : World) :
  reachable env w -> own_streams w.
Proof.
  induction 1 as [|request w _ IH|connectionId h w _ IH|h w _ IH
                  |connectionId h w _ IH|sel event data w _ IH
                  |fuel orderData w r w' _ IH Hp|orderId newStatus w _ IH].
  - apply own_streams_initial.
  - by apply own_streams_GET.
  - by apply own_streams_pingTick.
  - by apply own_streams_peerGone.
  - by apply own_streams_onAbort.
  - by apply own_streams_publish.
  - apply placeOrder_net in Hp as (w0 & H1 & H2 & [->|(sel & e & d & ->)]).
    + revert IH. by apply own_streams_same.
    + apply own_streams_publish. revert IH. by apply own_streams_same.
  - by apply own_streams_update.
Qed.

(** *** The endpoint *)

(** A request without a [restaurantId], or with an empty one, is
    answered by the 400 response: no stream is created, no connection is
    stored, no interval is started and the clock is not read. *)
Theorem GET_without_restaurantId (request : Request) (w : World) :
  q_restaurantId request = None \/ q_restaurantId request = Some "" ->
  let r := GET env request w in
  fst r = BadRequest "Missing restaurantId"
  /\ streams (snd r) = streams w
  /\ pingIntervals (snd r) = pingIntervals w
  /\ ticks (snd r) = ticks w
  /\ sseConnections (snd r)
     = Some (match sseConnections w with Some m => m | None => ∅ end).
Proof.
  intros H r. subst r. rewrite GET_rejects.
  - unfold route_module.
    destruct (sseConnections w) eqn:E; simpl; rewrite ?E; done.
  - by destruct H as [-> | ->].
Qed.

(** A request with a [restaurantId] is always registered: the response
    is a new readable stream that holds the [connected] frame, the map
    holds the new connection under its id, every entry under another id
    is as it was, and a keep-alive interval is running for the stream. *)
Theorem GET_registers (request : Request) (w : World) (r : string) :
  q_restaurantId request = Some r -> r <> "" ->
  let h := length (streams w) in
  let connectionId :=
    make_connectionId (searchParam (q_type request)) (VStr r)
      (searchParam (q_customerPhone request)) (Date_now env (ticks w)) in
  let res := GET env request w in
  fst res = EventStream h
  /\ streams (snd res) !! h
     = Some (mkStream true [sse_frame (connected_payload connectionId)])
  /\ (forall h', h' < h -> streams (snd res) !! h' = streams w !! h')
  /\ (exists m', sseConnections (snd res) = Some m'
        /\ m' !! connectionId
           = Some (mkConn h (VStr r) (searchParam (q_customerPhone request))
                     (searchParam (q_type request)))
        /\ forall k, k <> connectionId ->
             m' !! k = match sseConnections w with
                       | Some m => m !! k
                       | None => None
                       end)
  /\ In h (pingIntervals (snd res)).
Proof.
  intros Hr Hne h connectionId res.
  assert (Ht : truthy (searchParam (q_restaurantId request)) = true).
  { rewrite Hr. simpl. apply negb_true_iff. by apply String.eqb_neq. }
  assert (Hl : length (streams (route_module w)) = length (streams w)).
  { unfold route_module. by destruct (sseConnections w). }
  assert (Htk : ticks (route_module w) = ticks w).
  { unfold route_module. by destruct (sseConnections w). }
  assert (Hst : streams (route_module w) = streams w).
  { unfold route_module. by destruct (sseConnections w). }
  destruct (GET env request w) as [resp w'] eqn:E. subst res.
  assert (Hresp : exists h0, resp = EventStream h0).
  { unfold GET in E. rewrite Ht in E. simpl in E. injection E as <- _. by eexists. }
  destruct Hresp as [h0 ->].
  pose proof E as E'. apply GET_connected in E' as (E1 & E2 & E3 & _).
  rewrite Hl in E1. rewrite Htk, Hr in E2, E3. simpl in E2, E3.
  fold connectionId in E2, E3. rewrite Hst in E2. subst h0. fold h. simpl.
  split; [done|]. split; [|split; [|split]].
  - rewrite E2. rewrite lookup_app_r by (unfold h; lia).
    unfold h. by rewrite Nat.sub_diag.
  - intros h' Hh'. rewrite E2. by rewrite lookup_app_l.
  - rewrite E3. unfold route_module.
    destruct (sseConnections w) as [m|] eqn:Em; simpl; rewrite ?Em; simpl.
    + eexists. split; [done|]. split; [apply lookup_insert_eq|].
      intros k Hk. by rewrite lookup_insert_ne.
    + eexists. split; [done|]. split; [apply lookup_insert_eq|].
      intros k Hk. rewrite lookup_insert_ne by done. apply lookup_empty.
  - unfold GET in E. rewrite Ht in E. simpl in E. injection E as _ <-. simpl.
    apply in_or_app. right. left. by rewrite Hl.
Qed.

(** Two requests with the same parameters get the same connection id
    exactly when [Date.now()] gave them the same reading. *)
Theorem connectionId_distinct_iff_clock (type restaurantId customerPhone : value)
    (t1 t2 : Z) :
  make_connectionId type restaurantId customerPhone t1
  = make_connectionId type restaurantId customerPhone t2
  <-> t1 = t2.
Proof.
  split; [|by intros ->]. unfold make_connectionId. intros H.
  do 6 apply (inj (String.app _)) in H.
  by apply (inj pretty) in H.
Qed.

(** *** Unregistering *)

Lemma clearInterval_gone h w :
  existsb (Nat.eqb h) (pingIntervals (clearInterval h w)) = false.
Proof.
  unfold clearInterval. simpl. apply not_true_iff_false. intros H.
  apply existsb_exists in H as (x & Hin & Hx).
  apply filter_In in Hin as [_ Hf]. apply Nat.eqb_eq in Hx. subst x.
  by rewrite Nat.eqb_refl in Hf.
Qed.

Lemma filter_idem {A} (f : A -> bool) (l : list A) :
  List.filter f (List.filter f l) = List.filter f l.
Proof.
  induction l as [|x l IH]; simpl; [done|].
  destruct (f x) eqn:E; simpl; [|done]. by rewrite E, IH.
Qed.

Lemma clearInterval_idem h w :
  clearInterval h (clearInterval h w) = clearInterval h w.
Proof. unfold clearInterval. simpl. by rewrite filter_idem. Qed.

(** Removing a connection is idempotent: the abort listener may run
    twice, or after a failed push has already removed the connection,
    and the second removal changes nothing. *)
Theorem onAbort_idempotent (connectionId : string) (h : nat) (w : World) :
  onAbort connectionId h (onAbort connectionId h w) = onAbort connectionId h w
  /\ (forall m, sseConnections w = Some m -> m !! connectionId = None ->
        sseConnections (onAbort connectionId h w) = Some m)
  /\ (forall m', sseConnections (onAbort connectionId h w) = Some m' ->
        m' !! connectionId = None).
Proof.
  unfold onAbort, delete_connection. split; [|split].
  - destruct w as [conns strs pings ords profs tk dr oi pub].
    unfold clearInterval, set_sseConnections, set_pingIntervals. simpl.
    rewrite filter_idem. destruct conns; simpl; [|done].
    by rewrite delete_delete_eq.
  - intros m Hm Hk. simpl. rewrite Hm. simpl. f_equal. by apply delete_id.
  - simpl. destruct (sseConnections w) as [m|]; simpl; [|done].
    intros m' [= <-]. apply lookup_delete_eq.
Qed.

(** A keep-alive that finds its stream gone removes the connection and
    stops its interval: the same interval never fires again. *)
Theorem pingTick_on_dead_stream (connectionId : string) (h : nat) (w : World) :
  In h (pingIntervals w) -> accepts (streams w) h = false ->
  let w' := pingTick connectionId h w in
  (forall m', sseConnections w' = Some m' -> m' !! connectionId = None)
  /\ ~ In h (pingIntervals w')
  /\ streams w' = streams w
  /\ pingTick connectionId h w' = w'.
Proof.
  intros Hin Hacc w'.
  assert (Hw' : w' = delete_connection connectionId (clearInterval h w)).
  { unfold w', pingTick.
    assert (existsb (Nat.eqb h) (pingIntervals w) = true) as ->.
    { apply existsb_exists. exists h. split; [done|]. apply Nat.eqb_refl. }
    simpl. by rewrite enqueue_rejects. }
  rewrite Hw'. split; [|split; [|split]].
  - unfold delete_connection. simpl.
    destruct (sseConnections w) as [m|]; simpl; [|done].
    intros m' [= <-]. apply lookup_delete_eq.
  - simpl. intros H. apply filter_In in H as [_ H]. by rewrite Nat.eqb_refl in H.
  - done.
  - unfold pingTick.
    change (pingIntervals (delete_connection connectionId (clearInterval h w)))
      with (pingIntervals (clearInterval h w)).
    by rewrite clearInterval_gone.
Qed.

(** *** Connection statistics *)

Lemma stats_fold rid (l : list (string * Conn)) : forall st,
  foldl (fun st entry => count_connection rid st (snd entry)) st l
  = mkStats
      (total st
       + length (List.filter
                   (fun e => negb (truthy rid) || strict_eq (restaurantId e.2) rid) l))
      (admin st
       + length (List.filter
                   (fun e => (negb (truthy rid) || strict_eq (restaurantId e.2) rid)
                             && strict_eq (type e.2) (VStr "admin")) l))
      (customer st
       + length (List.filter
                   (fun e => (negb (truthy rid) || strict_eq (restaurantId e.2) rid)
                             && strict_eq (type e.2) (VStr "customer")) l)).
Proof.
  induction l as [|e l IH]; intros st; simpl.
  - destruct st. simpl. f_equal; lia.
  - rewrite IH. unfold count_connection.
    destruct (negb (truthy rid) || strict_eq (restaurantId e.2) rid); simpl.
    + destruct (strict_eq (type e.2) (VStr "admin")),
               (strict_eq (type e.2) (VStr "customer")); simpl; f_equal; lia.
    + done.
Qed.

Lemma filter_length_le {A} (f : A -> bool) (l : list A) :
  length (List.filter f l) <= length l.
Proof. induction l as [|x l IH]; simpl; [lia|]. destruct (f x); simpl; lia. Qed.

Lemma filter_all {A} (f : A -> bool) (l : list A) :
  (forall x, In x l -> f x = true) -> List.filter f l = l.
Proof.
  induction l as [|x l IH]; intros H; simpl; [done|].
  rewrite (H x) by (by left). f_equal. apply IH. intros y Hy. apply H. by right.
Qed.

Lemma filter_disjoint_le {A} (f a b : A -> bool) (l : list A) :
  (forall x, a x && b x = false) ->
  length (List.filter (fun x => f x && a x) l)
  + length (List.filter (fun x => f x && b x) l)
  <= length (List.filter f l).
Proof.
  intros H. induction l as [|x l IH]; simpl; [lia|].
  specialize (H x). destruct (f x), (a x), (b x); simpl in *; try done; lia.
Qed.

Lemma admin_customer_exclusive (v : value) :
  strict_eq v (VStr "admin") && strict_eq v (VStr "customer") = false.
Proof.
  destruct v; simpl; try done.
  destruct (String.eqb_spec s "admin") as [->|]; done.
Qed.

(** The statistics count every connection once: admin and customer
    connections together never exceed the total, the total never
    exceeds the size of the map, without a restaurant id (or with an
    empty one) every connection is counted, and without a map all
    counts are zero. *)
Theorem connection_stats_bounds (restaurantId_ : value) (w : World) :
  let st := getConnectionStatsAction restaurantId_ w in
  admin st + customer st <= total st
  /\ (sseConnections w = None -> st = mkStats 0 0 0)
  /\ (forall m, sseConnections w = Some m ->
        total st <= size m
        /\ (truthy restaurantId_ = false -> total st = size m)).
Proof.
  intros st. subst st. unfold getConnectionStatsAction.
  set (rid := match restaurantId_ with VUndefined => VNull | given => given end).
  assert (Hrid : truthy rid = truthy restaurantId_) by (by destruct restaurantId_).
  destruct (sseConnections w) as [m|]; [|simpl; repeat split; try done; lia].
  rewrite stats_fold. simpl. split; [|split; [done|]].
  - apply (filter_disjoint_le _ (fun e => strict_eq (type e.2) (VStr "admin"))
             (fun e => strict_eq (type e.2) (VStr "customer"))).
    intros e. apply admin_customer_exclusive.
  - intros m' [= <-]. rewrite <- length_map_to_list.
    split.
    + apply filter_length_le.
    + intros Hf. rewrite Hrid, Hf. simpl. by rewrite filter_all.
Qed.

(** When every stream takes the frame, a broadcast to restaurant [R]
    (a non-empty id) reaches as many connections as the statistics count
    for [R], and an admin broadcast as many as they count as admins.
    This is so for every data that [JSON.stringify] serializes; for data
    it refuses both actions return its error. *)
Theorem broadcast_count_agrees_with_stats (R : string) (event : string)
    (data : value) (w : World) (m : gmap string Conn) :
  sseConnections w = Some m -> R <> "" ->
  (forall k c, m !! k = Some c -> accepts (streams w) (controller c) = true) ->
  fst (broadcastToRestaurantAction env (VStr R) event data w)
  = (if stringify_throws data
     then BroadcastError "Do not know how to serialize a BigInt"
     else BroadcastOk (total (getConnectionStatsAction (VStr R) w)))
  /\ fst (broadcastToAdminAction env (VStr R) event data w)
     = (if stringify_throws data
        then BroadcastError "Do not know how to serialize a BigInt"
        else BroadcastOk (admin (getConnectionStatsAction (VStr R) w))).
Proof.
  intros Hm HR Hacc. rewrite publish_restaurant, publish_admin.
  destruct (stringify_throws data) eqn:Hs.
  { split; by apply (publish_throws env _ event data w m). }
  assert (Ht : truthy (VStr R) = true).
  { simpl. apply negb_true_iff. by apply String.eqb_neq. }
  assert (Hd : forall sel,
             fst (publish env sel event data w)
             = BroadcastOk (length (List.filter (fun e => selects sel e.2)
                                      (map_to_list m)))).
  { intros sel. rewrite publish_broadcast.
    destruct (broadcast _ _ _ _ _) as [r w'] eqn:E.
    apply (broadcast_spec env _ _ _ _ m) in E; [|done|done].
    destruct E as (-> & _). simpl. do 2 f_equal. unfold delivered.
    apply List.filter_ext_in. intros [k c] Hin.
    apply list_elem_of_In, elem_of_map_to_list in Hin.
    simpl. rewrite (Hacc k c Hin). apply andb_true_r. }
  rewrite !Hd.
  unfold getConnectionStatsAction. rewrite Hm, stats_fold.
  cbn [total admin]. rewrite Ht. simpl. done.
Qed.

(** *** serializePlain *)

Lemma value_induction (P : value -> Prop) :
  P VUndefined -> P VNull -> (forall b, P (VBool b)) -> (forall n, P (VNum n)) ->
  (forall s, P (VStr s)) -> (forall ms, P (VDate ms)) ->
  (forall hex, P (VObjectId hex)) ->
  (forall elems, Forall P elems -> P (VArr elems)) ->
  (forall props, Forall (fun kv => P (snd kv)) props -> P (VObj props)) ->
  (forall n, P (VBigInt n)) ->
  forall v, P v.
Proof.
  intros H1 H2 H3 H4 H5 H6 H7 H8 H9 H10.
  fix IH 1. intros [ | |b|n|s|ms|hex|elems|props|n].
  - exact H1.
  - exact H2.
  - apply H3.
  - apply H4.
  - apply H5.
  - apply H6.
  - apply H7.
  - apply H8. induction elems as [|e elems IHl]; constructor; [apply IH|exact IHl].
  - apply H9. induction props as [|[k e] props IHl]; constructor;
      [apply IH|exact IHl].
  - apply H10.
Qed.

(** What [serializePlain] returns holds no [Date] and no [ObjectId] at
    any depth, and serializing it again changes nothing. *)
Theorem serializePlain_is_plain (v : value) :
  plain (serializePlain v) = true
  /\ serializePlain (serializePlain v) = serializePlain v.
Proof.
  induction v as [ | |b|n|s|ms|hex|elems IH|props IH|n] using value_induction;
    simpl; try done.
  - split.
    + rewrite forallb_forall. intros x Hx. apply in_map_iff in Hx as (y & <- & Hy).
      rewrite Forall_forall in IH. apply IH. by apply list_elem_of_In.
    + f_equal. rewrite List.map_map. apply List.map_ext_in. intros y Hy.
      rewrite Forall_forall in IH. apply IH. by apply list_elem_of_In.
  - split.
    + rewrite forallb_forall. intros x Hx. apply in_map_iff in Hx as (y & <- & Hy).
      rewrite Forall_forall in IH. simpl. apply IH. by apply list_elem_of_In.
    + f_equal. rewrite List.map_map. apply List.map_ext_in. intros y Hy.
      rewrite Forall_forall in IH. simpl. f_equal. apply IH. by apply list_elem_of_In.
Qed.

(** *** Orders *)

Lemma findOneAndUpdate_other (f g : value -> bool) update coll :
  (forall d, f d = true -> g d = false /\ g (update d) = false) ->
  List.find g (fst (findOneAndUpdate f update coll)) = List.find g coll.
Proof.
  intros H. induction coll as [|d coll IH]; simpl; [done|].
  destruct (f d) eqn:Hf; simpl.
  - destruct (H d Hf) as [-> ->]. done.
  - destruct (findOneAndUpdate f update coll) as [rest r]. simpl in *.
    by rewrite IH.
Qed.

Lemma has_orderId_other orderId other doc :
  other <> orderId -> has_orderId orderId doc = true ->
  has_orderId other doc = false.
Proof.
  unfold has_orderId. intros Hne H.
  destruct (field "orderId" doc); simpl in *; try done.
  apply String.eqb_eq in H. subst. by apply String.eqb_neq.
Qed.

Lemma findOneAndUpdate_length f update coll :
  length (fst (findOneAndUpdate f update coll)) = length coll.
Proof.
  induction coll as [|d coll IH]; simpl; [done|].
  destruct (f d); simpl; [done|].
  destruct (findOneAndUpdate f update coll) as [rest r]. simpl in *. by rewrite IH.
Qed.

Lemma findOneAndUpdate_missed f update coll :
  snd (findOneAndUpdate f update coll) = None ->
  fst (findOneAndUpdate f update coll) = coll.
Proof.
  induction coll as [|d coll IH]; simpl; [done|].
  destruct (f d); simpl; [done|].
  destruct (findOneAndUpdate f update coll) as [rest r]. simpl in *.
  intros H. by rewrite IH.
Qed.

Lemma update_orders orderId newStatus w :
  includes validStatuses newStatus = true ->
  orders (snd (updateOrderStatusAction env orderId newStatus w))
  = fst (findOneAndUpdate (has_orderId orderId)
           (fun d => set_field "updatedAt" (VDate (Date_now env (ticks w)))
                       (set_field "status" newStatus d))
           (orders w)).
Proof.
  intros Hv. unfold updateOrderStatusAction, now. rewrite Hv. simpl negb.
  cbv beta iota zeta.
  change (orders (set_ticks (S (ticks w)) w)) with (orders w).
  pose proof (findOneAndUpdate_missed (has_orderId orderId)
                (fun d => set_field "updatedAt" (VDate (Date_now env (ticks w)))
                            (set_field "status" newStatus d)) (orders w)) as Hmiss.
  destruct (findOneAndUpdate _ _ _) as [orders' [updated|]]; simpl in *.
  - destruct (broadcastToCustomerAction env _ _ _ _ _) as [r1 w1] eqn:P1.
    cbv beta iota zeta.
    destruct (broadcastToAdminAction env _ _ _ _) as [r2 w2] eqn:P2.
    rewrite publish_customer in P1. rewrite publish_admin in P2.
    apply publish_data in P1 as (O1 & _). apply publish_data in P2 as (O2 & _).
    simpl. by rewrite O2, O1.
  - by rewrite Hmiss.
Qed.

(** A status update changes the order it names and no other: every
    other order id still finds the document it found before, the
    collection keeps its length, and of the updated document only
    [status] and [updatedAt] change. *)
Theorem status_update_touches_one_order (orderId : string) (newStatus : value)
    (w : World) :
  let w' := snd (updateOrderStatusAction env orderId newStatus w) in
  (forall other, other <> orderId ->
     findOne other (orders w') = findOne other (orders w))
  /\ length (orders w') = length (orders w)
  /\ (forall doc doc' path,
        findOne orderId (orders w) = Some doc ->
        findOne orderId (orders w') = Some doc' ->
        path <> "status" -> path <> "updatedAt" ->
        field path doc' = field path doc).
Proof.
  intros w'. subst w'.
  destruct (includes validStatuses newStatus) eqn:Hv.
  2:{ rewrite update_invalid by done. simpl. repeat split; try done.
      intros doc doc' path H1 H2. congruence. }
  split; [|split].
  - intros other Hne. rewrite update_orders by done. unfold findOne.
    apply findOneAndUpdate_other. intros d Hd.
    split; [by apply (has_orderId_other orderId)|].
    apply (has_orderId_other orderId); [done|]. by apply has_orderId_update.
  - rewrite update_orders by done. apply findOneAndUpdate_length.
  - intros doc doc' path Hf Hd' Hp1 Hp2.
    destruct (update_found env orderId newStatus w doc Hv Hf)
      as (orders' & w1 & H1 & _ & _ & _ & H5 & _).
    rewrite H5, H1 in Hd'. injection Hd' as <-. by apply field_status_update.
Qed.

(** The first two ways out of [placeOrderAction].  For [null] or
    [undefined] the destructuring throws and the action returns the
    message of the [TypeError].  For every other [orderData] the action
    answers [Missing required fields] exactly when [restoId],
    [customerPhone] or [tableNumber] is missing or empty, or [items] is
    missing or has length zero.  In both cases it does nothing at all. *)
Theorem placeOrder_guard (fuel : nat) (orderData : value) (w : World) :
  let accepted :=
    truthy (field "restoId" orderData) && truthy (field "customerPhone" orderData)
    && truthy (field "tableNumber" orderData)
    && truthy (optional_length (field "items" orderData)) in
  (nullish orderData = true ->
   placeOrderAction env fuel orderData w = Some (Failure (Caught TypeError), w))
  /\ (nullish orderData = false -> accepted = false ->
      placeOrderAction env fuel orderData w
      = Some (Failure (Message "Missing required fields"), w))
  /\ (accepted = true ->
      forall r w', placeOrderAction env fuel orderData w = Some (r, w') ->
                   r <> Failure (Message "Missing required fields")).
Proof.
  intros accepted. subst accepted. split; [|split].
  - intros H. unfold placeOrderAction. by rewrite H.
  - intros Hn H. unfold placeOrderAction. rewrite Hn.
    destruct (truthy (field "restoId" orderData)); [|done].
    destruct (truthy (field "customerPhone" orderData)); [|done].
    destruct (truthy (field "tableNumber" orderData)); [|done].
    destruct (truthy (optional_length (field "items" orderData))); done.
  - intros H r w' E.
    apply andb_true_iff in H as [H H4]. apply andb_true_iff in H as [H H3].
    apply andb_true_iff in H as [H1 H2].
    pose proof (placeOrder_accepted env fuel orderData w r w' H1 H2 H3 H4 E) as P.
    destruct r as [order|e]; [done|].
    destruct P as ([-> | ->] & _); done.
Qed.

Lemma find_app_none {A} (f : A -> bool) (l1 l2 : list A) :
  List.find f l1 = None -> List.find f (l1 ++ l2) = List.find f l2.
Proof.
  induction l1 as [|x l1 IH]; simpl; [done|]. destruct (f x); [done|exact IH].
Qed.

(** A placed order gets an order id that no order of the collection
    has: the regeneration loop ends on an unused id only. *)
Theorem placed_order_has_fresh_id (fuel : nat) (orderData : value) (w : World)
    (order : value) (w' : World) :
  placeOrderAction env fuel orderData w = Some (Success order, w') ->
  exists orderId newOrder,
    orders w' = (orders w ++ [newOrder])%list
    /\ field "orderId" newOrder = VStr orderId
    /\ findOne orderId (orders w) = None
    /\ findOne orderId (orders w') = Some newOrder.
Proof.
  intros H. unfold placeOrderAction in H.
  destruct (nullish orderData); [done|].
  destruct (negb _ || negb _ || negb _ || negb _); [done|].
  destruct (generateOrderId env w) as [id0 w0] eqn:G.
  pose proof (generateOrderId_counters env w) as C0. rewrite G in C0. simpl in C0.
  destruct (regenerate env fuel id0 w0) as [[id1 w1]|] eqn:R; [|done].
  apply regenerate_counters in R as [C1 Fresh].
  pose proof (only_counters_trans _ _ _ C0 C1) as C. unfold only_counters in C.
  assert (Ow : orders w1 = orders w) by (rewrite C; reflexivity).
  clear C C0 C1. rewrite Ow in Fresh.
  destruct (map_items (field "items" orderData)) as [mapped|] eqn:M; [|done].
  unfold Order_create in H.
  destruct (Order_validate env _) eqn:V; [|done].
  cbn [fresh_oid now] in H. unfold push_profile_order, now in H.
  cbv beta iota zeta in H.
  rewrite publish_admin in H.
  destruct (publish env _ _ _ _) as [r2 w2] eqn:P.
  apply publish_data in P as (O & _).
  injection H as _ <-. rewrite O.
  cbn [orders set_profiles set_ticks set_orders set_oids]. rewrite Ow.
  exists id1. eexists. split; [reflexivity|]. split; [reflexivity|].
  split; [exact Fresh|].
  unfold findOne in *. rewrite (find_app_none _ _ _ Fresh). simpl.
  unfold has_orderId. simpl. by rewrite String.eqb_refl.
Qed.

End More.

(** On the floor an admin broadcast for R1 reaches the admin terminal. *)
Lemma floor_admin :
  Scenario.floor_connections !! Scenario.adminR1_id
  = Some (mkConn 0 (VStr "R1") VNull (VStr "admin")).
Proof.
  unfold Scenario.floor_connections.
  rewrite !lookup_insert_ne by (apply String.eqb_neq; reflexivity).
  apply lookup_insert_eq.
Qed.

Lemma admin_broadcast_addressing_witness :
  let c := mkConn 0 (VStr "R1") VNull (VStr "admin") in
  let s := mkStream true [sse_frame (connected_payload Scenario.adminR1_id)] in
  let frame := sse_frame (envelope ORDER_PLACED VNull
                            (Date_now Scenario.env0 (ticks Scenario.floor))) in
  let selected := strict_eq (restaurantId c) (VStr "R1")
                  && strict_eq (type c) (VStr "admin") in
  let w' := snd (broadcastToAdminAction Scenario.env0 (VStr "R1") ORDER_PLACED VNull
                   Scenario.floor) in
  streams w' !! controller c = Some (if selected then extended frame 1 s else s)
  /\ exists m', sseConnections w' = Some m'
       /\ m' !! Scenario.adminR1_id
          = if selected && negb (readable s) then None else Some c.
Proof.
  apply (admin_broadcast_addressing Scenario.env0 (VStr "R1") ORDER_PLACED VNull
           Scenario.floor Scenario.floor_connections Scenario.adminR1_id).
  - exact floor_connections_eq.
  - exact own_streams_floor.
  - exact floor_admin.
  - reflexivity.
Defined.

(** On the floor with the served order, cancelling it reaches the first
    tab of the customer 9999999999. *)
Lemma floor_first_tab :
  Scenario.floor_connections !! Scenario.first_tab_id
  = Some (mkConn 1 (VStr "R1") (VStr "9999999999") (VStr "customer")).
Proof.
  unfold Scenario.floor_connections.
  rewrite !lookup_insert_ne by (apply String.eqb_neq; reflexivity).
  apply lookup_insert_eq.
Qed.

Lemma own_streams_served_world : own_streams Scenario.served_world.
Proof.
  generalize own_streams_floor. by apply own_streams_same.
Qed.

Lemma status_update_reaches_only_its_audience_witness :
  let c := mkConn 1 (VStr "R1") (VStr "9999999999") (VStr "customer") in
  let s := mkStream true [sse_frame (connected_payload Scenario.first_tab_id)] in
  let w := Scenario.served_world in
  let doc := Scenario.served_order in
  let updated :=
    set_field "updatedAt" (VDate (Date_now Scenario.env0 (ticks w)))
      (set_field "status" (VStr "Cancelled") doc) in
  let payload :=
    VObj [("orderId", field "orderId" updated); ("status", VStr "Cancelled");
          ("order", serializePlain updated)] in
  let to_customer :=
    sse_frame (envelope ORDER_STATUS_CHANGED payload
                 (Date_now Scenario.env0 (S (ticks w)))) in
  let to_admin :=
    sse_frame (envelope ORDER_UPDATED payload
                 (Date_now Scenario.env0 (S (S (ticks w))))) in
  let is_customer :=
    strict_eq (restaurantId c) (field "restoId" doc)
    && strict_eq (type c) (VStr "customer")
    && strict_eq (customerPhone c) (field "customerPhone" doc) in
  let is_admin :=
    strict_eq (restaurantId c) (field "restoId" doc)
    && strict_eq (type c) (VStr "admin") in
  streams (snd (updateOrderStatusAction Scenario.env0 Scenario.sample_orderId
                  (VStr "Cancelled") w)) !! controller c
  = Some (mkStream true
            (chunks s ++ (if is_customer then [to_customer] else [])
                      ++ (if is_admin then [to_admin] else []))).
Proof.
  apply (status_update_reaches_only_its_audience Scenario.env0
           Scenario.sample_orderId (VStr "Cancelled") Scenario.served_world
           Scenario.served_order Scenario.floor_connections Scenario.first_tab_id).
  - reflexivity.
  - exact served_order_found.
  - exact floor_connections_eq.
  - exact own_streams_served_world.
  - exact floor_first_tab.
  - reflexivity.
  - reflexivity.
Defined.

Lemma GET_without_restaurantId_witness :
  let r := GET Scenario.env0 (mkRequest None (Some "9999999999") (Some "customer"))
             Scenario.floor in
  fst r = BadRequest "Missing restaurantId"
  /\ streams (snd r) = streams Scenario.floor
  /\ pingIntervals (snd r) = pingIntervals Scenario.floor
  /\ ticks (snd r) = ticks Scenario.floor
  /\ sseConnections (snd r)
     = Some (match sseConnections Scenario.floor with Some m => m | None => ∅ end).
Proof.
  apply (GET_without_restaurantId Scenario.env0
           (mkRequest None (Some "9999999999") (Some "customer")) Scenario.floor).
  by left.
Defined.

Lemma GET_registers_witness :
  let request := Scenario.adminR1 in
  let w := initial in
  let h := length (streams w) in
  let connectionId :=
    make_connectionId (searchParam (q_type request)) (VStr "R1")
      (searchParam (q_customerPhone request)) (Date_now Scenario.env0 (ticks w)) in
  let res := GET Scenario.env0 request w in
  fst res = EventStream h
  /\ streams (snd res) !! h
     = Some (mkStream true [sse_frame (connected_payload connectionId)])
  /\ (forall h', h' < h -> streams (snd res) !! h' = streams w !! h')
  /\ (exists m', sseConnections (snd res) = Some m'
        /\ m' !! connectionId
           = Some (mkConn h (VStr "R1") (searchParam (q_customerPhone request))
                     (searchParam (q_type request)))
        /\ forall k, k <> connectionId ->
             m' !! k = match sseConnections w with
                       | Some m => m !! k
                       | None => None
                       end)
  /\ In h (pingIntervals (snd res)).
Proof.
  apply (GET_registers Scenario.env0 Scenario.adminR1 initial "R1").
  - reflexivity.
  - discriminate.
Defined.

Lemma onAbort_idempotent_witness :
  sseConnections (onAbort "admin_R1_admin_1700000000000" 0 (route_module initial))
  = Some ∅.
Proof.
  apply (proj1 (proj2 (onAbort_idempotent "admin_R1_admin_1700000000000" 0
                         (route_module initial)))).
  - reflexivity.
  - apply lookup_empty.
Defined.

Lemma pingTick_on_dead_stream_witness :
  let w' := pingTick Scenario.second_tab_id 4 Scenario.floor in
  (forall m', sseConnections w' = Some m' -> m' !! Scenario.second_tab_id = None)
  /\ ~ In 4 (pingIntervals w')
  /\ streams w' = streams Scenario.floor
  /\ pingTick Scenario.second_tab_id 4 w' = w'.
Proof.
  apply (pingTick_on_dead_stream Scenario.second_tab_id 4 Scenario.floor).
  - simpl. auto 10.
  - reflexivity.
Defined.

Lemma placed_order_has_fresh_id_witness :
  exists order w' orderId newOrder,
    placeOrderAction Scenario.env0 0 Scenario.sample_orderData Scenario.kitchen
    = Some (Success order, w')
    /\ orders w' = (orders Scenario.kitchen ++ [newOrder])%list
    /\ field "orderId" newOrder = VStr orderId
    /\ findOne orderId (orders Scenario.kitchen) = None
    /\ findOne orderId (orders w') = Some newOrder.
Proof.
  destruct sample_order_is_placed as (order & w' & E).
  destruct (placed_order_has_fresh_id Scenario.env0 0 Scenario.sample_orderData
              Scenario.kitchen order w' E) as (orderId & newOrder & H).
  exists order, w', orderId, newOrder. split; [exact E|exact H].
Defined.

Lemma placeOrder_guard_witness :
  placeOrderAction Scenario.env0 0
    (set_field "items" (VArr []) Scenario.sample_orderData) Scenario.kitchen
  = Some (Failure (Message "Missing required fields"), Scenario.kitchen).
Proof.
  apply (proj1 (proj2 (placeOrder_guard Scenario.env0 0
                         (set_field "items" (VArr []) Scenario.sample_orderData)
                         Scenario.kitchen))).
  - reflexivity.
  - reflexivity.
Defined.

Lemma status_update_touches_one_order_witness :
  findOne "010000043"
    (orders (snd (updateOrderStatusAction Scenario.env0 Scenario.sample_orderId
                    (VStr "Cancelled") Scenario.served_world)))
  = findOne "010000043" (orders Scenario.served_world).
Proof.
  apply (proj1 (status_update_touches_one_order Scenario.env0
                  Scenario.sample_orderId (VStr "Cancelled")
                  Scenario.served_world)).
  discriminate.
Defined.

Lemma broadcast_count_agrees_with_stats_witness :
  let w := snd (GET Scenario.env0 Scenario.adminR1 initial) in
  fst (broadcastToRestaurantAction Scenario.env0 (VStr "R1") ORDER_PLACED VNull w)
  = BroadcastOk (total (getConnectionStatsAction (VStr "R1") w))
  /\ fst (broadcastToAdminAction Scenario.env0 (VStr "R1") ORDER_PLACED VNull w)
     = BroadcastOk (admin (getConnectionStatsAction (VStr "R1") w)).
Proof.
  apply (broadcast_count_agrees_with_stats Scenario.env0 "R1" ORDER_PLACED VNull
           (snd (GET Scenario.env0 Scenario.adminR1 initial))
           (<[Scenario.adminR1_id := mkConn 0 (VStr "R1") VNull (VStr "admin")]> ∅)).
  - reflexivity.
  - discriminate.
  - intros k c H. apply lookup_insert_Some in H as [[_ <-]|[_ H]].
    + reflexivity.
    + by rewrite lookup_empty in H.
Defined.

Lemma connection_stats_bounds_witness :
  total (getConnectionStatsAction VUndefined Scenario.floor)
  = size Scenario.floor_connections.
Proof.
  apply (proj2 (proj2 (connection_stats_bounds VUndefined Scenario.floor))
           Scenario.floor_connections floor_connections_eq).
  reflexivity.
Defined.

Lemma reachable_own_streams_witness :
  own_streams (snd (GET Scenario.env0 Scenario.adminR1 initial)).
Proof.
  apply (reachable_own_streams Scenario.env0).
  apply reach_GET, reach_initial.
Defined.

End MoreServerFacts.

(* ===================================================================== *)
(** ** Further facts about the client *)

Module MoreClientFacts.
Import JS Client ClientFacts.

#[local] Arguments notifySubscribers : simpl never.
#[local] Arguments subscribers_of : simpl never.

(** *** Messages *)

Lemma notifySubscribers_spec eventName data c :
  notifySubscribers eventName data c
  = set_invoked
      (invoked c
       ++ match eventName with
          | VStr name => List.map (fun cb => (cb, data)) (subscribers_of name c)
          | _ => []
          end) c.
Proof.
  destruct eventName; try apply notifySubscribers_name;
    unfold notifySubscribers; rewrite app_nil_r; by destruct c.
Qed.

Lemma onmessage_spec data eventName c :
  get "event" data = Some eventName ->
  onmessage (Some data) c
  = set_invoked
      (invoked c
       ++ match eventName with
          | VStr name =>
              List.map (fun cb => (cb, field "data" data)) (subscribers_of name c)
          | _ => []
          end
       ++ List.map
            (fun cb => (cb, VObj [("event", eventName);
                                  ("data", field "data" data);
                                  ("timestamp", field "timestamp" data)]))
            (subscribers_of "*" c))
      (set_connectionId
         (if strict_eq eventName (VStr "connected")
          then field "connectionId" data else connectionId c) c).
Proof.
  intros H. unfold onmessage. rewrite H. cbv zeta.
  rewrite !notifySubscribers_spec.
  destruct (strict_eq eventName (VStr "connected")); destruct c; simpl;
    rewrite <- app_assoc; reflexivity.
Qed.

(** A message whose [event] property can be read is handed to the
    callbacks subscribed to that event, with the message's [data], and
    then to the callbacks subscribed to [*], with the event object, in
    the order of subscription; only a [connected] message changes the
    connection id, and nothing else changes. *)
Theorem message_dispatch (data eventName : value) (c : State) :
  get "event" data = Some eventName ->
  let c' := onmessage (Some data) c in
  invoked c'
  = (invoked c
     ++ match eventName with
        | VStr name =>
            List.map (fun cb => (cb, field "data" data)) (subscribers_of name c)
        | _ => []
        end
     ++ List.map
          (fun cb => (cb, VObj [("event", eventName);
                                ("data", field "data" data);
                                ("timestamp", field "timestamp" data)]))
          (subscribers_of "*" c))%list
  /\ connectionId c'
     = (if strict_eq eventName (VStr "connected")
        then field "connectionId" data else connectionId c)
  /\ c' = set_invoked (invoked c') (set_connectionId (connectionId c') c).
Proof.
  intros H c'. subst c'. rewrite (onmessage_spec _ _ _ H). simpl.
  split; [done|]. split; done.
Qed.

Lemma message_dispatch_witness :
  let c := subscribe "*" 7 (subscribe "order:placed" 3 initial) in
  invoked (onmessage (Some (Server.envelope "order:placed" (VStr "x") 5)) c)
  = [(3, VStr "x"); (7, Server.envelope "order:placed" (VStr "x") 5)].
Proof.
  intros c.
  rewrite (proj1 (message_dispatch (Server.envelope "order:placed" (VStr "x") 5)
                    (VStr "order:placed") c eq_refl)).
  subst c. rewrite !subscribers_of_subscribe. simpl.
  unfold subscribers_of. simpl. by rewrite lookup_empty.
Defined.

(** The frames of the server on the client, when the parsed message is
    the object the server serialized: the [connected] frame stores the
    server's connection id; a broadcast envelope reaches the subscribers
    of its event with its data and the subscribers of [*] with the
    envelope itself, and leaves the connection id alone unless its event
    is [connected], in which case the id becomes [undefined]. *)
Theorem server_frames_on_the_client (connId event : string) (data : value)
    (t : Z) (c : State) :
  let hello := onmessage (Some (Server.connected_payload connId)) c in
  let news := onmessage (Some (Server.envelope event data t)) c in
  connectionId hello = VStr connId
  /\ invoked hello
     = (invoked c
        ++ List.map (fun cb => (cb, VUndefined)) (subscribers_of "connected" c)
        ++ List.map (fun cb => (cb, VObj [("event", VStr "connected");
                                          ("data", VUndefined);
                                          ("timestamp", VUndefined)]))
             (subscribers_of "*" c))%list
  /\ invoked news
     = (invoked c
        ++ List.map (fun cb => (cb, data)) (subscribers_of event c)
        ++ List.map (fun cb => (cb, Server.envelope event data t))
             (subscribers_of "*" c))%list
  /\ connectionId news
     = (if String.eqb event "connected" then VUndefined else connectionId c).
Proof.
  intros hello news. subst hello news.
  rewrite (onmessage_spec (Server.connected_payload connId) (VStr "connected") c eq_refl).
  rewrite (onmessage_spec (Server.envelope event data t) (VStr event) c eq_refl).
  simpl. repeat split.
Qed.

(** *** Subscriptions *)

Lemma subscribers_of_unsubscribe name name' cb c :
  subscribers_of name (unsubscribe name' cb c)
  = if String.eqb name name' then set_delete cb (subscribers_of name c)
    else subscribers_of name c.
Proof.
  unfold subscribers_of, unsubscribe.
  destruct (String.eqb_spec name name') as [->|Hne].
  - destruct (subscribersRef c !! name') eqn:E; simpl.
    + rewrite lookup_alter_eq, E. done.
    + by rewrite E.
  - destruct (subscribersRef c !! name') eqn:E; simpl; [|done].
    by rewrite lookup_alter_ne.
Qed.

Lemma set_delete_not_in cb s : ~ In cb (set_delete cb s).
Proof.
  unfold set_delete. intros H. apply filter_In in H as [_ H].
  by rewrite Nat.eqb_refl in H.
Qed.

Lemma set_delete_absent cb s : ~ In cb s -> set_delete cb s = s.
Proof.
  intros H. unfold set_delete. induction s as [|x s IH]; [done|]. simpl.
  destruct (Nat.eqb_spec x cb) as [->|Hne]; simpl.
  - destruct H. by left.
  - f_equal. apply IH. intros Hin. apply H. by right.
Qed.

Lemma set_delete_add cb s : set_delete cb (set_add cb s) = set_delete cb s.
Proof.
  unfold set_add, set_delete. destruct (existsb _ _); [done|].
  rewrite List.filter_app. simpl. rewrite Nat.eqb_refl. simpl. apply app_nil_r.
Qed.

Lemma set_add_in cb s : existsb (Nat.eqb cb) (set_add cb s) = true.
Proof.
  unfold set_add. destruct (existsb (Nat.eqb cb) s) eqn:E; [done|].
  rewrite existsb_app. simpl. rewrite Nat.eqb_refl. apply orb_true_iff. right. done.
Qed.

Lemma set_add_NoDup cb s : List.NoDup s -> List.NoDup (set_add cb s).
Proof.
  intros H. unfold set_add. destruct (existsb (Nat.eqb cb) s) eqn:E; [done|].
  apply NoDup_ListNoDup. apply NoDup_ListNoDup in H.
  apply NoDup_app. split; [done|]. split; [|apply NoDup_singleton].
  intros x Hx Hx'. apply list_elem_of_singleton in Hx' as ->.
  assert (existsb (Nat.eqb cb) s = true); [|congruence].
  apply existsb_exists. exists cb. split; [by apply list_elem_of_In|].
  apply Nat.eqb_refl.
Qed.

Lemma set_delete_NoDup cb s : List.NoDup s -> List.NoDup (set_delete cb s).
Proof. apply List.NoDup_filter. Qed.

(** Unsubscribing after subscribing: the callback is no longer in the
    set of its event, the other events keep their sets, a callback that
    was not subscribed before leaves the set as it was, and the entry
    of the event stays in the map. *)
Theorem unsubscribe_undoes_subscribe (name name' : string) (cb : nat) (c : State) :
  let c' := unsubscribe name cb (subscribe name cb c) in
  subscribers_of name' c'
  = (if String.eqb name' name then set_delete cb (subscribers_of name c)
     else subscribers_of name' c)
  /\ ~ In cb (subscribers_of name c')
  /\ (~ In cb (subscribers_of name c) ->
      subscribers_of name c' = subscribers_of name c)
  /\ subscribersRef c' !! name <> None.
Proof.
  intros c'. subst c'.
  assert (Hsame : subscribers_of name (unsubscribe name cb (subscribe name cb c))
                  = set_delete cb (subscribers_of name c)).
  { rewrite subscribers_of_unsubscribe, subscribers_of_subscribe.
    rewrite String.eqb_refl. apply set_delete_add. }
  split; [|split; [|split]].
  - rewrite subscribers_of_unsubscribe, subscribers_of_subscribe.
    destruct (String.eqb name' name) eqn:E; [|done].
    apply String.eqb_eq in E as ->. apply set_delete_add.
  - rewrite Hsame. apply set_delete_not_in.
  - intros H. rewrite Hsame. by apply set_delete_absent.
  - unfold unsubscribe, subscribe. simpl.
    assert (is_Some (alter (set_add cb) name
                       match subscribersRef c !! name with
                       | Some _ => subscribersRef c
                       | None => <[name:=[]]> (subscribersRef c)
                       end !! name)) as [s Hs].
    { rewrite lookup_alter_eq.
      destruct (subscribersRef c !! name) eqn:E; simpl.
      - rewrite E. by eexists.
      - rewrite lookup_insert_eq. by eexists. }
    rewrite Hs. simpl. rewrite lookup_alter_eq, Hs. done.
Qed.

Lemma unsubscribe_undoes_subscribe_witness :
  subscribers_of "order:placed"
    (unsubscribe "order:placed" 4 (subscribe "order:placed" 4 initial))
  = subscribers_of "order:placed" initial.
Proof.
  apply (proj1 (proj2 (proj2 (unsubscribe_undoes_subscribe
                                "order:placed" "order:placed" 4 initial)))).
  unfold subscribers_of. simpl. rewrite lookup_empty. intros [].
Defined.

(** Subscribing the same callback to the same event a second time
    changes no set of callbacks. *)
Theorem subscribe_twice_is_once (name name' : string) (cb : nat) (c : State) :
  subscribers_of name' (subscribe name cb (subscribe name cb c))
  = subscribers_of name' (subscribe name cb c).
Proof.
  rewrite (subscribers_of_subscribe name' name cb (subscribe name cb c)).
  destruct (String.eqb name' name) eqn:E; [|done].
  apply String.eqb_eq in E as ->.
  rewrite subscribers_of_subscribe, String.eqb_refl.
  unfold set_add at 1. by rewrite set_add_in.
Qed.

Lemma step_NoDup c e :
  (forall name, List.NoDup (subscribers_of name c)) ->
  forall name, List.NoDup (subscribers_of name (step c e)).
Proof.
  intros H name. pose proof (step_subscribers c e) as Hs.
  destruct e as [params| |name' cb|name' cb|es|es parsed|es|id];
    try (unfold subscribers_of; rewrite Hs; apply H).
  - simpl. rewrite subscribers_of_subscribe.
    destruct (String.eqb name name'); [apply set_add_NoDup|]; apply H.
  - simpl. rewrite subscribers_of_unsubscribe.
    destruct (String.eqb name name'); [apply set_delete_NoDup|]; apply H.
Qed.

Lemma run_NoDup events : forall c,
  (forall name, List.NoDup (subscribers_of name c)) ->
  forall name, List.NoDup (subscribers_of name (run events c)).
Proof.
  induction events as [|e events IH]; intros c H; [done|].
  simpl. apply IH. by apply step_NoDup.
Qed.

(** In every state the lifecycle can reach, no callback is twice in the
    set of an event, so that a message calls it at most once for its
    event and at most once for [*]. *)
Theorem subscriptions_are_sets (events : list Event) (name : string) :
  List.NoDup (subscribers_of name (run events initial)).
Proof.
  apply run_NoDup. intros name'. unfold subscribers_of. simpl.
  rewrite lookup_empty. constructor.
Qed.

(** *** Connections *)

Lemma live_source c es e :
  lifecycle_invariant c ->
  eventSources c !! es = Some e -> readyState e <> CLOSED ->
  eventSourceRef c = Some es.
Proof. intros [_ _ _ I4] He Hn. by destruct (I4 es e He Hn). Qed.

(** In every state the lifecycle can reach, an [EventSource] that is not
    closed is the one [eventSourceRef] points at: at most one is live. *)
Theorem at_most_one_live_EventSource (events : list Event) :
  let c := run events initial in
  forall es e es' e',
    eventSources c !! es = Some e -> readyState e <> CLOSED ->
    eventSources c !! es' = Some e' -> readyState e' <> CLOSED ->
    es = es' /\ eventSourceRef c = Some es.
Proof.
  intros c es e es' e' He Hn He' Hn'.
  assert (Hc : lifecycle_invariant c) by apply inv_run, inv_initial.
  pose proof (live_source c es e Hc He Hn) as H1.
  pose proof (live_source c es' e' Hc He' Hn') as H2.
  split; [congruence|done].
Qed.

Lemma at_most_one_live_EventSource_witness :
  let params := mkParams (VStr "R1") (VStr "admin") VUndefined in
  let c := run [CallConnect params; OpenEvent 0; CallConnect params] initial in
  1 = 1 /\ eventSourceRef c = Some 1.
Proof.
  intros params c.
  apply (at_most_one_live_EventSource
           [CallConnect params; OpenEvent 0; CallConnect params]
           1 (mkEventSource (request_of params) CONNECTING)
           1 (mkEventSource (request_of params) CONNECTING));
    (reflexivity || discriminate).
Defined.

Lemma disconnect_spec c :
  lifecycle_invariant c ->
  (forall es e, eventSources (disconnect c) !! es = Some e -> readyState e = CLOSED)
  /\ timers (disconnect c) = []
  /\ reconnectTimeoutRef (disconnect c) = None
  /\ eventSourceRef (disconnect c) = None
  /\ connectionParamsRef (disconnect c) = None
  /\ isConnected (disconnect c) = false
  /\ connectionId (disconnect c) = VNull
  /\ subscribersRef (disconnect c) = subscribersRef c
  /\ invoked (disconnect c) = invoked c.
Proof.
  intros Hc. pose proof (inv_disconnect c Hc) as [J1 J2 [J3 J3'] J4].
  assert (F : reconnectTimeoutRef (disconnect c) = None
              /\ eventSourceRef (disconnect c) = None
              /\ connectionParamsRef (disconnect c) = None
              /\ isConnected (disconnect c) = false
              /\ connectionId (disconnect c) = VNull
              /\ subscribersRef (disconnect c) = subscribersRef c
              /\ invoked (disconnect c) = invoked c).
  { unfold disconnect.
    set (c1 := match eventSourceRef c with
               | Some es => set_eventSourceRef None (close es c)
               | None => c
               end).
    assert (Hc1 : c1 = set_eventSourceRef None
                         (set_eventSources (eventSources c1) c)).
    { unfold c1. destruct (eventSourceRef c) eqn:E.
      - rewrite close_other at 1. done.
      - destruct c. simpl in *. by subst. }
    assert (Hr : reconnectTimeoutRef c1 = reconnectTimeoutRef c)
      by (rewrite Hc1; done).
    cbn [reconnectTimeoutRef set_connectionParamsRef set_connectionId
         set_isConnected]. rewrite Hr.
    rewrite (timer_truthy_inv c Hc).
    destruct (reconnectTimeoutRef c) as [id|] eqn:E; simpl; rewrite Hc1; simpl;
      repeat split; done. }
  destruct F as (F1 & F2 & F3 & F4 & F5 & F6 & F7).
  split; [|split; [|repeat split; done]].
  - intros es e He. destruct (closed_dec (readyState e)) as [|Hn]; [done|].
    destruct (J4 es e He Hn) as [_ H]. by destruct H.
  - by rewrite J1, F1.
Qed.

Lemma quiet_step c e :
  (forall es x, eventSources c !! es = Some x -> readyState x = CLOSED) ->
  timers c = [] ->
  match e with
  | OpenEvent _ | MessageEvent _ _ | ErrorEvent _ | Timeout _ => True
  | _ => False
  end ->
  step c e = c.
Proof.
  intros Hclosed Ht He.
  assert (Hr : forall es, ready es c = Some CLOSED \/ ready es c = None).
  { intros es. unfold ready. destruct (eventSources c !! es) as [x|] eqn:E; simpl.
    - left. by rewrite (Hclosed es x E).
    - by right. }
  destruct e as [params| |name cb|name cb|es|es parsed|es|id]; try done; simpl.
  - by destruct (Hr es) as [-> | ->].
  - by destruct (Hr es) as [-> | ->].
  - by destruct (Hr es) as [-> | ->].
  - by rewrite Ht.
Qed.

Lemma quiet_run events : forall c,
  (forall es x, eventSources c !! es = Some x -> readyState x = CLOSED) ->
  timers c = [] ->
  Forall (fun e => match e with
                   | OpenEvent _ | MessageEvent _ _ | ErrorEvent _ | Timeout _ => True
                   | _ => False
                   end) events ->
  run events c = c.
Proof.
  induction events as [|e events IH]; intros c Hclosed Ht Hev; [done|].
  apply Forall_cons in Hev as [He Hev]. simpl.
  rewrite (quiet_step c e Hclosed Ht He). by apply IH.
Qed.

(** [disconnect] is final: in every state the lifecycle can reach it
    leaves every [EventSource] closed, no timeout pending, the refs and
    the connection id [null], the client marked disconnected and the
    subscriptions as they were; and whatever the browser dispatches
    afterwards (open, message, error, timeout) changes nothing, so no
    reconnection happens until the application calls [connect]. *)
Theorem disconnect_is_final (events later : list Event) :
  let c := disconnect (run events initial) in
  (forall es e, eventSources c !! es = Some e -> readyState e = CLOSED)
  /\ timers c = []
  /\ reconnectTimeoutRef c = None
  /\ eventSourceRef c = None
  /\ connectionParamsRef c = None
  /\ isConnected c = false
  /\ connectionId c = VNull
  /\ subscribersRef c = subscribersRef (run events initial)
  /\ invoked c = invoked (run events initial)
  /\ (Forall (fun e => match e with
                       | OpenEvent _ | MessageEvent _ _ | ErrorEvent _
                       | Timeout _ => True
                       | _ => False
                       end) later ->
      run later c = c).
Proof.
  intros c. subst c.
  assert (Hc : lifecycle_invariant (run events initial)) by apply inv_run, inv_initial.
  destruct (disconnect_spec _ Hc) as (H1 & H2 & H3 & H4 & H5 & H6 & H7 & H8 & H9).
  do 9 (split; [done|]).
  intros Hl. by apply quiet_run.
Qed.

Lemma disconnect_is_final_witness :
  let params := mkParams (VStr "R1") (VStr "admin") VUndefined in
  let c := disconnect (run [CallConnect params; OpenEvent 0; ErrorEvent 0] initial) in
  run [Timeout 1; ErrorEvent 0; OpenEvent 0; MessageEvent 0 None] c = c.
Proof.
  intros params c.
  apply (disconnect_is_final [CallConnect params; OpenEvent 0; ErrorEvent 0]
           [Timeout 1; ErrorEvent 0; OpenEvent 0; MessageEvent 0 None]).
  repeat constructor.
Defined.

(** [connect] leaves [isConnected] as it is: called while a connection
    is open, it closes that one and the client still reports connected
    while the new [EventSource] is connecting.  With parameters it
    rejects it does nothing. *)
Theorem connect_keeps_isConnected (params : Params) (c : State) :
  isConnected (connect params c) = isConnected c
  /\ connectionId (connect params c) = connectionId c
  /\ (connectable params ->
      (forall es, eventSourceRef c = Some es -> is_Some (ready es c) ->
                  ready es (connect params c) = Some CLOSED)
      /\ exists es', eventSourceRef (connect params c) = Some es'
                     /\ ready es' (connect params c) = Some CONNECTING
                     /\ es' = length (eventSources c))
  /\ (truthy (p_restaurantId params) = false \/ truthy (p_type params) = false ->
      connect params c = c).
Proof.
  set (c2 := match eventSourceRef (set_connectionParamsRef (Some params) c) with
             | Some es => close es (set_connectionParamsRef (Some params) c)
             | None => set_connectionParamsRef (Some params) c
             end).
  assert (Hc2 : c2 = set_eventSources (eventSources c2)
                       (set_connectionParamsRef (Some params) c)).
  { unfold c2. destruct (eventSourceRef _); [apply close_other|by destruct c]. }
  assert (Hlen : length (eventSources c2) = length (eventSources c)).
  { unfold c2. simpl. destruct (eventSourceRef c) as [es|]; [|done].
    unfold close. simpl. destruct (eventSources c !! es); [|done]. simpl.
    by rewrite length_insert. }
  split; [|split; [|split]].
  - unfold connect. destruct (negb _ || negb _); [done|]. cbv zeta. fold c2.
    rewrite Hc2. done.
  - unfold connect. destruct (negb _ || negb _); [done|]. cbv zeta. fold c2.
    rewrite Hc2. done.
  - intros [Hr Ht]. unfold connect. rewrite Hr, Ht. cbn [negb orb]. cbv zeta.
    fold c2. split.
    + intros es Hes Hsome. unfold ready. simpl.
      assert (Hcl : ready es c2 = Some CLOSED).
      { unfold c2. simpl. rewrite Hes.
        apply (close_ready es (set_connectionParamsRef (Some params) c)). exact Hsome. }
      unfold ready in Hcl. rewrite lookup_app_l; [exact Hcl|].
      destruct (eventSources c2 !! es) eqn:E; [|done]. by eapply lookup_lt_Some.
    + exists (length (eventSources c2)). split; [done|]. split; [|done].
      unfold ready. simpl. rewrite lookup_app_r by lia. by rewrite Nat.sub_diag.
  - intros [H|H]; unfold connect; rewrite H; simpl; [done|].
    by rewrite orb_true_r.
Qed.

Lemma connect_keeps_isConnected_witness :
  let params := mkParams (VStr "R1") (VStr "admin") VUndefined in
  let c := run [CallConnect params; OpenEvent 0] initial in
  isConnected (connect params c) = true
  /\ ready 0 (connect params c) = Some CLOSED
  /\ ready 1 (connect params c) = Some CONNECTING.
Proof.
  intros params c.
  destruct (connect_keeps_isConnected params c) as (H1 & _ & H3 & _).
  destruct (H3 (conj eq_refl eq_refl)) as (H4 & es' & _ & H5 & ->).
  split; [rewrite H1; reflexivity|].
  split; [apply H4; [reflexivity|by eexists]|exact H5].
Defined.

End MoreClientFacts.
